(** * Shapefile ingestion into PostGIS: a shallow embedding

    The development follows [ingestion_from_shp.py] (the batch path) and
    [utils_db.py] (the upload path).

    - A Python [str] is a Rocq [string] holding the UTF-8 bytes of the text.
      Every byte of a non-ASCII character is outside [[a-z0-9_]], so a run
      of characters outside the class is a run of bytes outside it, and the
      two regular expressions act on bytes as they act on characters.
    - [str.lower], [str.upper], [str.strip] and [repr] are tables of the
      Python runtime; the functions that call them take them as arguments.
      [ascii_lower] and [ascii_upper] are what they do on ASCII text.
    - Sets are [gset string], the [.cpg] table a [gmap].
    - The shapefile reader, the [.cpg] sidecar, the database and the write
      of the report file are oracles, each of which may raise.  Code that
      talks to the database runs in a monad that threads the database and
      records the statements sent, the log records and what is left in the
      files written.
    - An exception is a value; code that may raise returns a sum. *)

From Stdlib Require Import Ascii String.
From stdpp Require Import base decidable list strings gmap sets fin_sets pretty.

(** ** Characters and character classes *)

(** The character class [[a-z0-9_]] of the two regular expressions. *)
Definition is_lower_az (c : ascii) : bool :=
  let n := nat_of_ascii c in (97 <=? n) && (n <=? 122).

Definition is_digit (c : ascii) : bool :=
  let n := nat_of_ascii c in (48 <=? n) && (n <=? 57).

Definition is_underscore (c : ascii) : bool :=
  if decide (c = "_"%char) then true else false.

Definition ident_char (c : ascii) : bool :=
  is_lower_az c || is_digit c || is_underscore c.

(** ASCII case mapping: what [str.lower] and [str.upper] do on ASCII text. *)
Definition ascii_lower_char (c : ascii) : ascii :=
  let n := nat_of_ascii c in
  if (65 <=? n) && (n <=? 90) then ascii_of_nat (n + 32) else c.

Definition ascii_upper_char (c : ascii) : ascii :=
  let n := nat_of_ascii c in
  if (97 <=? n) && (n <=? 122) then ascii_of_nat (n - 32) else c.

Definition chars (s : string) : list ascii := list_ascii_of_string s.
Definition str (l : list ascii) : string := string_of_list_ascii l.

Definition ascii_lower (s : string) : string := str (ascii_lower_char <$> chars s).
Definition ascii_upper (s : string) : string := str (ascii_upper_char <$> chars s).

(** ** Regular-expression substitution of runs: [re.sub(r"[c]+", r, s)] *)

(** Every maximal run of characters satisfying [p] is replaced by the single
    character [r]; [in_run] records that the previous character belonged to
    the run being replaced. *)
Fixpoint sub_runs_from (p : ascii → bool) (r : ascii) (in_run : bool)
    (s : list ascii) : list ascii :=
  match s with
  | [] => []
  | c :: s' =>
      if p c then
        if in_run then sub_runs_from p r true s'
        else r :: sub_runs_from p r true s'
      else c :: sub_runs_from p r false s'
  end.

Definition re_sub_runs (p : ascii → bool) (r : ascii) (s : list ascii) : list ascii :=
  sub_runs_from p r false s.

(** [s.lstrip("_")], [s.rstrip("_")] and [s.strip("_")]. *)
Fixpoint lstrip (p : ascii → bool) (s : list ascii) : list ascii :=
  match s with
  | [] => []
  | c :: s' => if p c then lstrip p s' else s
  end.

Definition rstrip (p : ascii → bool) (s : list ascii) : list ascii :=
  reverse (lstrip p (reverse s)).

Definition strip (p : ascii → bool) (s : list ascii) : list ascii :=
  rstrip p (lstrip p s).

(** [t] occurs in [s] as a block of consecutive characters. *)
Definition factor_of (t s : list ascii) : Prop := ∃ l r, s = l ++ t ++ r.

(** ** The identifier normalizer *)

Definition PG_NAME_MAXLEN : nat := 63.

Section Slugify.
(** [str.lower]: a Unicode table of the Python runtime, taken as given. *)
Variable str_lower : string → string.

Definition slugify (name : string) : string :=
  let name := chars (str_lower name) in
  let name := re_sub_runs (λ c, negb (ident_char c)) "_"%char name in
  let name := strip is_underscore (re_sub_runs is_underscore "_"%char name) in
  str (take PG_NAME_MAXLEN name).
End Slugify.

(** The pattern [^[a-z0-9_]{0,63}$] and the test for a doubled underscore. *)
Definition re_match_ident (s : string) : bool :=
  forallb ident_char (chars s) && (length (chars s) <=? 63).

Fixpoint double_underscore (s : list ascii) : bool :=
  match s with
  | [] => false
  | c :: s' =>
      match s' with
      | c' :: _ => (is_underscore c && is_underscore c') || double_underscore s'
      | [] => false
      end
  end.

Definition has_double_underscore (s : string) : bool := double_underscore (chars s).

(** A 64-character name whose 63rd character is an underscore. *)
Definition long_name : string :=
  "aaaaaaaaaaaaaaaaaaaaaaaaaaaaaaaaaaaaaaaaaaaaaaaaaaaaaaaaaaaaaa_b".

(** ** Feature collections *)

(** What the pipeline reads of a [GeoDataFrame]: the column labels in order
    and the [geom_type] series ([None] for a missing geometry). *)
Record GeoDataFrame := mkGDF {
  columns : list string;
  geom_type : list (option string)
}.

(** [gdf.set_axis(cols, axis=1)] *)
Definition set_axis (gdf : GeoDataFrame) (cols : list string) : GeoDataFrame :=
  {| columns := cols; geom_type := geom_type gdf |}.

(** ** Column sanitizer *)

(** f"{base}_{i}" *)
Definition suffixed (base : string) (i : nat) : string :=
  base +:+ "_" +:+ pretty i.

(** The [while cc in seen or cc == "geometry"] loop.  [fuel] bounds the
    number of times the body runs; [None] means the bound was hit. *)
Fixpoint dedup_loop (fuel : nat) (seen : gset string) (base cc : string)
    (i : nat) : option string :=
  if bool_decide (cc ∈ seen) || bool_decide (cc = "geometry") then
    match fuel with
    | 0 => None
    | S fuel' => dedup_loop fuel' seen base (suffixed base i) (S i)
    end
  else Some cc.

(** A name is blocked when the loop condition holds for it. *)
Definition blocked (seen : gset string) (cc : string) : Prop :=
  cc ∈ seen ∨ cc = "geometry".

(** The names in use after some columns: those given to the columns that
    are not the geometry column. *)
Definition used_in (cols : list string) (x : string) : Prop :=
  x ∈ cols ∧ x ≠ "geometry".

(** The state of the column loop is coherent: [seen] holds the used names. *)
Definition seen_inv (st : list string * gset string) : Prop :=
  ∀ x, x ∈ st.2 ↔ used_in st.1 x.

Section SanitizeColumns.
Variable str_lower : string → string.

(** [slugify(c) or "col"] *)
Definition slug_or_col (c : string) : string :=
  let cc := slugify str_lower c in
  if decide (cc = "") then "col" else cc.

(** One iteration of [for c in gdf.columns] on the state [(cols, seen)]. *)
Definition sanitize_step (st : list string * gset string) (c : string)
    : option (list string * gset string) :=
  let '(cols, seen) := st in
  if decide (c = "geometry") then Some (cols ++ [c], seen)
  else
    let cc := slug_or_col c in
    cc' ← dedup_loop (S (size seen)) seen cc cc 2;
    Some (cols ++ [cc'], {[cc']} ∪ seen).

Fixpoint sanitize_loop (st : list string * gset string) (cs : list string)
    : option (list string * gset string) :=
  match cs with
  | [] => Some st
  | c :: cs' => st' ← sanitize_step st c; sanitize_loop st' cs'
  end.

(** The names computed for a list of column labels. *)
Definition sanitize_names (cs : list string) : option (list string) :=
  fst <$> sanitize_loop ([], ∅) cs.

Definition sanitize_columns (gdf : GeoDataFrame) : option GeoDataFrame :=
  set_axis gdf <$> sanitize_names (columns gdf).
End SanitizeColumns.

(** ** Geometry type classification *)

(** [series.dropna()] *)
Definition dropna (l : list (option string)) : list string := omap id l.

(** [t.endswith(suf)] *)
Definition endswith (t suf : string) : bool :=
  bool_decide (chars suf `suffix_of` chars t).

(** [s.replace("ZM", "")]: every occurrence, scanning left to right. *)
Fixpoint replace_ZM (s : list ascii) : list ascii :=
  match s with
  | [] => []
  | c :: s' =>
      match s' with
      | c' :: s'' =>
          if bool_decide (c = "Z"%char) && bool_decide (c' = "M"%char)
          then replace_ZM s'' else c :: replace_ZM s'
      | [] => [c]
      end
  end.

(** [s.replace("Z", "")] *)
Definition replace_Z (s : list ascii) : list ascii :=
  filter (λ c, c ≠ "Z"%char) s.

(** The loop body of [geom_type_for_column] on one type name. *)
Definition norm_type (t : string) : string :=
  if endswith t "ZM" || endswith t "Z"
  then str (replace_Z (replace_ZM (chars t)))
  else t.

(** Some geometry of the collection has type [t] once upper-cased. *)
Definition has_type (str_upper : string → string) (gdf : GeoDataFrame) (t : string) : Prop :=
  ∃ g, Some g ∈ geom_type gdf ∧ str_upper g = t.

Section GeometryType.
(** [str.upper], as [str_lower] above. *)
Variable str_upper : string → string.

(** [set([t.upper() for t in gdf.geom_type.dropna().unique()])] *)
Definition upper_types (gdf : GeoDataFrame) : gset string :=
  list_to_set (str_upper <$> remove_dups (dropna (geom_type gdf))).

(** The set [types] after the normalisation loop. *)
Definition base_types (gdf : GeoDataFrame) : gset string :=
  set_map norm_type (upper_types gdf).

Definition generic_type (z : bool) : string :=
  if z then "GEOMETRYZ" else "GEOMETRY".

Definition geom_type_for_column (gdf : GeoDataFrame) (z : bool) : string * bool :=
  let types := base_types gdf in
  if decide (size types = 0) then (generic_type z, true)
  else if decide (size types = 1) then
    (* [list(types)[0]]: the list has one element here *)
    let t := default "" (head (elements types)) in
    (if z then t +:+ "Z" else t, false)
  else (generic_type z, true).

(** [fams & {a, b}] is truthy when non-empty. *)
Definition meets (fams : gset string) (a b : string) : bool :=
  bool_decide (fams ∩ {[a; b]} ≠ ∅).

Definition _geom_family (gdf : GeoDataFrame) : string :=
  let fams : gset string := list_to_set (str_upper <$> dropna (geom_type gdf)) in
  if meets fams "POLYGON" "MULTIPOLYGON" then "MULTIPOLYGON"
  else if meets fams "LINESTRING" "MULTILINESTRING" then "MULTILINESTRING"
  else if meets fams "POINT" "MULTIPOINT" then "MULTIPOINT"
  else "GEOMETRY".
End GeometryType.

(** ** Exceptions *)

(** A raised exception: its class, its message ([str(e)]) and the exception
    it was raised [from], when there is one. *)
Inductive exn : Type :=
  | Exn (cls : string) (msg : string)
  | ExnFrom (cls : string) (msg : string) (cause : exn).

Definition exn_msg (e : exn) : string :=
  match e with Exn _ m | ExnFrom _ m _ => m end.

(** The messages of an exception and of the exceptions it was raised from. *)
Fixpoint exn_messages (e : exn) : list string :=
  match e with
  | Exn _ m => [m]
  | ExnFrom _ m cause => m :: exn_messages cause
  end.

(** ** Encoding resolver *)

(** The [.cpg] token table of both paths. *)
Definition enc_map : gmap string string :=
  list_to_map [("UTF-8", "utf-8"); ("UTF8", "utf-8");
               ("LATIN1", "latin-1"); ("ISO-8859-1", "latin-1");
               ("CP1252", "cp1252"); ("WINDOWS-1252", "cp1252")].

Definition fallback_encodings : list string := ["utf-8"; "latin-1"; "cp1252"].

(** Python truthiness of an optional string. *)
Definition truthy (o : option string) : bool :=
  match o with
  | Some s => bool_decide (s ≠ "")
  | None => false
  end.

(** [", ".join(l)] *)
Fixpoint join_comma (l : list string) : string :=
  match l with
  | [] => ""
  | [x] => x
  | x :: l' => x +:+ ", " +:+ join_comma l'
  end.

(** [needle in hay] for strings. *)
Fixpoint starts_with (p s : list ascii) : bool :=
  match p, s with
  | [], _ => true
  | a :: p', b :: s' => bool_decide (a = b) && starts_with p' s'
  | _ :: _, [] => false
  end.

Fixpoint contains_chars (s needle : list ascii) : bool :=
  starts_with needle s ||
  match s with
  | [] => false
  | _ :: s' => contains_chars s' needle
  end.

Definition str_contains (hay needle : string) : bool :=
  contains_chars (chars hay) (chars needle).

(** The encodings a resolver goes through for a hint: the hint when it is
    truthy, the three fallbacks, then the driver's own choice. *)
Definition candidate_encodings (enc_hint : option string) : list string :=
  (if truthy enc_hint then option_list enc_hint else []) ++ fallback_encodings.

Definition attempt_plan (enc_hint : option string) : list (option string) :=
  (Some <$> candidate_encodings enc_hint) ++ [None].

(** A run over [plan] that stops at the first attempt that reads: the
    attempts made are an initial part of the plan, all but the last of them
    failed, the run returns a collection exactly when the last attempt read
    one, and then that one, and a run that stops before the end of the plan
    returns a collection. *)
Definition stops_at_first_success
    (read_file : string → option string → exn + GeoDataFrame) (path : string)
    (plan : list (option string))
    (run : list (option string) * (exn + GeoDataFrame)) : Prop :=
  run.1 `prefix_of` plan ∧
  ∃ init x, run.1 = init ++ [x] ∧
    (∀ y, y ∈ init → ∃ e, read_file path y = inl e) ∧
    (∀ gdf, run.2 = inr gdf ↔ read_file path x = inr gdf) ∧
    (run.1 ≠ plan → ∃ gdf, run.2 = inr gdf).

(** Every attempt of a plan fails. *)
Definition all_fail (read_file : string → option string → exn + GeoDataFrame)
    (path : string) (plan : list (option string)) : Prop :=
  ∀ x, x ∈ plan → ∃ e, read_file path x = inl e.

(** A reader that fails on everything, with a message of its own. *)
Definition failing_reader (_ : string) (_ : option string) : exn + GeoDataFrame :=
  inl (Exn "DataSourceError" "unreadable").

(** [repr] of a string without quotes, backslashes or control characters. *)
Definition simple_repr (s : string) : string := "'" +:+ s +:+ "'".

Section EncodingResolver.
Variables str_lower str_upper str_strip : string → string.
(** [repr] of a [str], used when a list is formatted in an f-string. *)
Variable repr : string → string.
(** [gpd.read_file(path, encoding=enc)]; [None] lets the driver decide. *)
Variable read_file : string → option string → exn + GeoDataFrame.
(** The text of the [.cpg] sidecar of a path, when the sidecar exists. *)
Variable read_cpg : string → option string.

(** [enc_map.get(raw, raw.lower())] with [raw = text.strip().upper()]. *)
Definition enc_hint_of (text : string) : string :=
  let raw := str_upper (str_strip text) in
  default (str_lower raw) (enc_map !! raw).

Definition cpg_hint (path : string) : option string :=
  enc_hint_of <$> read_cpg path.

(** The [for enc in trials] loop: the encodings handed to the reader, in
    order, and either the last error seen or the first collection read. *)
Fixpoint try_encodings (path : string) (trials : list string)
    (last_err : option exn) : list (option string) * (option exn + GeoDataFrame) :=
  match trials with
  | [] => ([], inl last_err)
  | enc :: trials' =>
      match read_file path (Some enc) with
      | inr gdf => ([Some enc], inr gdf)
      | inl e =>
          let '(tried, r) := try_encodings path trials' (Some e) in
          (Some enc :: tried, r)
      end
  end.

(** [read_shp_robust] of the batch path, with the reader calls it made. *)
Definition read_shp_robust (path : string)
    : list (option string) * (exn + GeoDataFrame) :=
  let enc_hint := cpg_hint path in
  let trials := [enc_hint; Some "utf-8"; Some "latin-1"; Some "cp1252"] in
  let '(tried, r) :=
    try_encodings path (omap id (filter (λ o, truthy o) trials)) None in
  match r with
  | inr gdf => (tried, inr gdf)
  | inl _ => (tried ++ [None], read_file path None)
  end.

(** f"{trials}" for a list of strings. *)
Definition repr_list (l : list string) : string :=
  "[" +:+ join_comma (repr <$> l) +:+ "]".

(** f"{last_err}" *)
Definition fmt_last_err (last_err : option exn) : string :=
  match last_err with
  | Some e => exn_msg e
  | None => "None"
  end.

Definition unreadable_msg (trials : list string) (last_err : option exn) : string :=
  "Impossible de lire le SHP (encodings testés: " +:+ repr_list trials
    +:+ "). Dernière erreur: " +:+ fmt_last_err last_err.

(** [_read_gdf_try_encodings] of the upload path. *)
Definition _read_gdf_try_encodings (path : string) (enc_hint : option string)
    : list (option string) * (exn + GeoDataFrame) :=
  let trials :=
    (if truthy enc_hint then option_list enc_hint else []) ++ fallback_encodings in
  let '(tried, r) := try_encodings path trials None in
  match r with
  | inr gdf => (tried, inr gdf)
  | inl last_err =>
      (tried ++ [None],
       match read_file path None with
       | inr gdf => inr gdf
       | inl e2 => inl (ExnFrom "RuntimeError" (unreadable_msg trials last_err) e2)
       end)
  end.
End EncodingResolver.

(** ** SQL statements *)

(** What the pipeline sends to the database, by kind.  [Begin], [Commit]
    and [Rollback] are what [engine.begin()] does around a block;
    [WriteTable] stands for the bulk write of [gdf.to_postgis];
    [CreateExtension] and [CreateHelperFunction] are the two statements of
    [ensure_postgis_and_helpers]. *)
Inductive stmt : Type :=
  | Begin | Commit | Rollback
  | CreateExtension
  | CreateHelperFunction
  | CreateSchema (schema : string)
  | WriteTable (schema table gcol gtype : string) (srid : option Z) (dimension : nat)
  | SelectColumns (schema table : string)
  | RenameGeometry (schema table : string)
  | CreateGistIndex (schema table : string)
  | AddIdColumn (schema table : string)
  | AddPrimaryKey (schema table : string)
  | CoerceMulti2D (schema table fam : string) (srid : option Z)
  | Analyze (schema table : string)
  | CreateGeojsonView (schema table view : string)
  | CreateReprojView (schema table view : string)
  | EnableRLS (schema table : string)
  | SelectPolicy (schema table policy : string)
  | CreatePolicy (schema table policy : string)
  | GrantSelect (schema view : string).

#[global] Instance stmt_eq_dec : EqDecision stmt.
Proof. solve_decision. Defined.

(** [str(x)] for a Boolean and for an optional integer. *)
Definition str_bool (b : bool) : string := if b then "True" else "False".
Definition str_opt_int (o : option Z) : string :=
  match o with Some n => pretty n | None => "None" end.

Definition dquote : string := String (ascii_of_nat 34) "".

(** A double-quoted identifier. *)
Definition qid (s : string) : string := dquote +:+ s +:+ dquote.

(** A schema-qualified, double-quoted table. *)
Definition qtable (schema table : string) : string :=
  qid schema +:+ "." +:+ qid table.

(** Statement text, for the statements the source writes out (layout of
    the multi-line literals collapsed; bound parameters written where they
    are bound; the upload path puts a space after GIST).  The PL/pgSQL body
    of the helper function is a literal of the source that no property reads:
    only its heading is kept. *)
Definition sql (s : stmt) : option string :=
  match s with
  | Begin | Commit | Rollback | WriteTable _ _ _ _ _ _ => None
  | CreateExtension => Some "CREATE EXTENSION IF NOT EXISTS postgis"
  | CreateHelperFunction => Some (
      "CREATE OR REPLACE FUNCTION public.create_geojson_view("
        +:+ "p_schema text, p_table text, p_view text DEFAULT NULL"
        +:+ ") RETURNS void LANGUAGE plpgsql")
  | CreateSchema schema => Some ("CREATE SCHEMA IF NOT EXISTS " +:+ schema)
  | SelectColumns schema table => Some (
      "SELECT column_name FROM information_schema.columns WHERE table_schema="
        +:+ schema +:+ " AND table_name=" +:+ table)
  | RenameGeometry schema table => Some (
      "ALTER TABLE " +:+ qtable schema table +:+ " RENAME COLUMN "
        +:+ qid "geometry" +:+ " TO " +:+ qid "geom")
  | CreateGistIndex schema table => Some (
      "CREATE INDEX IF NOT EXISTS " +:+ qid (table +:+ "_geom_gix") +:+ " ON "
        +:+ qtable schema table +:+ " USING GIST(" +:+ qid "geom" +:+ ")")
  | AddIdColumn schema table => Some (
      "ALTER TABLE " +:+ qtable schema table +:+ " ADD COLUMN IF NOT EXISTS id bigserial")
  | AddPrimaryKey schema table => Some (
      "ALTER TABLE " +:+ qtable schema table +:+ " ADD CONSTRAINT "
        +:+ qid (table +:+ "_pkey") +:+ " PRIMARY KEY (id)")
  | CoerceMulti2D schema table fam srid => Some (
      "ALTER TABLE " +:+ qtable schema table +:+ " ALTER COLUMN " +:+ qid "geom"
        +:+ " TYPE geometry(" +:+ fam +:+ "," +:+ str_opt_int srid
        +:+ ") USING ST_Multi(ST_Force2D(" +:+ qid "geom" +:+ "))")
  | Analyze schema table => Some ("ANALYZE " +:+ qtable schema table)
  | CreateGeojsonView schema table view => Some (
      "SELECT public.create_geojson_view(" +:+ schema +:+ "," +:+ table +:+ ","
        +:+ view +:+ ")")
  | CreateReprojView schema table view => Some (
      "CREATE OR REPLACE VIEW " +:+ qtable schema view
        +:+ " AS SELECT *, ST_Transform(geom, 4326) AS geom_4326 FROM "
        +:+ qtable schema table +:+ ";")
  | EnableRLS schema table => Some (
      "ALTER TABLE " +:+ qtable schema table +:+ " ENABLE ROW LEVEL SECURITY")
  | SelectPolicy schema table policy => Some (
      "SELECT 1 FROM pg_policies WHERE schemaname = " +:+ schema
        +:+ " AND tablename = " +:+ table +:+ " AND policyname = " +:+ policy)
  | CreatePolicy schema table policy => Some (
      "CREATE POLICY " +:+ qid policy +:+ " ON " +:+ qtable schema table
        +:+ " FOR SELECT TO anon USING (true)")
  | GrantSelect schema view => Some (
      "GRANT SELECT ON " +:+ qtable schema view +:+ " TO anon")
  end.

(** ** Configuration constants of the batch path *)

Definition PG_SCHEMA : string := "public".
Definition IF_EXISTS : string := "replace".
Definition CHUNKSIZE : nat := 5000.
Definition CREATE_GEOJSON_VIEW : bool := false.
Definition CREATE_REPROJECTED_VIEW_4326 : bool := false.
Definition APPLY_RLS_AND_GRANT : bool := true.

(** ** Logging *)

Inductive level := INFO | WARNING | ERROR.

(** Python truthiness of an optional integer: [None] and [0] are falsy. *)
Definition truthy_int (o : option Z) : bool :=
  match o with
  | Some n => bool_decide (n ≠ 0%Z)
  | None => false
  end.

(** An entry of the batch error report: [{"file": shp, "error": str(e)}]. *)
Record error_record := mkError { file : string; error : string }.

(** ** The effect monad: database, statements sent, log, files written *)

Section Pipeline.
Context {DB : Type}.
(** [conn.execute]: the database after the statement, and its rows or the
    exception it raised. *)
Variable execute : stmt → DB → DB * (exn + list string).
Variable str_upper : string → string.

Record world := mkWorld {
  w_db : DB;
  w_trace : list stmt;
  w_log : list (level * string);
  w_written : list (string * string)
}.

Definition M (A : Type) : Type := world → world * (exn + A).

Definition ret {A} (a : A) : M A := λ w, (w, inr a).
Definition raise {A} (e : exn) : M A := λ w, (w, inl e).
Definition bind {A B} (m : M A) (k : A → M B) : M B := λ w,
  match m w with
  | (w', inr a) => k a w'
  | (w', inl e) => (w', inl e)
  end.
(** [try: m except Exception as e: h e] *)
Definition try_except {A} (m : M A) (h : exn → M A) : M A := λ w,
  match m w with
  | (w', inl e) => h e w'
  | r => r
  end.

Notation "x ⇐ m ;; k" := (bind m (λ x, k))
  (at level 100, m at next level, k at level 200, right associativity).
Notation "m ;;; k" := (bind m (λ _, k))
  (at level 100, k at level 200, right associativity).

Definition exec (s : stmt) : M (list string) := λ w,
  let '(db', r) := execute s (w_db w) in
  (mkWorld db' (w_trace w ++ [s]) (w_log w) (w_written w), r).

Definition logging (lv : level) (msg : string) : M unit := λ w,
  (mkWorld (w_db w) (w_trace w) (w_log w ++ [(lv, msg)]) (w_written w), inr ()).

(** [with engine.begin() as conn: body]: commit on normal exit, roll back
    and re-raise on an exception. *)
Definition with_begin {A} (body : M A) : M A :=
  exec Begin;;;
  try_except (a ⇐ body;; exec Commit;;; ret a)
             (λ e, exec Rollback;;; raise e).

(** *** Batch path: [to_postgis] *)

(** The second [with engine.begin()] block of [to_postgis]. *)
Definition to_postgis_post_load (schema table : string) : M unit :=
  cols ⇐ exec (SelectColumns schema table);;
  let colnames : gset string := list_to_set cols in
  (if bool_decide ("geometry" ∈ colnames) && bool_decide ("geom" ∉ colnames)
   then exec (RenameGeometry schema table) else ret []);;;
  exec (CreateGistIndex schema table);;;
  exec (AddIdColumn schema table);;;
  try_except (exec (AddPrimaryKey schema table)) (λ _, ret []);;;
  exec (Analyze schema table);;;
  ret ().

Definition to_postgis (gdf : GeoDataFrame) (table schema : string)
    (srid : option Z) (z : bool) : M unit :=
  let '(gtype, mixed) := geom_type_for_column str_upper gdf z in
  let dimension := if z then 3 else 2 in
  logging INFO ("-> table=" +:+ schema +:+ "." +:+ table +:+ "  geom=" +:+ gtype
                +:+ "  srid=" +:+ str_opt_int srid +:+ "  mixed=" +:+ str_bool mixed);;;
  with_begin (exec (CreateSchema schema));;;
  let gcol := if bool_decide ("geom" ∈ columns gdf) then "geom" else "geometry" in
  exec (WriteTable schema table gcol gtype srid dimension);;;
  with_begin (to_postgis_post_load schema table).

(** *** Upload path: the post-load block of [upload_shapefile_zip] *)

Definition multi_families : list string :=
  ["MULTIPOLYGON"; "MULTILINESTRING"; "MULTIPOINT"].

(** [srid and fam in ("MULTIPOLYGON", "MULTILINESTRING", "MULTIPOINT")] *)
Definition coerce_guard (srid : option Z) (fam : string) : bool :=
  truthy_int srid && bool_decide (fam ∈ multi_families).

Definition upload_post_load (schema table_name : string)
    (srid : option Z) (fam : string) : M unit :=
  with_begin (
    exec (AddIdColumn schema table_name);;;
    try_except (exec (AddPrimaryKey schema table_name)) (λ _, ret []);;;
    (if coerce_guard srid fam
     then exec (CoerceMulti2D schema table_name fam srid) else ret []);;;
    exec (CreateGistIndex schema table_name);;;
    exec (Analyze schema table_name);;;
    ret ()).

(** *** Database set-up: [ensure_postgis_and_helpers] *)

Definition ensure_postgis_and_helpers : M unit :=
  with_begin (
    exec CreateExtension;;;
    exec CreateHelperFunction;;;
    ret ()).

(** *** Access and view publication *)

Definition policy_name (table : string) : string := "read_" +:+ table +:+ "_anon".

Definition create_views_and_policies (schema table : string) : M unit :=
  let view_geojson := "v_" +:+ table in
  with_begin (
    (if CREATE_GEOJSON_VIEW
     then exec (CreateGeojsonView schema table view_geojson) else ret []);;;
    (if CREATE_REPROJECTED_VIEW_4326
     then exec (CreateReprojView schema table ("v_" +:+ table +:+ "_4326")) else ret []);;;
    if APPLY_RLS_AND_GRANT then
      exec (EnableRLS schema table);;;
      let policy := policy_name table in
      rows ⇐ exec (SelectPolicy schema table policy);;
      (* [.first()] is the first row or [None] *)
      let exists_ := head rows in
      (if bool_decide (exists_ = None)
       then exec (CreatePolicy schema table policy) else ret []);;;
      (if CREATE_GEOJSON_VIEW
       then exec (GrantSelect schema view_geojson) else ret []);;;
      ret ()
    else ret ()).

(** *** Batch orchestration: the loop of [main] and its report *)

(** The body of the [try] for one file (read, sanitize, write, publish):
    what it does to the database, what it logs, and how it ends. *)
Variable ingest_one : string → DB → DB * list (level * string) * (exn + unit).
(** [json.dumps(errors, ensure_ascii=False, indent=2)] *)
Variable json_dumps : list error_record → string.
(** [Path(path).write_text(content)] on the file system: it returns, or it
    raises, leaving at [path] what reached the file before the error (the
    empty text when the file was opened and the content could not be
    encoded, nothing when the file could not be opened). *)
Variable write_file : string → string → (exn * option string) + unit.

(** [Path(path).write_text(content)]: [w_written] lists what the run has
    left in files, in order. *)
Definition write_text (path content : string) : M unit := λ w,
  match write_file path content with
  | inr _ =>
      (mkWorld (w_db w) (w_trace w) (w_log w) (w_written w ++ [(path, content)]), inr ())
  | inl (e, left_in_file) =>
      (mkWorld (w_db w) (w_trace w) (w_log w)
         (w_written w ++ from_option (λ part, [(path, part)]) [] left_in_file),
       inl e)
  end.

Definition run_ingest (shp : string) : M unit := λ w,
  let '(db', logs, r) := ingest_one shp (w_db w) in
  (mkWorld db' (w_trace w) (w_log w ++ logs) (w_written w), r).

Fixpoint ingest_loop (files : list string) (errors : list error_record)
    : M (list error_record) :=
  match files with
  | [] => ret errors
  | shp :: files' =>
      errors' ⇐ try_except
        (run_ingest shp;;; ret errors)
        (λ e, logging ERROR ("ERREUR " +:+ shp +:+ ": " +:+ exn_msg e);;;
              ret (errors ++ [mkError shp (exn_msg e)]));;
      ingest_loop files' errors'
  end.

(** [main] from [errors = []] to the end, over the listed files.  The
    report is written outside any [try]: an error of the write leaves
    [main]. *)
Definition ingest_all (files : list string) : M (list error_record) :=
  errors ⇐ ingest_loop files [];;
  (if bool_decide (errors ≠ [])
   then
     let out := "ingest_shp_errors.json" in
     write_text out (json_dumps errors);;;
     logging WARNING (pretty (length errors) +:+ " erreur(s) – détails: " +:+ out)
   else ret ());;;
  logging INFO "Terminé.";;;
  ret errors.
End Pipeline.

(** ** Outcomes of a batch, file by file

    What the per-file body does when run on the files in order, each on the
    database the previous one left: the outcome per file, the database at
    the end, and the report entries of the files that raised. *)
Fixpoint outcomes {DB : Type}
    (ingest_one : string → DB → DB * list (level * string) * (exn + unit))
    (files : list string) (db : DB) : list (string * (exn + unit)) :=
  match files with
  | [] => []
  | shp :: files' =>
      let '(db', _, r) := ingest_one shp db in
      (shp, r) :: outcomes ingest_one files' db'
  end.

Fixpoint db_after {DB : Type}
    (ingest_one : string → DB → DB * list (level * string) * (exn + unit))
    (files : list string) (db : DB) : DB :=
  match files with
  | [] => db
  | shp :: files' => db_after ingest_one files' (ingest_one shp db).1.1
  end.

Definition failure_record (o : string * (exn + unit)) : option error_record :=
  match o.2 with
  | inl e => Some (mkError o.1 (exn_msg e))
  | inr _ => None
  end.

Definition failures (os : list (string * (exn + unit))) : list error_record :=
  omap failure_record os.

(** A file system on which every write succeeds. *)
Definition writable (_ _ : string) : (exn * option string) + unit := inr ().

(** A file system whose text encoding is strict UTF-8: the file is opened,
    and a content holding the byte 255, which no UTF-8 text holds, cannot
    be encoded; the file is left empty.  A file name that is not valid
    UTF-8 reaches Python surrogate-escaped and is such a content. *)
Definition strict_utf8 (_ content : string) : (exn * option string) + unit :=
  if bool_decide (ascii_of_nat 255 ∈ chars content)
  then inl (Exn "UnicodeEncodeError" "'utf-8' codec can't encode character: surrogates not allowed",
            Some "")
  else inr ().

(** A shapefile whose name holds the byte 255. *)
Definition escaped_name : string := "bad" +:+ String (ascii_of_nat 255) ".shp".

(** A stand-in for [json.dumps]: the file names, then the messages. *)
Definition sample_dumps (es : list error_record) : string :=
  join_comma (file <$> es) +:+ "; " +:+ join_comma (error <$> es).

(** A per-file body that raises on the paths containing "bad". *)
Definition flaky_ingest (shp : string) (db : nat)
    : nat * list (level * string) * (exn + unit) :=
  (S db, [(INFO, "=== " +:+ shp)],
   if str_contains shp "bad" then inl (Exn "DataSourceError" ("cannot read " +:+ shp))
   else inr ()).

(** ** A catalogue model of the database for the policy step

    The part of PostgreSQL that [create_views_and_policies] reads and
    writes: which tables exist, which have row-level security enabled, and
    the policies by (schema, table, name).  [CREATE POLICY] on an existing
    name is an error, as is any [ALTER TABLE] on a missing table. *)
Record catalog := mkCatalog {
  cat_tables : gset (string * string);
  cat_rls : gset (string * string);
  cat_policies : gset (string * string * string)
}.

(** The catalogue, and the snapshot taken at [BEGIN] for a rollback. *)
Record PG := mkPG { pg_cur : catalog; pg_saved : option catalog }.

Definition pg_execute (s : stmt) (pg : PG) : PG * (exn + list string) :=
  let cat := pg_cur pg in
  match s with
  | Begin => (mkPG cat (Some cat), inr [])
  | Commit => (mkPG cat None, inr [])
  | Rollback => (mkPG (default cat (pg_saved pg)) None, inr [])
  | EnableRLS schema table =>
      if bool_decide ((schema, table) ∈ cat_tables cat)
      then (mkPG (mkCatalog (cat_tables cat) ({[(schema, table)]} ∪ cat_rls cat)
                            (cat_policies cat)) (pg_saved pg), inr [])
      else (pg, inl (Exn "ProgrammingError" "relation does not exist"))
  | SelectPolicy schema table policy =>
      (pg, inr (if bool_decide ((schema, table, policy) ∈ cat_policies cat)
                then ["1"] else []))
  | CreatePolicy schema table policy =>
      if bool_decide ((schema, table) ∈ cat_tables cat)
      then
        if bool_decide ((schema, table, policy) ∈ cat_policies cat)
        then (pg, inl (Exn "ProgrammingError" "policy already exists"))
        else (mkPG (mkCatalog (cat_tables cat) (cat_rls cat)
                              ({[(schema, table, policy)]} ∪ cat_policies cat))
                   (pg_saved pg), inr [])
      else (pg, inl (Exn "ProgrammingError" "relation does not exist"))
  | _ => (pg, inr [])
  end.

(** ** A transactional model of the database for the finalizers

    PostgreSQL inside a transaction block: once a statement of the block has
    failed, every later statement fails with "current transaction is
    aborted" until the block ends.  The state is whether the open block is
    aborted.  On [pk_conflict_db] the primary-key declaration is what fails,
    as it does when the table already has a primary key or when the layer
    brought an [id] column of its own with a repeated value (the
    [ADD COLUMN IF NOT EXISTS id] before it then does nothing); every other
    statement succeeds in a block that is not aborted. *)
Definition in_failed_transaction : exn :=
  Exn "InFailedSqlTransaction"
    "current transaction is aborted, commands ignored until end of transaction block".

Definition pk_conflict_db (s : stmt) (aborted : bool) : bool * (exn + list string) :=
  match s with
  | Begin | Commit | Rollback => (false, inr [])
  | AddPrimaryKey _ _ =>
      if aborted then (true, inl in_failed_transaction)
      else (true, inl (Exn "ProgrammingError"
                         "multiple primary keys for table are not allowed"))
  | _ => if aborted then (true, inl in_failed_transaction) else (false, inr [])
  end.

(** The statements that declare a primary key. *)
Definition is_add_pk (s : stmt) : bool :=
  match s with AddPrimaryKey _ _ => true | _ => false end.

(** An exception a run ends with was raised by a statement of the run
    other than a primary-key declaration. *)
Definition raised_outside_pk {DB : Type}
    (execute : stmt → DB → DB * (exn + list string))
    (run : world (DB:=DB) * (exn + unit)) : Prop :=
  ∀ e, run.2 = inl e →
    ∃ s d d', s ∈ w_trace run.1 ∧ is_add_pk s = false ∧ execute s d = (d', inl e).

(** The statements that rewrite the geometry column. *)
Definition is_coercion (s : stmt) : bool :=
  match s with CoerceMulti2D _ _ _ _ => true | _ => false end.

(** The statements of a trace that create a policy. *)
Definition is_create_policy (s : stmt) : bool :=
  match s with CreatePolicy _ _ _ => true | _ => false end.

(** A catalogue with one table and no policy yet. *)
Definition fresh_pg : PG :=
  mkPG (mkCatalog {[("public", "zones")]} ∅ ∅) None.

Definition init_world {DB : Type} (db : DB) : world (DB:=DB) := mkWorld db [] [] [].

(** ** Further vocabulary for the normalizer *)

(** A letter or a digit of the class [[a-z0-9_]]. *)
Definition is_alnum (c : ascii) : bool := is_lower_az c || is_digit c.

(** A name in the form [slugify] leaves alone: characters of the class, at
    most 63 of them, no doubled underscore, no underscore at either end. *)
Definition normal_name (s : string) : Prop :=
  re_match_ident s = true ∧ has_double_underscore s = false ∧
  head (chars s) ≠ Some "_"%char ∧ last (chars s) ≠ Some "_"%char.

(** A 63-character column label. *)
Definition long_label : string :=
  "aaaaaaaaaaaaaaaaaaaaaaaaaaaaaaaaaaaaaaaaaaaaaaaaaaaaaaaaaaaaaaa".

(** ** Upload path: the default table name *)

Definition is_upper_AZ (c : ascii) : bool :=
  let n := nat_of_ascii c in (65 <=? n) && (n <=? 90).

(** The class [[A-Za-z0-9_]] of the upload path's regular expression. *)
Definition word_char (c : ascii) : bool := is_upper_AZ c || ident_char c.

(** [re.sub(r"[^A-Za-z0-9_]+", "_", base.lower())] *)
Definition default_table_name (str_lower : string → string) (base : string) : string :=
  str (re_sub_runs (λ c, negb (word_char c)) "_"%char (chars (str_lower base))).

(** [if not table_name: table_name = ...] on the stem of the chosen file. *)
Definition upload_table_name (str_lower : string → string)
    (table_name : option string) (stem : string) : string :=
  match table_name with
  | Some t => if bool_decide (t ≠ "") then t else default_table_name str_lower stem
  | None => default_table_name str_lower stem
  end.

(** ** Batch path: what is read of a layer, and the body run per file *)

(** [for geom in gdf.geometry]: a missing geometry is [None]; reading
    [has_z] returns a Boolean or raises. *)
Fixpoint has_z_loop (geoms : list (option (exn + bool))) : bool :=
  match geoms with
  | [] => false
  | None :: geoms' => has_z_loop geoms'
  | Some (inl _) :: geoms' => has_z_loop geoms'
  | Some (inr b) :: geoms' => if b then true else has_z_loop geoms'
  end.

(** [gdf.empty]: no row or no column. *)
Definition gdf_empty (gdf : GeoDataFrame) : bool :=
  bool_decide (geom_type gdf = []) || bool_decide (columns gdf = []).

(** [gdf.rename(columns={old: new})] *)
Definition rename_column (old new : string) (gdf : GeoDataFrame) : GeoDataFrame :=
  set_axis gdf ((λ c, if decide (c = old) then new else c) <$> columns gdf).

(** A result or an exception, as a computation. *)
Definition lift {DB A : Type} (r : exn + A) : M (DB:=DB) A := λ w, (w, r).

(** The statement concerns this table (or view) of this schema, or none. *)
Definition stmt_target (s : stmt) : option (string * string) :=
  match s with
  | Begin | Commit | Rollback | CreateExtension | CreateHelperFunction
  | CreateSchema _ => None
  | WriteTable schema table _ _ _ _
  | SelectColumns schema table | RenameGeometry schema table
  | CreateGistIndex schema table | AddIdColumn schema table
  | AddPrimaryKey schema table | CoerceMulti2D schema table _ _
  | Analyze schema table | CreateGeojsonView schema table _
  | CreateReprojView schema table _ | EnableRLS schema table
  | SelectPolicy schema table _ | CreatePolicy schema table _ =>
      Some (schema, table)
  | GrantSelect schema view => Some (schema, view)
  end.

Section IngestFile.
Context {DB : Type}.
Variable execute : stmt → DB → DB * (exn + list string).
Variables str_lower str_upper str_strip : string → string.
Variable read_file : string → option string → exn + GeoDataFrame.
Variable read_cpg : string → option string.
(** [gdf.crs]: [None] when absent, else what [gdf.crs.to_epsg()] does. *)
Variable crs_epsg : GeoDataFrame → option (exn + option Z).
(** [gdf.geometry], one entry per row. *)
Variable geoms_has_z : GeoDataFrame → list (option (exn + bool)).
(** [gdf.set_geometry(col)] *)
Variable set_geometry : GeoDataFrame → string → exn + GeoDataFrame.
(** [Path(os.path.relpath(shp, root)).with_suffix("").as_posix()] *)
Variable rel_stem : string → string → string.

Notation "x ⇐ m ;; k" := (bind m (λ x, k))
  (at level 100, m at next level, k at level 200, right associativity).
Notation "m ;;; k" := (bind m (λ _, k))
  (at level 100, k at level 200, right associativity).

Definition detect_srid (gdf : GeoDataFrame) : option Z :=
  match crs_epsg gdf with
  | None => None
  | Some (inl _) => None
  | Some (inr epsg) => if truthy_int epsg then epsg else None
  end.

Definition has_z_any (gdf : GeoDataFrame) : bool := has_z_loop (geoms_has_z gdf).

Definition table_name_from_path (root shp : string) : string :=
  slugify str_lower (rel_stem root shp).

(** [gdf = sanitize_columns(gdf)] and then, if a column is named
    "geometry", [gdf = gdf.rename(columns={"geometry": "geom"})].  The
    renaming loop always returns (see [sanitize_loop_spec]). *)
Definition prepare_columns (gdf : GeoDataFrame) : GeoDataFrame :=
  let gdf := default gdf (sanitize_columns str_lower gdf) in
  if bool_decide ("geometry" ∈ columns gdf)
  then rename_column "geometry" "geom" gdf else gdf.

(** The body of the [try] in [main] for one file. *)
Definition ingest_file (root shp : string) : M (DB:=DB) unit :=
  logging INFO ("=== " +:+ shp);;;
  gdf ⇐ lift (read_shp_robust str_lower str_upper str_strip read_file read_cpg shp).2;;
  if gdf_empty gdf then logging WARNING "  -> vide, on saute."
  else
    let srid := detect_srid gdf in
    (if bool_decide (srid = None)
     then logging WARNING
            "  -> CRS inconnu (.prj manquant ?), stockage sans SRID explicite."
     else ret ());;;
    let gdf := prepare_columns gdf in
    gdf ⇐ (if bool_decide ("geom" ∈ columns gdf)
           then lift (set_geometry gdf "geom") else ret gdf);;
    let z := has_z_any gdf in
    let table := table_name_from_path root shp in
    to_postgis execute str_upper gdf table PG_SCHEMA srid z;;;
    create_views_and_policies execute PG_SCHEMA table.
End IngestFile.

(** ** What a computation sends *)

(** Whatever the world it starts in, the computation only adds statements
    to the trace, and each statement it adds satisfies [P]. *)
Definition emits_only {DB A : Type} (P : stmt → Prop) (m : M (DB:=DB) A) : Prop :=
  ∀ w, ∃ new, w_trace (m w).1 = w_trace w ++ new ∧ Forall P new.

(** The statement is about the given table, or about no table. *)
Definition on_table (schema table : string) (s : stmt) : Prop :=
  stmt_target s = None ∨ stmt_target s = Some (schema, table).

(** The two statements of the database set-up. *)
Definition is_setup (s : stmt) : bool :=
  match s with CreateExtension | CreateHelperFunction => true | _ => false end.

(** The statements that write rows. *)
Definition is_write (s : stmt) : bool :=
  match s with WriteTable _ _ _ _ _ _ => true | _ => false end.

(** The SRID a write statement declares. *)
Definition write_srid (s : stmt) : option Z :=
  match s with WriteTable _ _ _ _ srid _ => srid | _ => None end.

(** ** Upload path: one zipped shapefile *)

(** What the extracted archive shows: the member names of the zip, and the
    files found under the temporary directory by [rglob("*.shp")] and by
    [rglob("*.SHP")]. *)
Record Extracted := mkExtracted {
  namelist : list string;
  rglob_shp : list string;
  rglob_SHP : list string
}.

(** [max(x :: l, key=key)]: the first element whose key is the largest. *)
Fixpoint max_by (key : string → N) (x : string) (l : list string) : string :=
  match l with
  | [] => x
  | y :: l' => max_by key (if (key x <? key y)%N then y else x) l'
  end.

(** The dictionary [upload_shapefile_zip] returns. *)
Record upload_info := mkInfo {
  info_schema : string;
  info_table : string;
  info_rows : nat;
  info_geom_type : string;
  info_srid : option Z
}.

(** [x or d] on strings. *)
Definition str_or (x d : string) : string := if bool_decide (x ≠ "") then x else d.

Section Upload.
Context {DB : Type}.
Variable execute : stmt → DB → DB * (exn + list string).
Variables str_lower str_upper str_strip : string → string.
Variable repr : string → string.
Variable read_file : string → option string → exn + GeoDataFrame.
Variable read_cpg : string → option string.
(** [gdf.crs]: [None] when absent, else what [gdf.crs.to_epsg()] does. *)
Variable crs_epsg : GeoDataFrame → option (exn + option Z).
(** [gdf.set_crs(epsg=n, inplace=True)] *)
Variable set_crs : GeoDataFrame → Z → exn + GeoDataFrame.
(** [gdf.geometry.name] *)
Variable geometry_name : GeoDataFrame → exn + string.
(** [gdf.set_geometry(col)] *)
Variable set_geometry : GeoDataFrame → string → exn + GeoDataFrame.
(** [p.stat().st_size] and [p.stem] of an extracted file. *)
Variable st_size : string → N.
Variable stem : string → string.
(** The dimension of a [Geometry] column type built without one: the
    upload path passes none. *)
Variable default_dimension : nat.

Notation "x ⇐ m ;; k" := (bind m (λ x, k))
  (at level 100, m at next level, k at level 200, right associativity).
Notation "m ;;; k" := (bind m (λ _, k))
  (at level 100, k at level 200, right associativity).

(** [for name in z.namelist(): logging.warning(f" - {name}")] *)
Fixpoint log_names (names : list string) : M (DB:=DB) unit :=
  match names with
  | [] => ret ()
  | name :: names' => logging WARNING (" - " +:+ name);;; log_names names'
  end.

(** The SRID of the layer: the EPSG code of its CRS, else the caller's
    default when one is given, which is then also set on the layer. *)
Definition upload_srid (gdf : GeoDataFrame) (default_epsg : option Z)
    : M (DB:=DB) (GeoDataFrame * option Z) :=
  srid ⇐ lift (match crs_epsg gdf with Some r => r | None => inr None end);;
  match srid, default_epsg with
  | None, Some n =>
      if truthy_int default_epsg
      then gdf' ⇐ lift (set_crs gdf n);; ret (gdf', Some n)
      else ret (gdf, srid)
  | _, _ => ret (gdf, srid)
  end.

(** The geometry column is renamed to "geom" unless it has that name. *)
Definition upload_geom_column (gdf : GeoDataFrame) : M (DB:=DB) GeoDataFrame :=
  gcol ⇐ lift (geometry_name gdf);;
  if bool_decide (gcol ≠ "geom")
  then lift (set_geometry (rename_column gcol "geom" gdf) "geom")
  else ret gdf.

(** The type declared for the geometry column at the write. *)
Definition upload_declared_type (srid : option Z) (fam : string) : string :=
  if truthy_int srid then fam else "GEOMETRY".

(** [shp_files] is the two searches one after the other; the file read
    is the largest, [None] when there is none. *)
Definition pick_shp (z : Extracted) : option string :=
  match rglob_shp z ++ rglob_SHP z with
  | [] => None
  | p :: ps => Some (max_by st_size p ps)
  end.

(** The layer as it is written, and its SRID: the file read with the
    resolver, the SRID settled, the geometry column named "geom". *)
Definition upload_prepare (shp : string) (default_epsg : option Z)
    : M (DB:=DB) (GeoDataFrame * option Z) :=
  let enc_hint := cpg_hint str_lower str_upper str_strip read_cpg shp in
  gdf ⇐ lift (_read_gdf_try_encodings repr read_file shp enc_hint).2;;
  gs ⇐ upload_srid gdf default_epsg;;
  gdf ⇐ upload_geom_column gs.1;;
  ret (gdf, gs.2).

(** [upload_shapefile_zip] from the chosen file on: the name of the
    table, the layer and its SRID, the write and the finalizer, and the
    dictionary returned. *)
Definition upload_layer (shp schema : string) (table_name : option string)
    (default_epsg : option Z) : M (DB:=DB) upload_info :=
  let table_name := upload_table_name str_lower table_name (stem shp) in
  layer ⇐ upload_prepare shp default_epsg;;
  let gdf := layer.1 in
  let srid := layer.2 in
  let fam := _geom_family str_upper gdf in
  exec execute (WriteTable schema table_name "geom"
                  (upload_declared_type srid fam) srid default_dimension);;;
  upload_post_load execute schema table_name srid fam;;;
  ret (mkInfo schema table_name (length (geom_type gdf)) fam srid).

Definition upload_shapefile_zip (archive : exn + Extracted) (schema : string)
    (table_name : option string) (default_epsg : option Z) : M (DB:=DB) upload_info :=
  z ⇐ lift archive;;
  logging WARNING "📦 Contenu du zip:";;;
  log_names (namelist z);;;
  match pick_shp z with
  | None => raise (Exn "RuntimeError" "Shapefile (.shp) introuvable dans le .zip")
  | Some shp => upload_layer shp schema table_name default_epsg
  end.

(** The call made by the upload page: an empty schema field means
    "public", an empty name field means no name, and no default EPSG code
    is passed. *)
Definition app_upload (archive : exn + Extracted) (default_schema default_name : string)
    : M (DB:=DB) upload_info :=
  upload_shapefile_zip archive (str_or default_schema "public")
    (if bool_decide (default_name ≠ "") then Some default_name else None) None.
End Upload.

(** A sample upload: an archive holding a shapefile and an older, smaller
    copy of it; a layer of polygons in Lambert-93 whose geometry column is
    named "geometry"; a database that accepts every statement. *)
Definition sample_archive : Extracted :=
  mkExtracted ["zones.shp"; "zones.dbf"; "old/ZONES.SHP"] ["zones.shp"] ["old/ZONES.SHP"].

Definition sample_size (p : string) : N := if bool_decide (p = "zones.shp") then 2048 else 512.

Definition sample_stem (p : string) : string :=
  if bool_decide (p = "zones.shp") then "zones" else "ZONES".

Definition sample_layer : GeoDataFrame :=
  {| columns := ["NAME"; "geometry"]; geom_type := [Some "Polygon"; Some "MultiPolygon"] |}.

Definition accept_all (s : stmt) (d : unit) : unit * (exn + list string) := (d, inr []).

Definition sample_upload (table_name : option string) (default_epsg : option Z)
    : world (DB:=unit) * (exn + upload_info) :=
  upload_shapefile_zip accept_all ascii_lower ascii_upper id simple_repr
    (λ _ _, inr sample_layer) (λ _, None)
    (λ _, Some (inr (Some 2154%Z))) (λ gdf _, inr gdf)
    (λ _, inr "geometry") (λ gdf _, inr gdf)
    sample_size sample_stem 2 (inr sample_archive) "public" table_name default_epsg
    (init_world ()).

(** ** Connection settings *)

(** The URL the engine is created with (driver [postgresql+psycopg]). *)
Record engine_url := mkUrl {
  url_username : string;
  url_password : string;
  url_host : string;
  url_port : Z;
  url_database : string;
  url_query : list (string * string)
}.

Section Engine.
(** The environment once [.env] is loaded. *)
Variable env : gmap string string.
(** [int(s)] *)
Variable parse_int : string → exn + Z.
Variable str_strip : string → string.

(** [os.getenv(k, d)] *)
Definition getenv (k d : string) : string := default d (env !! k).

(** [mk_engine_from_env] of the batch script. *)
Definition mk_engine_from_env : exn + engine_url :=
  let host := env !! "SUPABASE_HOST" in
  match parse_int (getenv "SUPABASE_PORT" "6543") with
  | inl e => inl e
  | inr port =>
      let db := getenv "SUPABASE_DB" "postgres" in
      let user := getenv "SUPABASE_USER" "postgres" in
      let pwd := env !! "SUPABASE_PASSWORD" in
      if negb (truthy host && truthy pwd)
      then inl (Exn "RuntimeError"
                  "Variables .env manquantes (SUPABASE_HOST / SUPABASE_PASSWORD).")
      else inr (mkUrl user (default "" pwd) (default "" host) port db
                  [("sslmode", "require")])
  end.

(** [get_engine] of the upload page. *)
Definition get_engine : exn + engine_url :=
  let host := str_strip (getenv "SUPABASE_HOST" "") in
  match parse_int (getenv "SUPABASE_PORT" "5432") with
  | inl e => inl e
  | inr port =>
      let db := str_strip (getenv "SUPABASE_DB" "postgres") in
      let user := str_strip (getenv "SUPABASE_USER" "") in
      let pwd := str_strip (getenv "SUPABASE_PASSWORD" "") in
      if bool_decide (host = "")
      then inl (Exn "RuntimeError"
                  "SUPABASE_HOST manquant (vérifie le chargement de .env).")
      else if str_contains host "://"
      then inl (Exn "RuntimeError"
                  "SUPABASE_HOST ne doit PAS contenir 'postgres://...' — mets juste le hostname.")
      else if str_contains host ":"
      then inl (Exn "RuntimeError"
                  "Ne mets pas le port dans SUPABASE_HOST. Utilise SUPABASE_PORT séparément.")
      else inr (mkUrl user pwd host port db
                  [("sslmode", "require"); ("connect_timeout", "10")])
  end.
End Engine.

(** ** The batch as a whole: [main] *)

(** A statement as the run on one file sends them: about the table named
    after the file, in schema [public], or a transaction or schema
    statement; not a statement of the database set-up, and not a write that
    declares SRID 0. *)
Definition sent_for (str_lower : string → string) (rel_stem : string → string → string)
    (root shp : string) (s : stmt) : Prop :=
  on_table "public" (slugify str_lower (rel_stem root shp)) s ∧
  is_setup s = false ∧
  (is_write s = true → write_srid s ≠ Some 0%Z).

Section Main.
Context {DB : Type}.
Variable execute : stmt → DB → DB * (exn + list string).
Variables str_lower str_upper str_strip : string → string.
Variable read_file : string → option string → exn + GeoDataFrame.
Variable read_cpg : string → option string.
Variable crs_epsg : GeoDataFrame → option (exn + option Z).
Variable geoms_has_z : GeoDataFrame → list (option (exn + bool)).
Variable set_geometry : GeoDataFrame → string → exn + GeoDataFrame.
Variable rel_stem : string → string → string.
Variable json_dumps : list error_record → string.
Variable write_file : string → string → (exn * option string) + unit.
(** [p.name], the last component of a path. *)
Variable path_name : string → string.
(** [int(s)], for the port. *)
Variable parse_int : string → exn + Z.

Notation "x ⇐ m ;; k" := (bind m (λ x, k))
  (at level 100, m at next level, k at level 200, right associativity).
Notation "m ;;; k" := (bind m (λ _, k))
  (at level 100, k at level 200, right associativity).

(** [list_shp_files] over what [Path(root).rglob("*.shp")] finds. *)
Definition list_shp_files (found : list string) : list string :=
  filter (λ p, starts_with (chars "._") (chars (path_name p)) = false) found.

(** The body of the [try] as the loop runs it, on the database together
    with the statements it has received so far. *)
Definition ingest_body (root shp : string) (d : DB * list stmt)
    : (DB * list stmt) * list (level * string) * (exn + unit) :=
  let r := ingest_file execute str_lower str_upper str_strip read_file read_cpg
             crs_epsg geoms_has_z set_geometry rel_stem root shp
             (mkWorld d.1 d.2 [] []) in
  ((w_db r.1, w_trace r.1), w_log r.1, r.2).

(** [ensure_postgis_and_helpers(engine)] as [main] runs it, on the same
    pair of the database and the statements it has received. *)
Definition setup_database : M (DB:=DB * list stmt) unit := λ w,
  let r := ensure_postgis_and_helpers execute (mkWorld (w_db w).1 (w_db w).2 [] []) in
  (mkWorld (w_db r.1, w_trace r.1) (w_trace w) (w_log w ++ w_log r.1) (w_written w), r.2).

(** [main] for a root directory, the environment and the shapefiles found
    under the root; it returns the error entries. *)
Definition main (root : string) (env : gmap string string) (found : list string)
    : M (DB:=DB * list stmt) (list error_record) :=
  logging INFO ("Racine: " +:+ root);;;
  lift (mk_engine_from_env env parse_int);;;
  setup_database;;;
  ingest_all (ingest_body root) json_dumps write_file (list_shp_files found).
End Main.

(** A layer whose geometries are all polygons, one of them missing. *)
Definition polygon_layer : GeoDataFrame :=
  {| columns := ["NAME"; "geometry"];
     geom_type := [Some "Polygon"; None; Some "Polygon"] |}.

(** * Properties *)

(** ** Lists of characters *)

Lemma chars_str (l : list ascii) : chars (str l) = l.
Proof. apply list_ascii_of_string_of_list_ascii. Qed.

Lemma str_chars (s : string) : str (chars s) = s.
Proof. apply string_of_list_ascii_of_string. Qed.

Lemma is_underscore_true (c : ascii) : is_underscore c = true ↔ c = "_"%char.
Proof. unfold is_underscore. case_decide; naive_solver. Qed.

Lemma ident_char_underscore : ident_char "_" = true.
Proof. reflexivity. Qed.

(** *** Run substitution *)

Lemma sub_runs_class (p q : ascii → bool) (r : ascii) (b : bool) (s : list ascii) :
  q r = true →
  (∀ c, p c = false → c ∈ s → q c = true) →
  forallb q (sub_runs_from p r b s) = true.
Proof.
  intros Hr. revert b.
  induction s as [|c s IH]; intros b Hq; simpl; [done|].
  assert (Hs : ∀ c', p c' = false → c' ∈ s → q c' = true)
    by (intros c' ? ?; apply Hq; [done|by right]).
  destruct (p c) eqn:Hp.
  - destruct b; simpl; rewrite ?Hr; simpl; by apply IH.
  - simpl. rewrite (Hq c Hp) by left. simpl. by apply IH.
Qed.

(** After collapsing, no underscore follows an underscore; when the scan
    starts inside a run, the output does not start with one either. *)
Lemma collapse_no_double (b : bool) (s : list ascii) :
  double_underscore (sub_runs_from is_underscore "_" b s) = false ∧
  (b = true → ∀ c, head (sub_runs_from is_underscore "_" b s) = Some c →
     is_underscore c = false).
Proof.
  revert b. induction s as [|c s IH]; intros b; simpl; [by split|].
  destruct (is_underscore c) eqn:Hc.
  - destruct b.
    + apply IH.
    + split; [|done].
      destruct (IH true) as [Hd Hh]. simpl.
      destruct (sub_runs_from is_underscore "_" true s) as [|c' t] eqn:Ht; [done|].
      rewrite Hd, (Hh eq_refl c') by done. done.
  - split.
    + simpl. destruct (IH false) as [Hd _].
      destruct (sub_runs_from is_underscore "_" false s); [done|].
      by rewrite Hc, Hd.
    + intros _ c' [= <-]. done.
Qed.

(** *** Factors of a list keep both properties *)

Lemma double_underscore_app (l1 l2 : list ascii) :
  double_underscore (l1 ++ l2) = false →
  double_underscore l1 = false ∧ double_underscore l2 = false.
Proof.
  induction l1 as [|c l1 IH]; simpl; [done|].
  destruct l1 as [|c' l1].
  - simpl. destruct l2 as [|c2 l2]; [done|].
    intros [_ ?]%orb_false_iff. done.
  - simpl in *. intros [H1 H2]%orb_false_iff.
    destruct (IH H2) as [? ?]. split; [|done].
    apply orb_false_iff. done.
Qed.

Lemma lstrip_suffix (p : ascii → bool) (s : list ascii) : lstrip p s `suffix_of` s.
Proof.
  induction s as [|c s IH]; simpl; [done|].
  destruct (p c); [by apply suffix_cons_r|done].
Qed.

Lemma rstrip_prefix (p : ascii → bool) (s : list ascii) : rstrip p s `prefix_of` s.
Proof.
  unfold rstrip. rewrite <-(reverse_involutive s) at 2.
  apply suffix_prefix_reverse, lstrip_suffix.
Qed.

Lemma slug_body_factor (n : nat) (s : list ascii) :
  factor_of (take n (strip is_underscore s)) s.
Proof.
  unfold strip.
  destruct (lstrip_suffix is_underscore s) as [l Hl].
  destruct (rstrip_prefix is_underscore (lstrip is_underscore s)) as [r Hr].
  set (t := rstrip is_underscore (lstrip is_underscore s)) in *.
  exists l, (drop n t ++ r).
  rewrite Hl at 1. rewrite Hr at 1.
  by rewrite (app_assoc (take n t)), take_drop.
Qed.

Lemma factor_forallb (q : ascii → bool) (t s : list ascii) :
  factor_of t s → forallb q s = true → forallb q t = true.
Proof.
  intros (l & r & ->). rewrite !forallb_app, !andb_true_iff. tauto.
Qed.

Lemma factor_no_double (t s : list ascii) :
  factor_of t s → double_underscore s = false → double_underscore t = false.
Proof.
  intros (l & r & ->) H.
  apply double_underscore_app in H as [_ H].
  by apply double_underscore_app in H as [H _].
Qed.

(** ** The identifier normalizer *)

(** The text of [slugify] before the join back into a string. *)
Lemma slugify_chars (str_lower : string → string) (name : string) :
  ∃ s, chars (slugify str_lower name) = take PG_NAME_MAXLEN (strip is_underscore s) ∧
       forallb ident_char s = true ∧ double_underscore s = false.
Proof.
  unfold slugify. eexists. split; [apply chars_str|]. split.
  - apply sub_runs_class; [done|].
    intros c _ Hc%list_elem_of_In. revert c Hc. apply forallb_forall.
    apply sub_runs_class; [done|]. intros c' Hc' _. by apply negb_false_iff.
  - apply collapse_no_double.
Qed.

(** C4. For every input string (and whatever [str.lower] does to it), the
    output of the scalar normalizer matches [^[a-z0-9_]{0,63}$] and has no
    two consecutive underscores. *)
Theorem slugify_output_shape (str_lower : string → string) (name : string) :
  re_match_ident (slugify str_lower name) = true ∧
  has_double_underscore (slugify str_lower name) = false.
Proof.
  destruct (slugify_chars str_lower name) as (s & Hs & Hid & Hdbl).
  unfold re_match_ident, has_double_underscore. rewrite Hs.
  pose proof (slug_body_factor PG_NAME_MAXLEN s) as Hf.
  split.
  - apply andb_true_iff. split.
    + by apply (factor_forallb _ _ s).
    + apply Nat.leb_le. rewrite length_take. unfold PG_NAME_MAXLEN. lia.
  - by apply (factor_no_double _ s).
Qed.

Example slugify_sample :
  slugify ascii_lower "Zones  Inondables--PPRI (2019)" = "zones_inondables_ppri_2019".
Proof. reflexivity. Qed.

Example slugify_only_symbols : slugify ascii_lower "--  --" = "".
Proof. reflexivity. Qed.

(** C5. Idempotence of the scalar normalizer fails on [long_name]:
    truncation to 63 characters happens after the underscores are stripped,
    so the first pass ends in an underscore that the second pass removes. *)
Theorem slugify_twice_differs :
  slugify ascii_lower long_name
    = "aaaaaaaaaaaaaaaaaaaaaaaaaaaaaaaaaaaaaaaaaaaaaaaaaaaaaaaaaaaaaa_" ∧
  slugify ascii_lower (slugify ascii_lower long_name)
    = "aaaaaaaaaaaaaaaaaaaaaaaaaaaaaaaaaaaaaaaaaaaaaaaaaaaaaaaaaaaaaa" ∧
  slugify ascii_lower (slugify ascii_lower long_name) ≠ slugify ascii_lower long_name.
Proof. repeat split; vm_compute; congruence. Qed.

(** ** Where the normalizer is idempotent *)

Lemma sub_runs_none (p : ascii → bool) (r : ascii) (b : bool) (s : list ascii) :
  forallb (λ c, negb (p c)) s = true → sub_runs_from p r b s = s.
Proof.
  revert b. induction s as [|c s IH]; intros b; simpl; [done|].
  intros [Hc Hs]%andb_true_iff. apply negb_true_iff in Hc. rewrite Hc.
  by rewrite IH.
Qed.

Lemma collapse_fixed (b : bool) (s : list ascii) :
  double_underscore s = false →
  (b = true → ∀ c, head s = Some c → is_underscore c = false) →
  sub_runs_from is_underscore "_" b s = s.
Proof.
  revert b. induction s as [|c s IH]; intros b Hd Hb; simpl; [done|].
  assert (Hs : double_underscore s = false).
  { simpl in Hd. destruct s; [done|]. by apply orb_false_iff in Hd as [_ ?]. }
  destruct (is_underscore c) eqn:Hc.
  - destruct b; [by rewrite (Hb eq_refl c) in Hc|].
    apply is_underscore_true in Hc as ->. f_equal. apply IH; [done|].
    intros _ c' Hc'. destruct s as [|c'' s]; [done|]. injection Hc' as ->.
    simpl in Hd. apply orb_false_iff in Hd as [Hd _]. by destruct (is_underscore c').
  - f_equal. by apply IH.
Qed.

Lemma lstrip_head (p : ascii → bool) (s : list ascii) (c : ascii) :
  head (lstrip p s) = Some c → p c = false.
Proof.
  induction s as [|c' s IH]; simpl; [done|].
  destruct (p c') eqn:Hc'; [done|]. by intros [= <-].
Qed.

Lemma lstrip_fixed (p : ascii → bool) (s : list ascii) :
  (∀ c, head s = Some c → p c = false) → lstrip p s = s.
Proof. destruct s as [|c s]; simpl; [done|]. intros H. by rewrite (H c). Qed.

Lemma head_reverse (s : list ascii) : head (reverse s) = last s.
Proof.
  induction s as [|c s IH] using rev_ind; [done|].
  by rewrite reverse_snoc, last_snoc.
Qed.

Lemma rstrip_fixed (p : ascii → bool) (s : list ascii) :
  (∀ c, last s = Some c → p c = false) → rstrip p s = s.
Proof.
  intros H. unfold rstrip. rewrite lstrip_fixed, reverse_involutive; [done|].
  intros c. rewrite head_reverse. apply H.
Qed.

Lemma head_prefix (t s : list ascii) (c : ascii) :
  t `prefix_of` s → head t = Some c → head s = Some c.
Proof. intros [k ->]. by destruct t. Qed.

(** The output of [slugify] never starts with an underscore. *)
Lemma slugify_head (str_lower : string → string) (name : string) (c : ascii) :
  head (chars (slugify str_lower name)) = Some c → is_underscore c = false.
Proof.
  unfold slugify. rewrite chars_str. unfold strip. intros Hc.
  eapply lstrip_head, head_prefix; [apply rstrip_prefix|].
  eapply head_prefix; [apply prefix_take|done].
Qed.

Lemma ascii_lower_char_ident (c : ascii) : ident_char c = true → ascii_lower_char c = c.
Proof. destruct c as [[] [] [] [] [] [] [] []]; vm_compute; congruence. Qed.

Lemma ascii_lower_ident (s : string) : re_match_ident s = true → ascii_lower s = s.
Proof.
  unfold re_match_ident, ascii_lower. intros [Hs _]%andb_true_iff.
  rewrite <-(str_chars s) at 2. f_equal.
  induction (chars s) as [|c l IH]; [done|]. simpl in *.
  apply andb_true_iff in Hs as [Hc Hl].
  f_equal; [by apply ascii_lower_char_ident|by apply IH].
Qed.

(** A second pass changes nothing unless the first one, by truncation, ended
    in an underscore. *)
Lemma slugify_idempotent_unless_cut (str_lower : string → string) (name : string) :
  (∀ s, re_match_ident s = true → str_lower s = s) →
  last (chars (slugify str_lower name)) ≠ Some "_"%char →
  slugify str_lower (slugify str_lower name) = slugify str_lower name.
Proof.
  intros Hlow Hlast.
  destruct (slugify_chars str_lower name) as (s & Hs & Hid0 & Hdbl0).
  pose proof (slug_body_factor PG_NAME_MAXLEN s) as Hf. rewrite <-Hs in Hf.
  pose proof (factor_forallb _ _ _ Hf Hid0) as Hid.
  pose proof (factor_no_double _ _ Hf Hdbl0) as Hdbl.
  assert (length (chars (slugify str_lower name)) ≤ 63) as Hlen.
  { rewrite Hs, length_take. unfold PG_NAME_MAXLEN. lia. }
  pose proof (slugify_head str_lower name) as Hhead.
  clear Hs Hf Hid0 Hdbl0 s.
  set (out := slugify str_lower name) in *.
  unfold slugify at 1. rewrite (Hlow out).
  2:{ unfold re_match_ident. rewrite Hid. by apply Nat.leb_le. }
  unfold re_sub_runs.
  rewrite (sub_runs_none (λ c, negb (ident_char c)) "_" false (chars out)).
  2:{ clear -Hid. induction (chars out) as [|c l IH]; [done|]. simpl in *.
      apply andb_true_iff in Hid as [-> ?]. simpl. by apply IH. }
  rewrite collapse_fixed by done.
  unfold strip. rewrite (lstrip_fixed _ _ Hhead), rstrip_fixed.
  - rewrite take_ge by (unfold PG_NAME_MAXLEN; lia). apply str_chars.
  - intros c Hc. destruct (is_underscore c) eqn:Hu; [|done].
    apply is_underscore_true in Hu as ->. done.
Qed.

Example slugify_idempotent_sample :
  slugify ascii_lower (slugify ascii_lower "Zones  Inondables--PPRI (2019)")
  = slugify ascii_lower "Zones  Inondables--PPRI (2019)".
Proof.
  apply slugify_idempotent_unless_cut; [apply ascii_lower_ident|by vm_compute].
Qed.

(** ** Column sanitizer *)

Lemma chars_app (a b : string) : chars (a +:+ b) = chars a ++ chars b.
Proof. induction a as [|c a IH]; simpl; [done|]. unfold chars in *. simpl. by rewrite IH. Qed.

Lemma suffixed_inj (base : string) (i j : nat) :
  suffixed base i = suffixed base j → i = j.
Proof.
  unfold suffixed. intros H.
  apply (inj (String.app base)), (inj (String.app "_")) in H.
  by apply (inj pretty) in H.
Qed.

Lemma suffixed_has_underscore (base : string) (i : nat) :
  "_"%char ∈ chars (suffixed base i).
Proof.
  unfold suffixed. rewrite !chars_app.
  apply elem_of_app. right. apply elem_of_app. left. by left.
Qed.

Lemma suffixed_not_geometry (base : string) (i : nat) :
  suffixed base i ≠ "geometry".
Proof.
  intros H. pose proof (suffixed_has_underscore base i) as Hin.
  rewrite H in Hin. vm_compute in Hin.
  repeat (apply elem_of_cons in Hin as [Hin|Hin]; [discriminate|]).
  by apply elem_of_nil in Hin.
Qed.

Lemma blocked_test (seen : gset string) (cc : string) :
  bool_decide (cc ∈ seen) || bool_decide (cc = "geometry") = true ↔ blocked seen cc.
Proof.
  unfold blocked. rewrite orb_true_iff, !bool_decide_eq_true. done.
Qed.

Lemma blocked_suffixed (seen : gset string) (base : string) (i : nat) :
  blocked seen (suffixed base i) ↔ suffixed base i ∈ seen.
Proof.
  unfold blocked. pose proof (suffixed_not_geometry base i). tauto.
Qed.

(** What the loop returns: the current name if it is free, and otherwise
    the first free name among [base_i], [base_(i+1)], ... *)
Lemma dedup_loop_result (fuel : nat) (seen : gset string) (base cc r : string) (i : nat) :
  dedup_loop fuel seen base cc i = Some r →
  ((¬ blocked seen cc) ∧ r = cc) ∨
  (blocked seen cc ∧ ∃ k, i ≤ k ∧ r = suffixed base k ∧ (r ∉ seen) ∧
     (∀ j, i ≤ j < k → suffixed base j ∈ seen)).
Proof.
  revert cc i. induction fuel as [|fuel IH]; intros cc i; simpl;
    destruct (bool_decide (cc ∈ seen) || bool_decide (cc = "geometry")) eqn:Hb.
  - done.
  - intros [= <-]. left. split; [|done]. rewrite <-blocked_test, Hb. done.
  - apply blocked_test in Hb. intros Hr. right. split; [done|].
    destruct (IH _ _ Hr) as [[Hfree ->]|[Hblk (k & Hk & -> & Hnew & Hbelow)]].
    + exists i. split; [done|]. split; [done|].
      split; [by rewrite <-blocked_suffixed|]. intros j ?. lia.
    + exists k. split; [lia|]. split; [done|]. split; [done|].
      intros j Hj. destruct (decide (j = i)) as [->|?].
      * by apply blocked_suffixed.
      * apply Hbelow. lia.
  - intros [= <-]. left. split; [|done]. rewrite <-blocked_test, Hb. done.
Qed.

(** The loop ends within the fuel it is given: the names [base_k],
    [base_(k+1)], ... are pairwise distinct, so at most [size X] of them
    are taken once [X] holds every taken one. *)
Lemma dedup_loop_suffixed_total (fuel : nat) (seen X : gset string) (base : string) (k : nat) :
  (∀ j, k ≤ j → suffixed base j ∈ seen → suffixed base j ∈ X) →
  size X ≤ fuel →
  is_Some (dedup_loop fuel seen base (suffixed base k) (S k)).
Proof.
  revert X k. induction fuel as [|fuel IH]; intros X k Hcov Hsz; simpl;
    destruct (bool_decide (suffixed base k ∈ seen) ||
              bool_decide (suffixed base k = "geometry")) eqn:Hb; try by eexists.
  - apply blocked_test, blocked_suffixed in Hb.
    assert (X ≡ ∅) as HX by (apply size_empty_iff; lia).
    specialize (Hcov k (le_n _) Hb). set_solver.
  - apply blocked_test, blocked_suffixed in Hb.
    apply (IH (X ∖ {[suffixed base k]})).
    + intros j Hj Hin. apply elem_of_difference. split; [apply Hcov; [lia|done]|].
      intros ->%elem_of_singleton%suffixed_inj. lia.
    + assert ({[suffixed base k]} ⊆ X) as Hsub.
      { apply singleton_subseteq_l, Hcov; [lia|done]. }
      rewrite (size_difference _ _ Hsub), size_singleton. lia.
Qed.

Lemma dedup_loop_total (seen : gset string) (base : string) :
  is_Some (dedup_loop (S (size seen)) seen base base 2).
Proof.
  simpl. destruct (_ || _); [|by eexists].
  by apply (dedup_loop_suffixed_total _ _ seen).
Qed.

Section SanitizeFacts.
Variable str_lower : string → string.

Lemma sanitize_step_total (st : list string * gset string) (c : string) :
  is_Some (sanitize_step str_lower st c).
Proof.
  destruct st as [cols seen]. simpl. case_decide; [by eexists|].
  destruct (dedup_loop_total seen (slug_or_col str_lower c)) as [r Hr].
  unfold slug_or_col in *. simpl in *. rewrite Hr. by eexists.
Qed.

Lemma sanitize_loop_snoc (st : list string * gset string) (cs : list string) (c : string) :
  sanitize_loop str_lower st (cs ++ [c])
  = sanitize_loop str_lower st cs ≫= λ st', sanitize_step str_lower st' c.
Proof.
  revert st. induction cs as [|c' cs IH]; intros st; simpl.
  - by destruct (sanitize_step str_lower st c).
  - destruct (sanitize_step str_lower st c'); simpl; [apply IH|done].
Qed.

(** One step appends one name and keeps the state coherent; the name is
    the one the loop picks. *)
Lemma sanitize_step_spec (cols : list string) (seen : gset string) (c : string) :
  seen_inv (cols, seen) →
  ∃ name seen',
    sanitize_step str_lower (cols, seen) c = Some (cols ++ [name], seen') ∧
    seen_inv (cols ++ [name], seen') ∧
    (c = "geometry" → name = "geometry") ∧
    (c ≠ "geometry" →
       let base := slug_or_col str_lower c in
       ((¬ blocked seen base) ∧ name = base) ∨
       (blocked seen base ∧ ∃ i, 2 ≤ i ∧ name = suffixed base i ∧ (name ∉ seen) ∧
          (∀ j, 2 ≤ j < i → suffixed base j ∈ seen))).
Proof.
  intros Hinv. unfold sanitize_step. case_decide as Hc.
  - subst c. exists "geometry", seen. split; [done|]. split; [|done].
    intros x. rewrite (Hinv x). unfold used_in. simpl.
    rewrite elem_of_app, list_elem_of_singleton. tauto.
  - destruct (dedup_loop_total seen (slug_or_col str_lower c)) as [r Hr].
    rewrite Hr. simpl. exists r, ({[r]} ∪ seen). split; [done|].
    pose proof (dedup_loop_result _ _ _ _ _ _ Hr) as Hres.
    assert (¬ blocked seen r) as Hfree.
    { destruct Hres as [[? ->]|[_ (k & _ & -> & ? & _)]]; [done|].
      by rewrite blocked_suffixed. }
    split; [|split; [done|by intros _]].
    intros x. unfold used_in. simpl.
    rewrite elem_of_union, elem_of_singleton, elem_of_app, list_elem_of_singleton.
    rewrite (Hinv x). unfold used_in, blocked in *. simpl.
    split; [|tauto].
    intros [->|[? ?]]; [|tauto]. split; [by right|]. tauto.
Qed.

Lemma sanitize_loop_spec (cs : list string) :
  ∃ cols seen,
    sanitize_loop str_lower ([], ∅) cs = Some (cols, seen) ∧
    seen_inv (cols, seen) ∧ length cols = length cs.
Proof.
  induction cs as [|c cs IH] using rev_ind.
  - exists [], ∅. split; [done|]. split; [|done].
    intros x. unfold used_in. simpl. split; [by intros ?%not_elem_of_empty|].
    by intros [?%not_elem_of_nil _].
  - destruct IH as (cols & seen & Hrun & Hinv & Hlen).
    destruct (sanitize_step_spec cols seen c Hinv) as (name & seen' & Hstep & Hinv' & _).
    exists (cols ++ [name]), seen'.
    rewrite sanitize_loop_snoc, Hrun. unfold mbind, option_bind. rewrite Hstep.
    split; [done|]. split; [done|]. rewrite !length_app. simpl. lia.
Qed.

End SanitizeFacts.

(** C3. Columns are renamed left to right, and the renaming always
    returns.  Whatever columns [pre] came before, the next column [c] gets
    one more name and the earlier names stay as they were; a column named "geometry" keeps its name; any other
    column starts from its normalized name, or "col" when that is empty,
    keeps it when it is neither in use nor "geometry", and otherwise gets
    the first of [base_2], [base_3], ... that is not in use.  On
    ["ID"; "id"; "Id "] the names are id, id_2, id_3. *)
Theorem sanitize_columns_policy (str_lower : string → string)
    (pre : list string) (c : string) :
  (∃ out name,
     sanitize_names str_lower pre = Some out ∧
     sanitize_names str_lower (pre ++ [c]) = Some (out ++ [name]) ∧
     (∀ gdf, columns gdf = pre ++ [c] →
        sanitize_columns str_lower gdf = Some (set_axis gdf (out ++ [name]))) ∧
     length out = length pre ∧
     (c = "geometry" → name = "geometry") ∧
     (c ≠ "geometry" →
        let base :=
          if decide (slugify str_lower c = "") then "col" else slugify str_lower c in
        let taken x := used_in out x ∨ x = "geometry" in
        ((¬ taken base) ∧ name = base) ∨
        (taken base ∧ ∃ i, 2 ≤ i ∧ name = suffixed base i ∧ (¬ taken name) ∧
           (∀ j, 2 ≤ j < i → used_in out (suffixed base j))))) ∧
  sanitize_names ascii_lower ["ID"; "id"; "Id "] = Some ["id"; "id_2"; "id_3"].
Proof.
  split; [|by vm_compute].
  destruct (sanitize_loop_spec str_lower pre) as (out & seen & Hrun & Hinv & Hlen).
  destruct (sanitize_step_spec str_lower out seen c Hinv)
    as (name & seen' & Hstep & _ & Hgeo & Hother).
  exists out, name. unfold sanitize_columns, sanitize_names.
  rewrite sanitize_loop_snoc, Hrun. unfold mbind, option_bind. rewrite Hstep.
  do 2 (split; [done|]).
  split.
  { intros gdf ->. rewrite sanitize_loop_snoc, Hrun.
    unfold mbind, option_bind. by rewrite Hstep. }
  do 2 (split; [done|]).
  intros Hc. specialize (Hother Hc). unfold slug_or_col, blocked in Hother.
  simpl in *.
  assert (Hseen : ∀ x, x ∈ seen ↔ used_in out x) by apply Hinv.
  destruct Hother as [[Hfree ->]|[Hblk (i & Hi & -> & Hnew & Hbelow)]].
  - left. split; [|done]. by rewrite <-Hseen.
  - right. split; [by rewrite <-Hseen|].
    exists i. split; [done|]. split; [done|]. split.
    + rewrite <-Hseen. pose proof (suffixed_not_geometry
        (if decide (slugify str_lower c = "") then "col" else slugify str_lower c) i).
      tauto.
    + intros j Hj. apply Hseen, Hbelow, Hj.
Qed.

(** ** Geometry type classification *)

Lemma elem_of_dropna (l : list (option string)) (g : string) :
  g ∈ dropna l ↔ Some g ∈ l.
Proof.
  unfold dropna. rewrite list_elem_of_omap. split.
  - intros (o & Ho & Hg). simpl in Hg. by subst o.
  - intros H. by exists (Some g).
Qed.

Lemma endswith_spec (t suf : string) :
  endswith t suf = true ↔ ∃ k, chars t = k ++ chars suf.
Proof. unfold endswith. by rewrite bool_decide_eq_true. Qed.

Lemma replace_Z_no_Z (s : list ascii) : "Z"%char ∉ replace_Z s.
Proof. unfold replace_Z. rewrite list_elem_of_filter. tauto. Qed.

(** A normalised type name never ends in "Z". *)
Lemma norm_type_no_Z_suffix (t : string) : endswith (norm_type t) "Z" = false.
Proof.
  unfold norm_type.
  destruct (endswith t "ZM" || endswith t "Z") eqn:He.
  - apply not_true_iff_false. intros [k Hk]%endswith_spec.
    rewrite chars_str in Hk.
    apply (replace_Z_no_Z (replace_ZM (chars t))). rewrite Hk.
    apply elem_of_app. right. by left.
  - by apply orb_false_iff in He as [_ ?].
Qed.

Lemma endswith_app (t suf : string) : endswith (t +:+ suf) suf = true.
Proof. apply endswith_spec. exists (chars t). apply chars_app. Qed.

(** On the type names of the geometry library, with or without a [Z] or
    [ZM] suffix, the normalisation leaves exactly the base name. *)
Example norm_type_drops_suffix :
  Forall (λ t, norm_type t = t ∧ norm_type (t +:+ "Z") = t ∧ norm_type (t +:+ "ZM") = t)
    ["POINT"; "LINESTRING"; "LINEARRING"; "POLYGON"; "MULTIPOINT";
     "MULTILINESTRING"; "MULTIPOLYGON"; "GEOMETRYCOLLECTION"].
Proof. repeat constructor. Qed.

Section GeometryFacts.
Variable str_upper : string → string.

Lemma elem_of_upper_types (gdf : GeoDataFrame) (t : string) :
  t ∈ upper_types str_upper gdf ↔ ∃ g, Some g ∈ geom_type gdf ∧ t = str_upper g.
Proof.
  unfold upper_types. rewrite elem_of_list_to_set, list_elem_of_fmap.
  split; intros (g & ? & ?); exists g.
  - by rewrite <-elem_of_dropna, <-(elem_of_remove_dups (dropna (geom_type gdf))).
  - by rewrite elem_of_remove_dups, elem_of_dropna.
Qed.

Lemma elem_of_base_types (gdf : GeoDataFrame) (t : string) :
  t ∈ base_types str_upper gdf ↔
  ∃ g, Some g ∈ geom_type gdf ∧ t = norm_type (str_upper g).
Proof.
  unfold base_types. rewrite elem_of_map. split.
  - intros (u & -> & (g & ? & ->)%elem_of_upper_types). by exists g.
  - intros (g & ? & ->). exists (str_upper g). split; [done|].
    apply elem_of_upper_types. by exists g.
Qed.

Lemma generic_type_Z (z : bool) : endswith (generic_type z) "Z" = z.
Proof. by destruct z. Qed.

End GeometryFacts.

(** Where a type name holds no "Z", the two replacements remove exactly a
    trailing "Z" or "ZM". *)
Lemma replace_ZM_cons (c : ascii) (s : list ascii) :
  c ≠ "Z"%char → replace_ZM (c :: s) = c :: replace_ZM s.
Proof.
  intros Hc. destruct s as [|c' s']; [done|].
  change (replace_ZM (c :: c' :: s'))
    with (if bool_decide (c = "Z"%char) && bool_decide (c' = "M"%char)
          then replace_ZM s' else c :: replace_ZM (c' :: s')).
  by rewrite (bool_decide_eq_false_2 _ Hc).
Qed.

Lemma replace_ZM_no_Z (s : list ascii) (suffix : list ascii) :
  "Z"%char ∉ s →
  replace_ZM (s ++ "Z"%char :: "M"%char :: suffix) = s ++ replace_ZM suffix ∧
  replace_ZM (s ++ ["Z"%char]) = s ++ ["Z"%char] ∧
  replace_ZM s = s.
Proof.
  induction s as [|c s IH]; intros Hz; [done|].
  apply not_elem_of_cons in Hz as [Hc Hs]. destruct (IH Hs) as (IH1 & IH2 & IH3).
  assert (c ≠ "Z"%char) as Hne by (by intros ->).
  rewrite <-!app_comm_cons, !(replace_ZM_cons c _ Hne). by rewrite IH1, IH2, IH3.
Qed.

Lemma replace_Z_no_change (s : list ascii) : "Z"%char ∉ s → replace_Z s = s.
Proof.
  intros Hz. unfold replace_Z. induction s as [|c s IH]; [done|].
  apply not_elem_of_cons in Hz as [Hc Hs]. rewrite filter_cons.
  destruct (decide (c ≠ "Z"%char)) as [_|Hn]; [by rewrite IH|]. by destruct Hn.
Qed.

Lemma replace_Z_app (s t : list ascii) : replace_Z (s ++ t) = replace_Z s ++ replace_Z t.
Proof. unfold replace_Z. apply filter_app. Qed.

Lemma norm_type_suffix (t : string) :
  "Z"%char ∉ chars t → norm_type (t +:+ "Z") = t ∧ norm_type (t +:+ "ZM") = t.
Proof.
  intros Hz. destruct (replace_ZM_no_Z (chars t) [] Hz) as (HZM & HZ & _).
  unfold norm_type. split.
  - rewrite (endswith_app t "Z"), orb_true_r, chars_app.
    change (chars "Z") with ["Z"%char]. rewrite HZ, replace_Z_app.
    rewrite (replace_Z_no_change _ Hz). simpl. by rewrite app_nil_r, str_chars.
  - rewrite (endswith_app t "ZM"). simpl. rewrite chars_app.
    change (chars "ZM") with ["Z"%char; "M"%char]. rewrite HZM. simpl.
    rewrite app_nil_r, (replace_Z_no_change _ Hz). apply str_chars.
Qed.

(** C1. The three-way policy of [geom_type_for_column], on the geometries
    of the collection.  A base type is the type name of some geometry
    present, upper-cased and normalised: a name that ends neither in "Z"
    nor in "ZM" is kept, and a name without "Z" followed by "Z" or "ZM"
    loses that suffix.  No base type gives the generic type flagged mixed;
    one base type, shared by every geometry present, gives that type, not
    mixed; two distinct base types give the generic type flagged mixed; the
    three cases cover every collection; and the returned name ends in "Z"
    exactly when the Z flag is set. *)
Theorem geom_type_for_column_policy (str_upper : string → string)
    (gdf : GeoDataFrame) (z : bool) :
  let r := geom_type_for_column str_upper gdf z in
  let generic := if z then "GEOMETRYZ" else "GEOMETRY" in
  let is_base t := ∃ u, has_type str_upper gdf u ∧ norm_type u = t in
  ((∀ t, ¬ is_base t) → r = (generic, true)) ∧
  (∀ t, is_base t → (∀ t', is_base t' → t' = t) →
     r = ((if z then t +:+ "Z" else t), false)) ∧
  (∀ t1 t2, is_base t1 → is_base t2 → t1 ≠ t2 → r = (generic, true)) ∧
  ((∀ t, ¬ is_base t) ∨ (∃ t, is_base t ∧ ∀ t', is_base t' → t' = t) ∨
   (∃ t1 t2, is_base t1 ∧ is_base t2 ∧ t1 ≠ t2)) ∧
  endswith r.1 "Z" = z ∧
  (∀ u, endswith u "Z" = false → endswith u "ZM" = false → norm_type u = u) ∧
  (∀ u, "Z"%char ∉ chars u → norm_type (u +:+ "Z") = u ∧ norm_type (u +:+ "ZM") = u).
Proof.
  intros r generic is_base. subst r generic. unfold geom_type_for_column.
  set (types := base_types str_upper gdf).
  assert (Hbase : ∀ t, t ∈ types ↔ is_base t).
  { intros t. unfold types. rewrite elem_of_base_types. unfold is_base, has_type. split.
    - intros (g & Hg & ->). exists (str_upper g). split; [by exists g|done].
    - intros (u & (g & Hg & <-) & <-). by exists g. }
  assert (Hone : ∀ t, types = {[t]} → size types = 1 ∧ elements types = [t]).
  { intros t ->. split; [apply size_singleton|apply elements_singleton]. }
  assert (Hsingle : ∀ t, is_base t → (∀ t', is_base t' → t' = t) → types = {[t]}).
  { intros t Ht Hall. apply leibniz_equiv, set_equiv. intros x.
    rewrite elem_of_singleton, Hbase. split; [apply Hall|by intros ->]. }
  assert (Hcases : types = ∅ ∨ (∃ t, types = {[t]}) ∨
                   (∃ t1 t2, t1 ∈ types ∧ t2 ∈ types ∧ t1 ≠ t2)).
  { pose proof (NoDup_elements types) as Hnd.
    assert (Hin : ∀ x, x ∈ types ↔ x ∈ elements types)
      by (intros x; by rewrite elem_of_elements).
    destruct (elements types) as [|t [|t' l]].
    - left. apply leibniz_equiv, set_equiv. intros x. rewrite Hin.
      split; [by intros ?%not_elem_of_nil|by intros ?%not_elem_of_empty].
    - right. left. exists t. apply leibniz_equiv, set_equiv. intros x.
      by rewrite Hin, list_elem_of_singleton, elem_of_singleton.
    - right. right. exists t, t'. rewrite !Hin. split; [by left|].
      split; [right; by left|].
      apply NoDup_cons in Hnd as [Hnot _]. intros ->. apply Hnot. by left. }
  split; [|split; [|split; [|split; [|split; [|split]]]]].
  - intros Hnone.
    assert (types = ∅) as ->.
    { apply leibniz_equiv, set_equiv. intros x. rewrite Hbase.
      split; [by intros ?%Hnone|by intros ?%not_elem_of_empty]. }
    by rewrite size_empty.
  - intros t Ht Hall. destruct (Hone t (Hsingle t Ht Hall)) as [Hsz Hel].
    rewrite Hsz, Hel. done.
  - intros t1 t2 H1%Hbase H2%Hbase Hne.
    destruct (decide (size types = 0)) as [|_]; [done|].
    destruct (decide (size types = 1)) as [Hsz|_]; [|done].
    destruct Hne. by apply (size_singleton_inv types).
  - destruct Hcases as [He|[[t Ht]|(t1 & t2 & H1 & H2 & Hne)]].
    + left. intros t Ht%Hbase. rewrite He in Ht. by apply not_elem_of_empty in Ht.
    + right. left. exists t. split.
      * apply Hbase. rewrite Ht. by apply elem_of_singleton.
      * intros t' Ht'%Hbase. rewrite Ht in Ht'. by apply elem_of_singleton in Ht'.
    + right. right. exists t1, t2. by rewrite <-!Hbase.
  - destruct Hcases as [->|[[t Ht]|(t1 & t2 & H1 & H2 & Hne)]].
    + rewrite size_empty. simpl. apply generic_type_Z.
    + destruct (Hone t Ht) as [Hsz Hel]. rewrite Hsz, Hel. simpl.
      destruct z; [apply endswith_app|].
      assert (t ∈ types) as (g & _ & ->)%elem_of_base_types
        by (rewrite Ht; by apply elem_of_singleton).
      apply norm_type_no_Z_suffix.
    + destruct (decide (size types = 0)) as [|_]; [apply generic_type_Z|].
      destruct (decide (size types = 1)) as [Hsz|_]; [|apply generic_type_Z].
      destruct Hne. by apply (size_singleton_inv types).
  - intros u HZ HZM. unfold norm_type. by rewrite HZ, HZM.
  - apply norm_type_suffix.
Qed.

(** Polygons only, polygons with Z, polygons and points, no geometry. *)
Example geom_type_for_column_samples :
  geom_type_for_column ascii_upper (mkGDF ["geom"] [Some "Polygon"; Some "Polygon"]) false
    = ("POLYGON", false) ∧
  geom_type_for_column ascii_upper (mkGDF ["geom"] [Some "Polygon"; None]) true
    = ("POLYGONZ", false) ∧
  geom_type_for_column ascii_upper (mkGDF ["geom"] [Some "Polygon"; Some "Point"]) false
    = ("GEOMETRY", true) ∧
  geom_type_for_column ascii_upper (mkGDF ["geom"] []) true = ("GEOMETRYZ", true).
Proof. by vm_compute. Qed.

Lemma meets_spec (fams : gset string) (a b : string) :
  meets fams a b = true ↔ a ∈ fams ∨ b ∈ fams.
Proof.
  unfold meets. rewrite bool_decide_eq_true. split.
  - intros Hne. destruct (decide (a ∈ fams)); [by left|].
    destruct (decide (b ∈ fams)); [by right|].
    destruct Hne. apply leibniz_equiv, set_equiv. intros x.
    rewrite elem_of_intersection, elem_of_union, !elem_of_singleton.
    split; [|by intros ?%not_elem_of_empty]. intros [? [->| ->]]; done.
  - intros H Hempty.
    assert (∃ x, x ∈ fams ∩ {[a; b]}) as [x Hx].
    { destruct H; [exists a|exists b];
        rewrite elem_of_intersection, elem_of_union, !elem_of_singleton; tauto. }
    rewrite Hempty in Hx. by apply not_elem_of_empty in Hx.
Qed.

Lemma elem_of_fams (str_upper : string → string) (gdf : GeoDataFrame) (t : string) :
  t ∈ (list_to_set (str_upper <$> dropna (geom_type gdf)) : gset string)
  ↔ has_type str_upper gdf t.
Proof.
  unfold has_type. rewrite elem_of_list_to_set, list_elem_of_fmap.
  split; intros (g & ? & ?); exists g.
  - by rewrite <-elem_of_dropna.
  - by rewrite elem_of_dropna.
Qed.

(** C10. The upload path classifies by fixed priority: a polygon or
    multipolygon anywhere gives MULTIPOLYGON; failing that, a line variant
    gives MULTILINESTRING; failing that, a point variant gives MULTIPOINT;
    anything else, the empty collection included, gives GEOMETRY. *)
Theorem geom_family_priority (str_upper : string → string) (gdf : GeoDataFrame) :
  let has := has_type str_upper gdf in
  let polygon := has "POLYGON" ∨ has "MULTIPOLYGON" in
  let line := has "LINESTRING" ∨ has "MULTILINESTRING" in
  let point := has "POINT" ∨ has "MULTIPOINT" in
  let fam := _geom_family str_upper gdf in
  (polygon → fam = "MULTIPOLYGON") ∧
  ((¬ polygon) ∧ line → fam = "MULTILINESTRING") ∧
  ((¬ polygon) ∧ (¬ line) ∧ point → fam = "MULTIPOINT") ∧
  ((¬ polygon) ∧ (¬ line) ∧ (¬ point) → fam = "GEOMETRY") ∧
  (geom_type gdf = [] → fam = "GEOMETRY").
Proof.
  intros has polygon line point fam.
  subst fam polygon line point has. unfold _geom_family.
  set (fams := list_to_set (str_upper <$> dropna (geom_type gdf)) : gset string).
  assert (Hm : ∀ a b, meets fams a b = true
                      ↔ has_type str_upper gdf a ∨ has_type str_upper gdf b).
  { intros a b. unfold fams. by rewrite meets_spec, !elem_of_fams. }
  destruct (meets fams "POLYGON" "MULTIPOLYGON") eqn:H1;
    [apply Hm in H1|apply not_true_iff_false in H1; rewrite Hm in H1];
  (destruct (meets fams "LINESTRING" "MULTILINESTRING") eqn:H2;
    [apply Hm in H2|apply not_true_iff_false in H2; rewrite Hm in H2]);
  (destruct (meets fams "POINT" "MULTIPOINT") eqn:H3;
    [apply Hm in H3|apply not_true_iff_false in H3; rewrite Hm in H3]);
  repeat split; try tauto;
  intros Hnil; unfold has_type in *; rewrite Hnil in *;
  repeat match goal with
  | H : _ ∨ _ |- _ => destruct H
  | H : ∃ _, _ ∧ _ |- _ => destruct H as (? & ?%not_elem_of_nil & _)
  end; done.
Qed.

(** ** Encoding resolver *)

Section ResolverFacts.
Variables str_lower str_upper str_strip repr : string → string.
Variable read_file : string → option string → exn + GeoDataFrame.
Variable read_cpg : string → option string.

(** The loop stops at the first encoding that reads; when none does, it
    has tried them all and holds the error of the last one. *)
Lemma try_encodings_spec (path : string) (trials : list string) (last_err : option exn) :
  let '(tried, r) := try_encodings read_file path trials last_err in
  match r with
  | inr gdf =>
      ∃ pre enc post, trials = pre ++ enc :: post ∧ tried = Some <$> (pre ++ [enc]) ∧
        (∀ x, x ∈ pre → ∃ e, read_file path (Some x) = inl e) ∧
        read_file path (Some enc) = inr gdf
  | inl le =>
      tried = Some <$> trials ∧
      (∀ x, x ∈ trials → ∃ e, read_file path (Some x) = inl e) ∧
      le = last (last_err :: ((λ x, match read_file path (Some x) with
                                    | inl e => Some e | inr _ => None end) <$> trials))
             ≫= id
  end.
Proof.
  revert last_err. induction trials as [|enc trials IH]; intros last_err; simpl.
  - split; [done|]. split; [by intros x ?%not_elem_of_nil|done].
  - destruct (read_file path (Some enc)) as [e|gdf] eqn:Henc.
    + specialize (IH (Some e)).
      destruct (try_encodings read_file path trials (Some e)) as [tried [le|gdf]].
      * destruct IH as (-> & Hall & ->). split; [done|]. split.
        -- intros x [->|?]%elem_of_cons; [by exists e|by apply Hall].
        -- by destruct trials.
      * destruct IH as (pre & enc' & post & -> & -> & Hpre & Hok).
        exists (enc :: pre), enc', post. split; [done|]. split; [done|].
        split; [|done]. intros x [->|?]%elem_of_cons; [by exists e|by apply Hpre].
    + exists [], enc, trials. split; [done|]. split; [done|].
      split; [by intros x ?%not_elem_of_nil|done].
Qed.

Lemma filter_truthy_trials (enc_hint : option string) :
  omap id (filter (λ o, truthy o)
            [enc_hint; Some "utf-8"; Some "latin-1"; Some "cp1252"])
  = candidate_encodings enc_hint.
Proof.
  unfold candidate_encodings.
  destruct enc_hint as [s|]; [|done].
  destruct (decide (s = "")) as [->|Hs]; [done|].
  rewrite filter_cons. simpl. rewrite !bool_decide_eq_true_2 by done. done.
Qed.

End ResolverFacts.

Section ResolverRuns.
Variables str_lower str_upper str_strip repr : string → string.
Variable read_file : string → option string → exn + GeoDataFrame.
Variable read_cpg : string → option string.

(** Both resolvers run the loop and then fall back on the driver. *)
Lemma resolver_shape (path : string) (cands : list string)
    (fallback : option exn → exn + GeoDataFrame) :
  (∀ le gdf, fallback le = inr gdf ↔ read_file path None = inr gdf) →
  stops_at_first_success read_file path ((Some <$> cands) ++ [None])
    (let '(tried, r) := try_encodings read_file path cands None in
     match r with
     | inr gdf => (tried, inr gdf)
     | inl le => (tried ++ [None], fallback le)
     end).
Proof.
  intros Hfb. pose proof (try_encodings_spec read_file path cands None) as Hspec.
  destruct (try_encodings read_file path cands None) as [tried [le|gdf]].
  - destruct Hspec as (-> & Hall & _). split; [done|].
    exists (Some <$> cands), None. split; [done|]. split.
    + intros y (x & -> & Hx)%list_elem_of_fmap. by apply Hall.
    + split; [apply Hfb|done].
  - destruct Hspec as (pre & enc & post & -> & -> & Hpre & Hok).
    split.
    + simpl. exists ((Some <$> post) ++ [None]).
      rewrite !fmap_app, <-!app_assoc. done.
    + exists (Some <$> pre), (Some enc). simpl. rewrite fmap_app. split; [done|].
      split.
      * intros y (x & -> & Hx)%list_elem_of_fmap. by apply Hpre.
      * split; [|by eexists]. intros gdf'. rewrite Hok. split; by intros [= <-].
Qed.

(** When nothing reads, the loop leaves the error of the last candidate. *)
Lemma try_encodings_all_fail (path : string) (enc_hint : option string) (e3 : exn) :
  all_fail read_file path (attempt_plan enc_hint) →
  read_file path (Some "cp1252") = inl e3 →
  try_encodings read_file path (candidate_encodings enc_hint) None
  = (Some <$> candidate_encodings enc_hint, inl (Some e3)).
Proof.
  intros Hall H3.
  pose proof (try_encodings_spec read_file path (candidate_encodings enc_hint) None) as Hspec.
  destruct (try_encodings read_file path (candidate_encodings enc_hint) None)
    as [tried [le|gdf]].
  - destruct Hspec as (-> & _ & ->). f_equal. f_equal.
    unfold candidate_encodings, fallback_encodings.
    rewrite fmap_app, app_comm_cons, last_app. simpl. by rewrite H3.
  - destruct Hspec as (pre & enc & post & Hc & _ & _ & Hok).
    destruct (Hall (Some enc)) as [e He]; [|congruence].
    unfold attempt_plan. rewrite Hc. apply elem_of_app. left.
    apply list_elem_of_fmap. exists enc. split; [done|].
    apply elem_of_app. right. by left.
Qed.

End ResolverRuns.

(** C2 (as the code has it). Both resolvers go through the hint (when it
    is non-empty), then utf-8, latin-1, cp1252, then the driver's own choice,
    and stop at the first attempt that reads, returning what it read.  When
    every attempt fails, the batch resolver ends with the error the driver
    raised on the last attempt, unchanged; the upload resolver raises a
    RuntimeError, chained from that error, whose message is made of the list
    of the encodings tried and the message of the last encoding error, and
    of nothing else: neither resolver puts the path into its error. *)
Theorem encoding_resolver_runs
    (str_lower str_upper str_strip repr : string → string)
    (read_file : string → option string → exn + GeoDataFrame)
    (read_cpg : string → option string)
    (path : string) (enc_hint : option string) :
  let batch := read_shp_robust str_lower str_upper str_strip read_file read_cpg path in
  let upload := _read_gdf_try_encodings repr read_file path enc_hint in
  let plan_b := attempt_plan (cpg_hint str_lower str_upper str_strip read_cpg path) in
  let plan_u := attempt_plan enc_hint in
  stops_at_first_success read_file path plan_b batch ∧
  stops_at_first_success read_file path plan_u upload ∧
  (all_fail read_file path plan_b → batch = (plan_b, read_file path None)) ∧
  (all_fail read_file path plan_u →
     ∃ e3 e2, read_file path (Some "cp1252") = inl e3 ∧ read_file path None = inl e2 ∧
       upload = (plan_u, inl (ExnFrom "RuntimeError"
         ("Impossible de lire le SHP (encodings testés: "
            +:+ repr_list repr (candidate_encodings enc_hint)
            +:+ "). Dernière erreur: " +:+ exn_msg e3) e2))).
Proof.
  intros batch upload plan_b plan_u.
  subst batch upload plan_b plan_u.
  unfold read_shp_robust, _read_gdf_try_encodings.
  rewrite filter_truthy_trials. fold (candidate_encodings enc_hint).
  set (hint := cpg_hint str_lower str_upper str_strip read_cpg path).
  split; [|split; [|split]].
  - apply (resolver_shape read_file path (candidate_encodings hint)
             (λ _, read_file path None)). done.
  - apply (resolver_shape read_file path (candidate_encodings enc_hint)
      (λ le, match read_file path None with
             | inr gdf => inr gdf
             | inl e2 => inl (ExnFrom "RuntimeError"
                 (unreadable_msg repr (candidate_encodings enc_hint) le) e2)
             end)).
    intros le gdf. by destruct (read_file path None).
  - intros Hall.
    destruct (Hall (Some "cp1252")) as [e3 H3].
    { apply elem_of_app. left. apply list_elem_of_fmap. exists "cp1252".
      split; [done|]. apply elem_of_app. right. by repeat constructor. }
    by rewrite (try_encodings_all_fail read_file path hint e3 Hall H3).
  - intros Hall.
    destruct (Hall (Some "cp1252")) as [e3 H3].
    { apply elem_of_app. left. apply list_elem_of_fmap. exists "cp1252".
      split; [done|]. apply elem_of_app. right. by repeat constructor. }
    destruct (Hall None) as [e2 H2].
    { apply elem_of_app. right. by left. }
    exists e3, e2. split; [done|]. split; [done|].
    by rewrite (try_encodings_all_fail read_file path enc_hint e3 Hall H3), H2.
Qed.

(** The sidecar token CP1252 puts cp1252 at the head of the plan. *)
Example cp1252_hint_first :
  attempt_plan (cpg_hint ascii_lower ascii_upper id (λ _, Some "CP1252") "zones.shp")
  = [Some "cp1252"; Some "utf-8"; Some "latin-1"; Some "cp1252"; None].
Proof. reflexivity. Qed.

(** C2 (as stated) fails: with a reader that fails on every attempt, the
    error of the upload resolver names the encodings tried but nowhere the
    path, and the error of the batch resolver is the driver's own, which
    names neither the path nor the encodings tried. *)
Lemma resolver_error_omits_path :
  let path := "data/zones.shp" in
  let upload := _read_gdf_try_encodings simple_repr failing_reader path (Some "cp1252") in
  let batch := read_shp_robust ascii_lower ascii_upper id failing_reader
                 (λ _, Some "CP1252") path in
  upload.1 = [Some "cp1252"; Some "utf-8"; Some "latin-1"; Some "cp1252"; None] ∧
  (∃ e, upload.2 = inl e ∧
     exn_msg e = "Impossible de lire le SHP (encodings testés: ['cp1252', 'utf-8', 'latin-1', 'cp1252']). Dernière erreur: unreadable" ∧
     Forall (λ m, str_contains m path = false) (exn_messages e)) ∧
  batch.1 = [Some "cp1252"; Some "utf-8"; Some "latin-1"; Some "cp1252"; None] ∧
  (∃ e, batch.2 = inl e ∧ exn_messages e = ["unreadable"] ∧
     str_contains (exn_msg e) path = false ∧
     Forall (λ enc, str_contains (exn_msg e) enc = false) ["cp1252"; "utf-8"; "latin-1"]).
Proof.
  vm_compute. split; [done|]. split; [|split; [done|]].
  - eexists. split; [done|]. split; [done|]. by repeat constructor.
  - eexists. split; [done|]. split; [done|]. split; [done|]. by repeat constructor.
Qed.

(** ** Post-load finalizers *)

(** Runs a block of the effect monad on an arbitrary database: every
    [execute] is split into the case where it raises and the case where it
    returns. *)
Ltac run_block execute :=
  unfold with_begin, bind, try_except, exec, ret, raise, logging, init_world;
  simpl;
  repeat match goal with
  | |- context [execute ?s ?d] =>
      let d' := fresh "d" in let e := fresh "e" in let rows := fresh "rows" in
      let H := fresh "Hexec" in
      destruct (execute s d) as [d' [e|rows]] eqn:H; simpl
  end.

(** Membership in a list written out. *)
Ltac in_list := repeat (first [by left | right]).

(** Contradicts a membership in a list that lacks the element. *)
Ltac not_in_list H :=
  repeat (apply elem_of_cons in H as [H|H]; [discriminate H|]);
  by apply elem_of_nil in H.

(** The exception of a failed run comes from a failed statement in context
    that is not a primary-key declaration. *)
Ltac blame_statement execute :=
  let e := fresh "e" in let He := fresh "He" in
  intros e He; simpl in He; try discriminate He;
  injection He as <-;
  match goal with
  | H : execute ?s ?d = (?d', inl _) |- _ =>
      exists s, d, d'; split; [simpl; in_list|split; [reflexivity|exact H]]
  end.

Lemma coerce_guard_spec (srid : option Z) (fam : string) :
  srid ≠ Some 0%Z →
  coerce_guard srid fam = true ↔ is_Some srid ∧ fam ∈ multi_families.
Proof.
  intros Hs. unfold coerce_guard, truthy_int.
  rewrite andb_true_iff, bool_decide_eq_true.
  destruct srid as [n|].
  - rewrite bool_decide_eq_true. split; [intros [_ ?]; split; [by eexists|done]|].
    intros [_ ?]. split; [congruence|done].
  - split; [by intros [? _]|]. by intros [[? [=]] _].
Qed.

Lemma upload_trace_coercion {DB : Type} (execute : stmt → DB → DB * (exn + list string))
    (db : DB) (schema table_name : string) (srid : option Z) (fam : string) :
  let trace := w_trace (upload_post_load execute schema table_name srid fam (init_world db)).1 in
  (∀ s, s ∈ trace → is_coercion s = true →
     s = CoerceMulti2D schema table_name fam srid ∧ coerce_guard srid fam = true) ∧
  (coerce_guard srid fam = true → AddPrimaryKey schema table_name ∈ trace →
     CoerceMulti2D schema table_name fam srid ∈ trace).
Proof.
  unfold upload_post_load. destruct (coerce_guard srid fam) eqn:Hg.
  - run_block execute.
    all: split; [intros s Hs Hc|intros _ Hpk].
    all: try (repeat (apply elem_of_cons in Hs as [->|Hs]; try discriminate Hc; try done);
              by apply elem_of_nil in Hs).
    all: try (repeat (apply elem_of_cons in Hpk as [Hpk|Hpk]; try discriminate Hpk);
              by apply elem_of_nil in Hpk).
    all: rewrite !elem_of_cons; tauto.
  - run_block execute.
    all: split; [intros s Hs Hc|done].
    all: repeat (apply elem_of_cons in Hs as [->|Hs]; try discriminate Hc);
         by apply elem_of_nil in Hs.
Qed.

(** C6. In the post-load block of the upload path (the SRID being a
    registry code, never zero): a statement rewriting the geometry column is
    sent only when the SRID is known and the family is one of the three
    multi-types; when that holds and the block reaches the step after the
    primary key, the statement is sent, and it is the ST_Multi(ST_Force2D)
    rewrite to that family and SRID; with no SRID it is never sent. *)
Theorem upload_coercion_guard {DB : Type}
    (execute : stmt → DB → DB * (exn + list string)) (db : DB)
    (schema table_name : string) (srid : option Z) (fam : string) :
  srid ≠ Some 0%Z →
  let trace :=
    w_trace (upload_post_load execute schema table_name srid fam (init_world db)).1 in
  let coercion := CoerceMulti2D schema table_name fam srid in
  let known_multi :=
    is_Some srid ∧ fam ∈ ["MULTIPOLYGON"; "MULTILINESTRING"; "MULTIPOINT"] in
  (∀ s, s ∈ trace → is_coercion s = true → s = coercion ∧ known_multi) ∧
  (known_multi → AddPrimaryKey schema table_name ∈ trace → coercion ∈ trace) ∧
  (srid = None → ∀ s, s ∈ trace → is_coercion s = false) ∧
  sql coercion = Some (
    "ALTER TABLE " +:+ qtable schema table_name +:+ " ALTER COLUMN " +:+ qid "geom"
      +:+ " TYPE geometry(" +:+ fam +:+ "," +:+ str_opt_int srid
      +:+ ") USING ST_Multi(ST_Force2D(" +:+ qid "geom" +:+ "))").
Proof.
  intros Hsrid trace coercion known_multi.
  destruct (upload_trace_coercion execute db schema table_name srid fam) as [Honly Hsent].
  fold trace in Honly, Hsent. pose proof (coerce_guard_spec srid fam Hsrid) as Hguard.
  split; [|split; [|split; [|done]]].
  - intros s Hs Hc. destruct (Honly s Hs Hc) as [-> Hg]. split; [done|]. by apply Hguard.
  - intros Hk Hpk. apply Hsent; [by apply Hguard|done].
  - intros -> s Hs. destruct (is_coercion s) eqn:Hc; [|done].
    by destruct (Honly s Hs Hc) as [_ ?].
Qed.

(** On a table of multipolygons with SRID 2154 the rewrite is sent, even
    though the primary-key declaration before it failed. *)
Lemma upload_coercion_guard_witness :
  Some 2154%Z ≠ Some 0%Z ∧
  CoerceMulti2D "public" "zones" "MULTIPOLYGON" (Some 2154%Z)
    ∈ w_trace (upload_post_load pk_conflict_db "public" "zones" (Some 2154%Z)
                 "MULTIPOLYGON" (init_world false)).1.
Proof.
  assert (Some 2154%Z ≠ Some 0%Z) as Hne by discriminate.
  split; [exact Hne|].
  destruct (upload_coercion_guard pk_conflict_db false "public" "zones"
              (Some 2154%Z) "MULTIPOLYGON" Hne) as (_ & Hsent & _).
  apply Hsent.
  - split; [by eexists|by left].
  - simpl. right. right. left.
Defined.

(** What the handler around the primary-key declaration does, on any
    database: an exception the block ends with was raised by a statement
    other than the declaration; once the declaration has been sent, the
    statement that follows it in the block is sent as well, whether or not
    the declaration failed; and the block writes no log record. *)
Lemma pk_error_is_caught {DB : Type}
    (execute : stmt → DB → DB * (exn + list string)) (db : DB)
    (schema table : string) (srid : option Z) (fam : string) :
  let batch :=
    with_begin execute (to_postgis_post_load execute schema table) (init_world db) in
  let upload := upload_post_load execute schema table srid fam (init_world db) in
  let pk := AddPrimaryKey schema table in
  raised_outside_pk execute batch ∧
  raised_outside_pk execute upload ∧
  (pk ∈ w_trace batch.1 →
     ∃ pre post, w_trace batch.1 = pre ++ [pk; Analyze schema table] ++ post) ∧
  (pk ∈ w_trace upload.1 →
     ∃ pre post, w_trace upload.1 =
       pre ++ [pk; if coerce_guard srid fam
                   then CoerceMulti2D schema table fam srid
                   else CreateGistIndex schema table] ++ post) ∧
  w_log batch.1 = [] ∧ w_log upload.1 = [].
Proof.
  intros batch upload pk. subst batch upload pk.
  unfold to_postgis_post_load, upload_post_load, raised_outside_pk.
  split; [|split; [|split; [|split; [|split]]]].
  - run_block execute;
      repeat match goal with
      | |- context [if ?b then _ else _] => destruct b; simpl
      end; run_block execute; blame_statement execute.
  - destruct (coerce_guard srid fam); run_block execute; blame_statement execute.
  - run_block execute;
      repeat match goal with
      | |- context [if ?b then _ else _] => destruct b; simpl
      end; run_block execute;
      intros Hpk; try (by not_in_list Hpk);
      first [ exists [Begin; SelectColumns schema table; CreateGistIndex schema table;
                      AddIdColumn schema table]; eexists; reflexivity
            | exists [Begin; SelectColumns schema table; RenameGeometry schema table;
                      CreateGistIndex schema table; AddIdColumn schema table];
              eexists; reflexivity ].
  - destruct (coerce_guard srid fam); run_block execute;
      intros Hpk; try (by not_in_list Hpk);
      exists [Begin; AddIdColumn schema table]; eexists; reflexivity.
  - run_block execute;
      repeat match goal with
      | |- context [if ?b then _ else _] => destruct b; simpl
      end; run_block execute; done.
  - destruct (coerce_guard srid fam); run_block execute; done.
Qed.

(** C7 fails on the code: the swallow is not non-fatal.  On a database
    with the transaction rule of PostgreSQL, when the primary-key
    declaration fails: the handler
    catches that error and the next statement of the block is sent, but the
    block is aborted, so that statement raises; the exception leaves the
    block, which is rolled back instead of committed, and leaves
    [to_postgis]; nothing is logged about it.  This holds for both
    finalizers, whatever the table, the SRID and the family. *)
Theorem pk_failure_aborts_block (str_upper : string → string) (gdf : GeoDataFrame)
    (schema table : string) (srid : option Z) (fam : string) (z : bool) :
  let batch :=
    with_begin pk_conflict_db (to_postgis_post_load pk_conflict_db schema table)
      (init_world false) in
  let upload := upload_post_load pk_conflict_db schema table srid fam (init_world false) in
  let whole :=
    to_postgis pk_conflict_db str_upper gdf table schema srid z (init_world false) in
  let pk := AddPrimaryKey schema table in
  (pk_conflict_db pk false).2
    = inl (Exn "ProgrammingError" "multiple primary keys for table are not allowed") ∧
  batch.2 = inl in_failed_transaction ∧
  w_trace batch.1 =
    [Begin; SelectColumns schema table; CreateGistIndex schema table;
     AddIdColumn schema table; pk; Analyze schema table; Rollback] ∧
  upload.2 = inl in_failed_transaction ∧
  w_trace upload.1 =
    [Begin; AddIdColumn schema table; pk;
     (if coerce_guard srid fam then CoerceMulti2D schema table fam srid
      else CreateGistIndex schema table);
     Rollback] ∧
  whole.2 = inl in_failed_transaction ∧
  (∃ pre, w_trace whole.1 = pre ++ [pk; Analyze schema table; Rollback]) ∧
  w_log batch.1 = [] ∧ w_log upload.1 = [] ∧
  (∃ line, w_log whole.1 = [(INFO, line)]).
Proof.
  intros batch upload whole pk. subst batch upload whole pk.
  unfold to_postgis, to_postgis_post_load, upload_post_load.
  destruct (geom_type_for_column str_upper gdf z) as [gtype mixed].
  destruct (coerce_guard srid fam);
    (split; [done|]; split; [done|]; split; [done|]; split; [done|];
     split; [done|]; split; [done|]; split; [|split; [done|split; [done|]]];
     [by eexists [_; _; _; _; _; _; _; _]|by eexists]).
Qed.

(** ** Batch orchestration *)

Section BatchFacts.
Context {DB : Type}.
Variable ingest_one : string → DB → DB * list (level * string) * (exn + unit).

(** The loop never raises: it returns the entries it was given followed by
    one entry per file that raised, and has run the body on every file. *)
Lemma ingest_loop_spec (files : list string) (errors : list error_record)
    (w : world (DB:=DB)) :
  ∃ w', ingest_loop ingest_one files errors w
        = (w', inr (errors ++ failures (outcomes ingest_one files (w_db w)))) ∧
    w_db w' = db_after ingest_one files (w_db w) ∧
    w_written w' = w_written w ∧ w_trace w' = w_trace w.
Proof.
  revert errors w. induction files as [|shp files IH]; intros errors w; simpl.
  - exists w. unfold ret. by rewrite app_nil_r.
  - unfold bind, try_except, run_ingest, ret, logging. simpl.
    destruct (ingest_one shp (w_db w)) as [[db' logs] [e|[]]] eqn:Hone; simpl.
    + edestruct IH as (w' & -> & Hdb & Hwr & Htr). exists w'. simpl in *.
      unfold failures. simpl. unfold failure_record at 1. simpl.
      by rewrite <-app_assoc.
    + edestruct IH as (w' & -> & Hdb & Hwr & Htr). exists w'. simpl in *.
      by unfold failures.
Qed.

End BatchFacts.

(** C8 (as the code has it). The batch loop catches the error of each
    file that raises, appends that file's path and message to the report
    entries, and goes on: the loop never raises, the body has run on every
    file in order, the entries are exactly those of the files that raised,
    in order, one each.  With no entry nothing is written and the run
    returns.  With at least one entry the report is written once, after the
    loop: when the write returns, the file holds exactly those entries and
    the run returns them; when the write raises, its error leaves the run
    and the file holds what the write left. *)
Theorem batch_errors_reported {DB : Type}
    (ingest_one : string → DB → DB * list (level * string) * (exn + unit))
    (json_dumps : list error_record → string)
    (write_file : string → string → (exn * option string) + unit)
    (files : list string) (db : DB) :
  let run := ingest_all ingest_one json_dumps write_file files (init_world db) in
  let outs := outcomes ingest_one files db in
  let errors := failures outs in
  let report := "ingest_shp_errors.json" in
  (ingest_loop ingest_one files [] (init_world db)).2 = inr errors ∧
  outs.*1 = files ∧
  w_db run.1 = db_after ingest_one files db ∧
  (∀ shp e, (shp, inl e) ∈ outs → mkError shp (exn_msg e) ∈ errors) ∧
  (∀ r, r ∈ errors → ∃ e, (file r, inl e) ∈ outs ∧ error r = exn_msg e) ∧
  length errors = length (filter (λ o, is_Some (failure_record o)) outs) ∧
  (errors = [] → run.2 = inr [] ∧ w_written run.1 = []) ∧
  (errors ≠ [] →
     match write_file report (json_dumps errors) with
     | inr _ => run.2 = inr errors ∧ w_written run.1 = [(report, json_dumps errors)]
     | inl (e, left_in_file) =>
         run.2 = inl e ∧
         w_written run.1 = from_option (λ part, [(report, part)]) [] left_in_file
     end).
Proof.
  intros run outs errors report. subst run report. unfold ingest_all, bind.
  destruct (ingest_loop_spec ingest_one files [] (init_world db))
    as (w' & Hrun & Hdb & Hwr & _).
  rewrite Hrun. simpl in *. fold outs errors.
  split; [done|].
  split; [|split; [|split; [|split; [|split; [|split]]]]].
  - subst errors outs. clear. revert db. induction files as [|shp files IH]; intros db; [done|].
    simpl. destruct (ingest_one shp db) as [[db' ?] ?]. simpl. by rewrite IH.
  - case_bool_decide; simpl; [|done]. unfold write_text.
    by destruct (write_file _ _) as [[e l]|[]].
  - intros shp e Hin. apply list_elem_of_omap. by exists (shp, inl e).
  - intros r ((shp & [e|[]]) & Hin & Hr)%list_elem_of_omap; [|done].
    injection Hr as <-. by exists e.
  - subst errors. unfold failures. generalize outs. clear. intros l.
    induction l as [|o l IH]; [done|]. rewrite filter_cons. simpl.
    destruct (failure_record o) eqn:Ho; simpl.
    + destruct (decide (is_Some (Some e))) as [|Hn]; [simpl; f_equal; apply IH|].
      destruct Hn. by eexists.
    + destruct (decide (is_Some (@None error_record))) as [[? [=]]|]; apply IH.
  - intros He. rewrite He. by rewrite bool_decide_eq_false_2 by (by intros ?).
  - intros Hne. rewrite (bool_decide_eq_true_2 _ Hne). unfold write_text.
    destruct (write_file _ _) as [[e l]|[]]; simpl; by rewrite Hwr.
Qed.

Example batch_sample :
  let run := ingest_all flaky_ingest sample_dumps writable
               ["a.shp"; "bad1.shp"; "c.shp"; "bad2.shp"] (init_world 0) in
  run.2 = inr [mkError "bad1.shp" "cannot read bad1.shp";
               mkError "bad2.shp" "cannot read bad2.shp"] ∧
  w_db run.1 = 4 ∧
  w_written run.1 =
    [("ingest_shp_errors.json",
      "bad1.shp, bad2.shp; cannot read bad1.shp, cannot read bad2.shp")].
Proof. by vm_compute. Qed.

(** C8 (as stated) fails when the report cannot be written: one file of
    the batch fails and its name cannot be encoded; the loop records the
    entry, the write of the report raises outside any handler, the run
    ends with that error, and the report is left empty, without the entry
    of the failed file. *)
Lemma report_write_failure :
  let files := ["a.shp"; escaped_name] in
  let run := ingest_all flaky_ingest sample_dumps strict_utf8 files (init_world 0) in
  (ingest_loop flaky_ingest files [] (init_world 0)).2
    = inr [mkError escaped_name ("cannot read " +:+ escaped_name)] ∧
  run.2 = inl (Exn "UnicodeEncodeError"
                 "'utf-8' codec can't encode character: surrogates not allowed") ∧
  w_written run.1 = [("ingest_shp_errors.json", "")].
Proof. by vm_compute. Qed.

(** ** Access-policy publication *)

(** On any database, a policy is created only right after the query on
    [pg_policies] for that very name, and only if it returned no row. *)
Lemma policy_checked_before_create {DB : Type}
    (execute : stmt → DB → DB * (exn + list string)) (db : DB) (schema table : string) :
  let trace := w_trace (create_views_and_policies execute schema table (init_world db)).1 in
  ∀ s, s ∈ trace → is_create_policy s = true →
    s = CreatePolicy schema table (policy_name table) ∧
    ∃ pre post d d',
      trace = pre ++ [SelectPolicy schema table (policy_name table); s] ++ post ∧
      execute (SelectPolicy schema table (policy_name table)) d = (d', inr []).
Proof.
  unfold create_views_and_policies. simpl.
  unfold with_begin, bind, try_except, exec, ret, raise, init_world. simpl.
  destruct (execute Begin db) as [d1 [e|r1]] eqn:H1; simpl.
  { intros s ?%list_elem_of_singleton Hc. by subst s. }
  destruct (execute (EnableRLS schema table) d1) as [d2 [e|r2]] eqn:H2; simpl.
  { destruct (execute Rollback d2) as [d3 [e'|r3]]; simpl;
      intros s Hs Hc; repeat (apply elem_of_cons in Hs as [->|Hs]; try discriminate Hc);
      by apply elem_of_nil in Hs. }
  destruct (execute (SelectPolicy schema table (policy_name table)) d2)
    as [d3 [e|rows]] eqn:H3; simpl.
  { destruct (execute Rollback d3) as [d4 [e'|r4]]; simpl;
      intros s Hs Hc; repeat (apply elem_of_cons in Hs as [->|Hs]; try discriminate Hc);
      by apply elem_of_nil in Hs. }
  case_bool_decide as Hrows; simpl.
  - destruct rows as [|row rows]; [|done].
    destruct (execute (CreatePolicy schema table (policy_name table)) d3)
      as [d4 [e|r4]] eqn:H4; simpl.
    + destruct (execute Rollback d4) as [d5 [e'|r5]]; simpl;
        intros s Hs Hc;
        repeat (apply elem_of_cons in Hs as [->|Hs]; try discriminate Hc);
        try (by apply elem_of_nil in Hs);
        (split; [done|]);
        exists [Begin; EnableRLS schema table], [Rollback], d2, d3; by split.
    + destruct (execute Commit d4) as [d5 [e|r5]] eqn:H5; simpl.
      * destruct (execute Rollback d5) as [d6 [e'|r6]]; simpl;
          intros s Hs Hc;
          repeat (apply elem_of_cons in Hs as [->|Hs]; try discriminate Hc);
          try (by apply elem_of_nil in Hs);
          (split; [done|]);
          exists [Begin; EnableRLS schema table], [Commit; Rollback], d2, d3; by split.
      * intros s Hs Hc;
          repeat (apply elem_of_cons in Hs as [->|Hs]; try discriminate Hc);
          try (by apply elem_of_nil in Hs);
          (split; [done|]);
          exists [Begin; EnableRLS schema table], [Commit], d2, d3; by split.
  - destruct (execute Commit d3) as [d5 [e|r5]] eqn:H5; simpl.
    + destruct (execute Rollback d5) as [d6 [e'|r6]]; simpl;
        intros s Hs Hc;
        repeat (apply elem_of_cons in Hs as [->|Hs]; try discriminate Hc);
        by apply elem_of_nil in Hs.
    + intros s Hs Hc;
        repeat (apply elem_of_cons in Hs as [->|Hs]; try discriminate Hc);
        by apply elem_of_nil in Hs.
Qed.

Lemma union_singleton_absorb `{Countable A} (x : A) (X : gset A) :
  x ∈ X → {[x]} ∪ X = X.
Proof.
  intros Hx. apply leibniz_equiv, set_equiv. intros y.
  rewrite elem_of_union, elem_of_singleton. split; [by intros [->|?]|by right].
Qed.

(** The policy step on the catalogue model, when the table exists: it
    succeeds, enables row-level security, and creates the policy unless the
    catalogue already had it. *)
Lemma pg_run_table (pg : PG) (schema table : string) :
  (schema, table) ∈ cat_tables (pg_cur pg) →
  let policy := (schema, table, policy_name table) in
  let had := bool_decide (policy ∈ cat_policies (pg_cur pg)) in
  create_views_and_policies pg_execute schema table (init_world pg)
  = (mkWorld
       (mkPG (mkCatalog (cat_tables (pg_cur pg)) ({[(schema, table)]} ∪ cat_rls (pg_cur pg))
                (if had then cat_policies (pg_cur pg)
                 else {[policy]} ∪ cat_policies (pg_cur pg))) None)
       ([Begin; EnableRLS schema table; SelectPolicy schema table (policy_name table)]
          ++ (if had then [] else [CreatePolicy schema table (policy_name table)])
          ++ [Commit]) [] [],
     inr ()).
Proof.
  intros Ht policy had. subst policy had.
  destruct pg as [[tables rls policies] saved].
  unfold create_views_and_policies, with_begin, bind, try_except, exec, ret, raise,
    init_world.
  cbn [CREATE_GEOJSON_VIEW CREATE_REPROJECTED_VIEW_4326 APPLY_RLS_AND_GRANT
       pg_execute pg_cur pg_saved cat_tables cat_rls cat_policies
       w_db w_trace w_log w_written fst snd app] in *.
  rewrite (bool_decide_eq_true_2 _ Ht).
  cbn [pg_execute pg_cur pg_saved cat_tables cat_rls cat_policies
       w_db w_trace w_log w_written fst snd app].
  destruct (decide ((schema, table, policy_name table) ∈ policies)) as [Hp|Hp].
  - rewrite !(bool_decide_eq_true_2 _ Hp).
    cbn [head bool_decide decide_rel pg_execute pg_cur pg_saved cat_tables cat_rls
         cat_policies w_db w_trace w_log w_written fst snd app].
    reflexivity.
  - rewrite !(bool_decide_eq_false_2 _ Hp).
    cbn [head pg_execute pg_cur pg_saved cat_tables cat_rls
         cat_policies w_db w_trace w_log w_written fst snd app].
    rewrite (bool_decide_eq_true_2 (None = None) eq_refl).
    cbn [pg_execute pg_cur pg_saved cat_tables cat_rls
         cat_policies w_db w_trace w_log w_written fst snd app].
    rewrite (bool_decide_eq_true_2 _ Ht), (bool_decide_eq_false_2 _ Hp).
    reflexivity.
Qed.

(** Without the table the step fails (at the [ALTER TABLE]). *)
Lemma pg_run_no_table (pg : PG) (schema table : string) :
  (schema, table) ∉ cat_tables (pg_cur pg) →
  ∃ e, (create_views_and_policies pg_execute schema table (init_world pg)).2 = inl e.
Proof.
  intros Ht. destruct pg as [[tables rls policies] saved].
  unfold create_views_and_policies, with_begin, bind, try_except, exec, ret, raise,
    init_world.
  cbn [CREATE_GEOJSON_VIEW CREATE_REPROJECTED_VIEW_4326 APPLY_RLS_AND_GRANT
       pg_execute pg_cur pg_saved cat_tables cat_rls cat_policies
       w_db w_trace w_log w_written fst snd app] in *.
  rewrite (bool_decide_eq_false_2 _ Ht). by eexists.
Qed.

(** C9. On the catalogue model: once the policy step has succeeded on a
    table, running it again on the resulting database succeeds too, sends
    the existence query and no [CREATE POLICY], and leaves the database as
    it was, with the policy of the expected name in place; in the first run
    any [CREATE POLICY] comes right after the query on [pg_policies] for
    that name. *)
Theorem policy_step_idempotent (pg : PG) (schema table : string) :
  let run1 := create_views_and_policies pg_execute schema table (init_world pg) in
  run1.2 = inr () →
  let pg1 := w_db run1.1 in
  let run2 := create_views_and_policies pg_execute schema table (init_world pg1) in
  let policy := policy_name table in
  run2.2 = inr () ∧
  w_trace run2.1
    = [Begin; EnableRLS schema table; SelectPolicy schema table policy; Commit] ∧
  w_db run2.1 = pg1 ∧
  (schema, table, policy) ∈ cat_policies (pg_cur pg1) ∧
  (∀ s, s ∈ w_trace run1.1 → is_create_policy s = true →
     ∃ pre post, w_trace run1.1 = pre ++ [SelectPolicy schema table policy; s] ++ post).
Proof.
  intros run1 Hok pg1 run2 policy.
  assert (Hchk : ∀ s, s ∈ w_trace run1.1 → is_create_policy s = true →
     ∃ pre post, w_trace run1.1 = pre ++ [SelectPolicy schema table policy; s] ++ post).
  { intros s Hs Hc.
    destruct (policy_checked_before_create pg_execute pg schema table s Hs Hc)
      as (_ & pre & post & _ & _ & Htr & _). by exists pre, post. }
  assert (Ht : (schema, table) ∈ cat_tables (pg_cur pg)).
  { destruct (decide ((schema, table) ∈ cat_tables (pg_cur pg))) as [|Hn]; [done|].
    destruct (pg_run_no_table pg schema table Hn) as [e He].
    subst run1. rewrite He in Hok. discriminate. }
  assert (Hp1 : (schema, table, policy) ∈ cat_policies (pg_cur pg1)).
  { subst pg1 run1. rewrite (pg_run_table pg schema table Ht). simpl.
    case_bool_decide; [done|]. apply elem_of_union. left. by apply elem_of_singleton. }
  assert (Ht1 : (schema, table) ∈ cat_tables (pg_cur pg1)).
  { subst pg1 run1. by rewrite (pg_run_table pg schema table Ht). }
  subst run2. rewrite (pg_run_table pg1 schema table Ht1).
  fold policy. rewrite (bool_decide_eq_true_2 _ Hp1). simpl.
  split; [done|]. split; [done|]. split; [|by split].
  subst pg1 run1. rewrite (pg_run_table pg schema table Ht). simpl.
  f_equal. f_equal. apply union_singleton_absorb.
  apply elem_of_union. left. by apply elem_of_singleton.
Qed.

(** Two runs in a row on a fresh table both succeed. *)
Lemma policy_step_idempotent_witness :
  let run1 := create_views_and_policies pg_execute "public" "zones" (init_world fresh_pg) in
  run1.2 = inr () ∧
  (create_views_and_policies pg_execute "public" "zones" (init_world (w_db run1.1))).2
    = inr ().
Proof.
  assert ((create_views_and_policies pg_execute "public" "zones"
             (init_world fresh_pg)).2 = inr ()) as H1 by (vm_compute; reflexivity).
  split; [exact H1|].
  apply (policy_step_idempotent fresh_pg "public" "zones" H1).
Defined.

Example policy_step_traces :
  let run1 := create_views_and_policies pg_execute "public" "zones" (init_world fresh_pg) in
  let run2 :=
    create_views_and_policies pg_execute "public" "zones" (init_world (w_db run1.1)) in
  w_trace run1.1 =
    [Begin; EnableRLS "public" "zones"; SelectPolicy "public" "zones" "read_zones_anon";
     CreatePolicy "public" "zones" "read_zones_anon"; Commit] ∧
  w_trace run2.1 =
    [Begin; EnableRLS "public" "zones"; SelectPolicy "public" "zones" "read_zones_anon";
     Commit].
Proof. by vm_compute. Qed.

(** * Further properties *)

(** ** The normalizer: empty results, ends, fixed points *)

Lemma sub_runs_forallb (p q : ascii → bool) (r : ascii) (b : bool) (s : list ascii) :
  q r = true →
  forallb q (sub_runs_from p r b s) = true ↔
  (∀ c, c ∈ s → p c = false → q c = true).
Proof.
  intros Hr. split.
  - revert b. induction s as [|c s IH]; intros b; simpl.
    { by intros _ c ?%not_elem_of_nil. }
    destruct (p c) eqn:Hp.
    + intros H c' [->|Hin]%elem_of_cons Hc'; [congruence|].
      destruct b; simpl in H; [by eapply IH|].
      apply andb_true_iff in H as [_ H]. by eapply IH.
    + simpl. intros [Hq H]%andb_true_iff c' [->|Hin]%elem_of_cons Hc'; [done|].
      by eapply IH.
  - intros H. apply sub_runs_class; [done|]. intros c ? ?. by apply H.
Qed.

Lemma sub_runs_keeps (p : ascii → bool) (r : ascii) (b : bool) (s : list ascii)
    (c : ascii) :
  p c = false → c ∈ s → c ∈ sub_runs_from p r b s.
Proof.
  intros Hp. revert b. induction s as [|c' s IH]; intros b Hc;
    [by apply not_elem_of_nil in Hc|].
  simpl. apply elem_of_cons in Hc as [<-|Hc].
  - rewrite Hp. by left.
  - destruct (p c'); [destruct b|]; try right; by apply IH.
Qed.

Lemma lstrip_nil (p : ascii → bool) (s : list ascii) :
  lstrip p s = [] ↔ forallb p s = true.
Proof.
  induction s as [|c s IH]; simpl; [done|].
  destruct (p c); simpl; [done|]. split; discriminate.
Qed.

Lemma forallb_reverse (p : ascii → bool) (s : list ascii) :
  forallb p (reverse s) = forallb p s.
Proof.
  induction s as [|c s IH]; [done|].
  rewrite reverse_cons, forallb_app, IH. simpl. rewrite andb_true_r. apply andb_comm.
Qed.

Lemma strip_nil (p : ascii → bool) (s : list ascii) :
  strip p s = [] ↔ forallb p s = true.
Proof.
  unfold strip, rstrip. split.
  - intros H. apply (f_equal reverse) in H. rewrite reverse_involutive in H.
    apply lstrip_nil in H. rewrite forallb_reverse in H.
    destruct (lstrip_suffix p s) as [k Hk].
    destruct (forallb p s) eqn:Hs; [done|].
    assert (forallb p k = true) as Hpk.
    { clear -Hk. revert k Hk. induction s as [|c s IH]; intros k Hk; simpl in *.
      - by destruct k.
      - destruct (p c) eqn:Hc.
        + destruct k as [|c' k].
          * simpl in Hk. pose proof (f_equal length Hk) as Hl.
            pose proof (lstrip_suffix p s) as [k' Hk'].
            rewrite Hk' in Hl at 1. simpl in Hl. rewrite length_app in Hl. lia.
          * injection Hk as <- Hk. simpl. rewrite Hc. by apply IH.
        + destruct k; [done|]. pose proof (f_equal length Hk) as Hl.
          simpl in Hl. rewrite length_app in Hl. simpl in Hl. lia. }
    rewrite Hk, forallb_app, Hpk, H in Hs. done.
  - intros H. apply lstrip_nil in H. rewrite H. done.
Qed.

Lemma take_nil_iff (n : nat) (s : list ascii) : 0 < n → take n s = [] ↔ s = [].
Proof. intros Hn. destruct s, n; simpl; try lia; done. Qed.

Lemma str_nil_iff (l : list ascii) : str l = "" ↔ l = [].
Proof. destruct l; simpl; split; done. Qed.

Lemma ident_char_split (c : ascii) :
  ident_char c = true ↔ is_alnum c = true ∨ is_underscore c = true.
Proof. unfold ident_char, is_alnum. rewrite !orb_true_iff. tauto. Qed.

Lemma alnum_not_underscore (c : ascii) : is_alnum c = true → is_underscore c = false.
Proof.
  intros H. destruct (is_underscore c) eqn:Hu; [|done].
  apply is_underscore_true in Hu as ->. done.
Qed.

(** X1. [slugify] returns the empty string exactly when the lower-cased
    name has no letter [a-z] and no digit; on every other name the result
    is non-empty.  So [slugify(c) or "col"] is "col" exactly for those
    names, and never empty. *)
Theorem slugify_empty_iff (str_lower : string → string) (name : string) :
  (slugify str_lower name = "" ↔
   ∀ c, c ∈ chars (str_lower name) → is_alnum c = false) ∧
  (slug_or_col str_lower name = "col" ↔
   slugify str_lower name = "" ∨ slugify str_lower name = "col") ∧
  slug_or_col str_lower name ≠ "".
Proof.
  split; [|split].
  - unfold slugify. rewrite str_nil_iff, take_nil_iff by (unfold PG_NAME_MAXLEN; lia).
    rewrite strip_nil. unfold re_sub_runs.
    rewrite (sub_runs_forallb is_underscore is_underscore) by done.
    split.
    + intros H c Hc. destruct (is_alnum c) eqn:Ha; [|done].
      assert (ident_char c = true) as Hid by (apply ident_char_split; by left).
      assert (c ∈ sub_runs_from (λ c, negb (ident_char c)) "_" false
                    (chars (str_lower name))) as Hin.
      { apply sub_runs_keeps; [by rewrite Hid|done]. }
      destruct (is_underscore c) eqn:Hu.
      * by rewrite (alnum_not_underscore c Ha) in Hu.
      * by rewrite (H c Hin Hu) in Hu.
    + intros H c Hc Hu. exfalso.
      assert (forallb (λ c, negb (is_alnum c))
                (sub_runs_from (λ c, negb (ident_char c)) "_" false
                   (chars (str_lower name))) = true) as Hall.
      { apply sub_runs_class; [done|]. intros c' _ Hc'. by rewrite (H c' Hc'). }
      pose proof (proj1 (forallb_forall _ _) Hall c (proj1 (list_elem_of_In _ _) Hc))
        as Hna.
      assert (forallb ident_char
                (sub_runs_from (λ c, negb (ident_char c)) "_" false
                   (chars (str_lower name))) = true) as Hid.
      { apply sub_runs_class; [done|]. intros c' Hc' _. by apply negb_false_iff. }
      pose proof (proj1 (forallb_forall _ _) Hid c (proj1 (list_elem_of_In _ _) Hc))
        as Hic.
      apply ident_char_split in Hic as [Ha|Hu']; [|congruence].
      simpl in Hna. by rewrite Ha in Hna.
  - unfold slug_or_col. case_decide as He; [tauto|].
    split; [by right|]. by intros [?|?].
  - unfold slug_or_col. by case_decide.
Qed.

Lemma last_reverse_head (s : list ascii) : last (reverse s) = head s.
Proof. by rewrite <-head_reverse, reverse_involutive. Qed.

Lemma rstrip_last (p : ascii → bool) (s : list ascii) (c : ascii) :
  last (rstrip p s) = Some c → p c = false.
Proof. unfold rstrip. rewrite last_reverse_head. apply lstrip_head. Qed.

Lemma lstrip_length (p : ascii → bool) (s : list ascii) :
  length (lstrip p s) ≤ length s.
Proof.
  destruct (lstrip_suffix p s) as [k Hk]. rewrite Hk at 2. rewrite length_app. lia.
Qed.

Lemma rstrip_shorter (p : ascii → bool) (s : list ascii) (c : ascii) :
  last s = Some c → p c = true → length (rstrip p s) < length s.
Proof.
  intros Hl Hp. unfold rstrip. rewrite length_reverse.
  rewrite <-head_reverse in Hl. rewrite <-(length_reverse s).
  destruct (reverse s) as [|c' l]; [done|]. injection Hl as ->.
  simpl. rewrite Hp. pose proof (lstrip_length p l). lia.
Qed.

(** X2. The output of [slugify] never starts with an underscore, and it
    ends with one only when the cut at 63 characters made it so: an output
    that ends in an underscore is exactly 63 characters long. *)
Theorem slugify_ends (str_lower : string → string) (name : string) :
  head (chars (slugify str_lower name)) ≠ Some "_"%char ∧
  (last (chars (slugify str_lower name)) = Some "_"%char →
   length (chars (slugify str_lower name)) = 63).
Proof.
  split.
  - intros H. by apply slugify_head in H.
  - unfold slugify. rewrite chars_str.
    set (t := strip is_underscore _). intros Hlast.
    destruct (decide (length t ≤ 63)) as [Hle|Hgt].
    + rewrite take_ge in Hlast by (unfold PG_NAME_MAXLEN; lia).
      unfold t, strip in Hlast. by apply rstrip_last in Hlast.
    + rewrite length_take. unfold PG_NAME_MAXLEN. lia.
Qed.

(** A name in normal form is left as it is. *)
Lemma slugify_normal_fixed (str_lower : string → string) (name : string) :
  (∀ s, re_match_ident s = true → str_lower s = s) →
  normal_name name → slugify str_lower name = name.
Proof.
  intros Hlow (Hre & Hdbl & Hhead & Hlast).
  unfold slugify. rewrite (Hlow name Hre).
  unfold re_match_ident in Hre. apply andb_true_iff in Hre as [Hid Hlen].
  apply Nat.leb_le in Hlen. unfold has_double_underscore in Hdbl.
  unfold re_sub_runs.
  rewrite (sub_runs_none (λ c, negb (ident_char c)) "_" false (chars name)).
  2:{ clear -Hid. induction (chars name) as [|c l IH]; [done|]. simpl in *.
      apply andb_true_iff in Hid as [-> ?]. simpl. by apply IH. }
  rewrite collapse_fixed by done.
  unfold strip. rewrite lstrip_fixed, rstrip_fixed.
  - rewrite take_ge by (unfold PG_NAME_MAXLEN; lia). apply str_chars.
  - intros c Hc. destruct (is_underscore c) eqn:Hu; [|done].
    apply is_underscore_true in Hu as ->. done.
  - intros c Hc. destruct (is_underscore c) eqn:Hu; [|done].
    apply is_underscore_true in Hu as ->. done.
Qed.

(** X3. When lower-casing leaves identifier text alone (as [str.lower]
    does), the names [slugify] returns unchanged are exactly the names in
    normal form: characters of [[a-z0-9_]], at most 63, no doubled
    underscore, no underscore at either end. *)
Theorem slugify_fixed_points (str_lower : string → string) (name : string) :
  (∀ s, re_match_ident s = true → str_lower s = s) →
  slugify str_lower name = name ↔ normal_name name.
Proof.
  intros Hlow. split; [|by apply slugify_normal_fixed].
  intros Hfix.
  destruct (slugify_chars str_lower name) as (s & Hs & Hid0 & Hdbl0).
  pose proof (slug_body_factor PG_NAME_MAXLEN s) as Hf. rewrite <-Hs in Hf.
  pose proof (factor_forallb _ _ _ Hf Hid0) as Hid.
  pose proof (factor_no_double _ _ Hf Hdbl0) as Hdbl.
  assert (length (chars (slugify str_lower name)) ≤ 63) as Hlen.
  { rewrite Hs, length_take. unfold PG_NAME_MAXLEN. lia. }
  pose proof (slugify_head str_lower name) as Hhead.
  rewrite Hfix in Hid, Hdbl, Hlen, Hhead. clear Hs Hf Hid0 Hdbl0 s.
  assert (re_match_ident name = true) as Hre.
  { unfold re_match_ident. rewrite Hid. by apply Nat.leb_le. }
  split; [done|]. split; [done|]. split.
  { intros H. by apply Hhead in H. }
  intros Hlast.
  assert (length (chars (slugify str_lower name)) < length (chars name)) as Hlt;
    [|rewrite Hfix in Hlt; lia].
  unfold slugify. rewrite (Hlow name Hre), chars_str, length_take.
  unfold re_sub_runs.
  rewrite (sub_runs_none (λ c, negb (ident_char c)) "_" false (chars name)).
  2:{ clear -Hid. induction (chars name) as [|c l IH]; [done|]. simpl in *.
      apply andb_true_iff in Hid as [-> ?]. simpl. by apply IH. }
  rewrite collapse_fixed by done.
  unfold strip. rewrite (lstrip_fixed _ _ Hhead).
  pose proof (rstrip_shorter is_underscore (chars name) "_" Hlast eq_refl). lia.
Qed.

Lemma slugify_fixed_points_witness :
  normal_name "zones_ppri_2019" ∧
  slugify ascii_lower "zones_ppri_2019" = "zones_ppri_2019".
Proof.
  assert (normal_name "zones_ppri_2019") as Hn.
  { unfold normal_name. repeat split; done. }
  split; [exact Hn|].
  apply (slugify_fixed_points ascii_lower "zones_ppri_2019" ascii_lower_ident), Hn.
Defined.

(** ** The column sanitizer: distinct names, their shape *)

Section SanitizeMore.
Variable str_lower : string → string.

(** The name a step gives to an attribute column is new and is not
    "geometry". *)
Lemma sanitize_step_fresh (cols : list string) (seen : gset string) (c : string) :
  seen_inv (cols, seen) →
  ∃ name seen',
    sanitize_step str_lower (cols, seen) c = Some (cols ++ [name], seen') ∧
    seen_inv (cols ++ [name], seen') ∧
    (c = "geometry" → name = "geometry") ∧
    (c ≠ "geometry" → name ≠ "geometry" ∧ (name ∉ seen) ∧
       (name = slug_or_col str_lower c ∨ ∃ i, name = suffixed (slug_or_col str_lower c) i)).
Proof.
  intros Hinv.
  destruct (sanitize_step_spec str_lower cols seen c Hinv)
    as (name & seen' & Hstep & Hinv' & Hgeo & Hother).
  exists name, seen'. do 3 (split; [done|]).
  intros Hc. destruct (Hother Hc) as [[Hfree ->]|[_ (i & _ & -> & Hnew & _)]].
  - unfold blocked in Hfree. split; [tauto|]. split; [tauto|by left].
  - split; [apply suffixed_not_geometry|]. split; [done|]. right. by exists i.
Qed.

Lemma sanitize_loop_distinct (cs : list string) :
  ∃ cols seen,
    sanitize_loop str_lower ([], ∅) cs = Some (cols, seen) ∧
    seen_inv (cols, seen) ∧ length cols = length cs ∧
    (∀ i, cols !! i = Some "geometry" ↔ cs !! i = Some "geometry") ∧
    (∀ i j x, i ≠ j → cols !! i = Some x → cols !! j = Some x → x = "geometry").
Proof.
  induction cs as [|c cs IH] using rev_ind.
  - exists [], ∅. split; [done|]. split.
    { intros x. unfold used_in. simpl. split; [by intros ?%not_elem_of_empty|].
      by intros [?%not_elem_of_nil _]. }
    split; [done|]. split; [done|]. by intros i j x _ ?.
  - destruct IH as (cols & seen & Hrun & Hinv & Hlen & Hgeo & Hdist).
    destruct (sanitize_step_fresh cols seen c Hinv)
      as (name & seen' & Hstep & Hinv' & Hg & Hfresh).
    exists (cols ++ [name]), seen'.
    rewrite sanitize_loop_snoc, Hrun. unfold mbind, option_bind. rewrite Hstep.
    split; [done|]. split; [done|].
    split; [rewrite !length_app; simpl; lia|].
    assert (Hname : name = "geometry" ↔ c = "geometry").
    { split; [|done]. intros ->. destruct (decide (c = "geometry")) as [|Hc]; [done|].
      by destruct (Hfresh Hc) as [? _]. }
    split.
    + intros i. destruct (decide (i < length cols)) as [Hi|Hi].
      * rewrite !lookup_app_l by lia. apply Hgeo.
      * destruct (decide (i = length cols)) as [->|Hne].
        -- rewrite list_lookup_middle by done.
           rewrite Hlen, list_lookup_middle by done.
           split; intros [= H]; f_equal; by apply Hname.
        -- rewrite !lookup_ge_None_2 by (rewrite length_app; simpl; lia). done.
    + assert (Hlast : ∀ i x, i < length cols → cols !! i = Some x → x = name →
                x = "geometry").
      { intros i x Hi Hx ->. destruct (decide (name = "geometry")) as [|Hng]; [done|].
        assert (c ≠ "geometry") as Hc by (intros ?%Hname; done).
        destruct (Hfresh Hc) as (_ & Hnew & _). destruct Hnew.
        apply (Hinv name). split; [|done]. apply list_elem_of_lookup. by exists i. }
      intros i j x Hij Hi Hj.
      pose proof (lookup_lt_Some _ _ _ Hi) as Hil.
      pose proof (lookup_lt_Some _ _ _ Hj) as Hjl.
      rewrite length_app in Hil, Hjl. simpl in Hil, Hjl.
      destruct (decide (i < length cols)) as [Hi'|Hi'];
        destruct (decide (j < length cols)) as [Hj'|Hj'].
      * rewrite lookup_app_l in Hi, Hj by done. by apply (Hdist i j).
      * assert (j = length cols) as -> by lia.
        rewrite lookup_app_l in Hi by done.
        rewrite list_lookup_middle in Hj by done. injection Hj as <-.
        by apply (Hlast i).
      * assert (i = length cols) as -> by lia.
        rewrite lookup_app_l in Hj by done.
        rewrite list_lookup_middle in Hi by done. injection Hi as <-.
        by apply (Hlast j).
      * lia.
Qed.

End SanitizeMore.

(** X4. The sanitizer keeps the geometry column where it was and gives
    every other column a name of its own: a name is "geometry" exactly at
    the positions of the columns named "geometry", and two different
    positions carry the same name only if that name is "geometry". *)
Theorem sanitize_names_distinct (str_lower : string → string) (cs : list string) :
  ∃ out,
    sanitize_names str_lower cs = Some out ∧ length out = length cs ∧
    (∀ i, out !! i = Some "geometry" ↔ cs !! i = Some "geometry") ∧
    (∀ i j x, i ≠ j → out !! i = Some x → out !! j = Some x → x = "geometry").
Proof.
  destruct (sanitize_loop_distinct str_lower cs)
    as (cols & seen & Hrun & _ & Hlen & Hgeo & Hdist).
  exists cols. unfold sanitize_names. rewrite Hrun.
  split; [done|]. split; [done|]. split; [exact Hgeo|exact Hdist].
Qed.

Lemma pretty_N_char_digit (x : N) : is_digit (pretty_N_char x) = true.
Proof. unfold pretty_N_char. by repeat case_match. Qed.

Lemma pretty_N_go_digits (x : N) (s : string) :
  forallb is_digit (chars s) = true →
  forallb is_digit (chars (pretty_N_go x s)) = true.
Proof.
  revert s. induction (N.lt_wf_0 x) as [x _ IH]; intros s Hs.
  destruct (decide (x = 0%N)) as [->|Hx]; [by rewrite pretty_N_go_0|].
  rewrite pretty_N_go_step by lia. apply IH.
  - apply N.div_lt; lia.
  - unfold chars in *. simpl. by rewrite pretty_N_char_digit, Hs.
Qed.

Lemma pretty_N_go_nonempty (x : N) (s : string) : s ≠ "" → pretty_N_go x s ≠ "".
Proof.
  revert s. induction (N.lt_wf_0 x) as [x _ IH]; intros s Hs.
  destruct (decide (x = 0%N)) as [->|Hx]; [by rewrite pretty_N_go_0|].
  rewrite pretty_N_go_step by lia. apply IH; [apply N.div_lt; lia|done].
Qed.

Lemma pretty_nat_digits (n : nat) :
  forallb is_digit (chars (pretty n)) = true ∧ pretty n ≠ "".
Proof.
  unfold pretty, pretty_nat, pretty, pretty_N.
  case_decide as Hn; [done|]. split; [by apply pretty_N_go_digits|].
  rewrite pretty_N_go_step by lia. by apply pretty_N_go_nonempty.
Qed.

Lemma digit_ident (c : ascii) : is_digit c = true → ident_char c = true.
Proof. unfold ident_char. intros ->. by rewrite orb_true_r. Qed.

(** A non-empty string over [[a-z0-9_]]. *)
Lemma suffixed_ident (base : string) (i : nat) :
  forallb ident_char (chars base) = true →
  forallb ident_char (chars (suffixed base i)) = true ∧ suffixed base i ≠ "".
Proof.
  intros Hb. unfold suffixed. split.
  - rewrite !chars_app, !forallb_app, Hb. simpl.
    destruct (pretty_nat_digits i) as [Hd _].
    clear -Hd. induction (chars (pretty i)) as [|c l IH]; [done|]. simpl in *.
    apply andb_true_iff in Hd as [Hc Hl]. by rewrite (digit_ident c Hc), IH.
  - intros H. apply (f_equal chars) in H. rewrite !chars_app in H.
    by destruct (chars base).
Qed.

Lemma slug_or_col_ident (str_lower : string → string) (c : string) :
  forallb ident_char (chars (slug_or_col str_lower c)) = true ∧
  slug_or_col str_lower c ≠ "" ∧
  length (chars (slug_or_col str_lower c)) ≤ 63.
Proof.
  unfold slug_or_col. case_decide as He.
  { split; [done|]. split; [done|]. simpl. lia. }
  destruct (slugify_chars str_lower c) as (s & Hs & Hid0 & _).
  pose proof (slug_body_factor PG_NAME_MAXLEN s) as Hf. rewrite <-Hs in Hf.
  split; [by apply (factor_forallb _ _ _ Hf)|]. split; [done|].
  rewrite Hs, length_take. unfold PG_NAME_MAXLEN. lia.
Qed.

(** X5. Every name the sanitizer gives to a column other than the geometry
    column is a non-empty string over [[a-z0-9_]]: the column's normalized
    name or "col", possibly followed by an underscore and a decimal
    number. *)
Theorem sanitize_names_shape (str_lower : string → string) (cs : list string) :
  ∃ out,
    sanitize_names str_lower cs = Some out ∧
    ∀ i c x, cs !! i = Some c → out !! i = Some x → c ≠ "geometry" →
      x ≠ "" ∧ forallb ident_char (chars x) = true ∧
      (x = slug_or_col str_lower c ∨
       ∃ k, 2 ≤ k ∧ x = suffixed (slug_or_col str_lower c) k).
Proof.
  unfold sanitize_names.
  induction cs as [|c cs IH] using rev_ind.
  - exists []. split; [done|]. by intros i c x ?.
  - destruct (sanitize_loop_spec str_lower cs) as (cols & seen & Hrun & Hinv & Hlen).
    destruct IH as (out & Hout & IH). rewrite Hrun in Hout. injection Hout as <-.
    destruct (sanitize_step_spec str_lower cols seen c Hinv)
      as (name & seen' & Hstep & _ & _ & Hother).
    exists (cols ++ [name]).
    rewrite sanitize_loop_snoc, Hrun. unfold mbind, option_bind. rewrite Hstep.
    split; [done|]. intros i c' x Hc' Hx Hng.
    destruct (decide (i < length cs)) as [Hi|Hi].
    + rewrite lookup_app_l in Hc' by done.
      rewrite lookup_app_l in Hx by lia. by apply (IH i).
    + pose proof (lookup_lt_Some _ _ _ Hc') as Hil.
      rewrite length_app in Hil. simpl in Hil.
      assert (i = length cs) as -> by lia.
      rewrite list_lookup_middle in Hc' by done. injection Hc' as <-.
      rewrite <-Hlen, list_lookup_middle in Hx by done. injection Hx as <-.
      destruct (slug_or_col_ident str_lower c) as (Hid & Hne & _).
      destruct (Hother Hng) as [[_ ->]|[_ (k & Hk & -> & _)]].
      * split; [done|]. split; [done|by left].
      * destruct (suffixed_ident (slug_or_col str_lower c) k Hid) as [? ?].
        split; [done|]. split; [done|]. right. by exists k.
Qed.

Lemma chars_length_app (a b : string) :
  length (chars (a +:+ b)) = length (chars a) + length (chars b).
Proof. by rewrite chars_app, length_app. Qed.

Lemma suffixed_ne_base (base : string) (i : nat) : suffixed base i ≠ base.
Proof.
  intros H. apply (f_equal (λ s, length (chars s))) in H.
  unfold suffixed in H. rewrite !chars_length_app in H. simpl in H. lia.
Qed.

(** X6. The numeric suffix is added after the cut at 63 characters and the
    result is not cut again: when a column label occurs twice, the second
    occurrence is named [base_2], two characters longer than [base], so a
    63-character base gives a 65-character name. *)
Theorem suffix_not_truncated (str_lower : string → string) (c : string) :
  c ≠ "geometry" → slug_or_col str_lower c ≠ "geometry" →
  let base := slug_or_col str_lower c in
  sanitize_names str_lower [c; c] = Some [base; suffixed base 2] ∧
  length (chars (suffixed base 2)) = length (chars base) + 2.
Proof.
  intros Hc Hb base. split.
  - assert (seen_inv ([], ∅)) as Hinv0.
    { intros x. unfold used_in. simpl. split; [by intros ?%not_elem_of_empty|].
      by intros [?%not_elem_of_nil _]. }
    destruct (sanitize_step_spec str_lower [] ∅ c Hinv0)
      as (n1 & seen1 & Hstep1 & Hinv1 & _ & Hother1).
    assert (n1 = base) as ->.
    { destruct (Hother1 Hc) as [[_ ->]|[[Hin|Hg] _]]; [done| |done].
      by apply not_elem_of_empty in Hin. }
    destruct (sanitize_step_spec str_lower [base] seen1 c Hinv1)
      as (n2 & seen2 & Hstep2 & _ & _ & Hother2).
    assert (Hseen1 : ∀ x, x ∈ seen1 ↔ x = base ∧ x ≠ "geometry").
    { intros x. rewrite (Hinv1 x). unfold used_in. simpl.
      by rewrite list_elem_of_singleton. }
    assert (n2 = suffixed base 2) as ->.
    { destruct (Hother2 Hc) as [[Hfree _]|[_ (k & Hk & -> & _ & Hbelow)]].
      - destruct Hfree. left. by apply Hseen1.
      - destruct (decide (k = 2)) as [->|Hne]; [done|].
        assert (suffixed base 2 ∈ seen1) as [Hin _]%Hseen1 by (apply Hbelow; lia).
        by apply suffixed_ne_base in Hin. }
    unfold sanitize_names.
    change [c; c] with ([c] ++ [c]). rewrite sanitize_loop_snoc.
    change [c] with ([] ++ [c]) at 1. rewrite sanitize_loop_snoc.
    cbn [sanitize_loop mbind option_bind]. rewrite Hstep1.
    cbn [mbind option_bind app]. rewrite Hstep2. done.
  - unfold suffixed. rewrite !chars_length_app. simpl. lia.
Qed.

Lemma suffix_not_truncated_witness :
  length (chars (slug_or_col ascii_lower long_label)) = 63 ∧
  sanitize_names ascii_lower [long_label; long_label]
    = Some [long_label; long_label +:+ "_2"] ∧
  length (chars (long_label +:+ "_2")) = 65.
Proof.
  assert (long_label ≠ "geometry") as H1 by discriminate.
  assert (slug_or_col ascii_lower long_label ≠ "geometry") as H2 by (by vm_compute).
  destruct (suffix_not_truncated ascii_lower long_label H1 H2) as [Hrun _].
  split; [reflexivity|]. split; [exact Hrun|reflexivity].
Defined.

(** ** The two ways of naming a table *)

Lemma sub_runs_ext (p q : ascii → bool) (r : ascii) (b : bool) (s : list ascii) :
  (∀ c, c ∈ s → p c = q c) → sub_runs_from p r b s = sub_runs_from q r b s.
Proof.
  revert b. induction s as [|c s IH]; intros b H; simpl; [done|].
  rewrite <-(H c) by left.
  assert (∀ c', c' ∈ s → p c' = q c') as Hs by (intros c' ?; apply H; by right).
  destruct (p c); [destruct b|]; by rewrite IH.
Qed.

Lemma sub_runs_length (p : ascii → bool) (r : ascii) (b : bool) (s : list ascii) :
  length (sub_runs_from p r b s) ≤ length s.
Proof.
  revert b. induction s as [|c s IH]; intros b; simpl; [done|].
  destruct (p c); [destruct b|]; simpl;
    [pose proof (IH true)|pose proof (IH true)|pose proof (IH false)]; lia.
Qed.

Lemma ascii_lower_char_no_upper (c : ascii) : is_upper_AZ (ascii_lower_char c) = false.
Proof. destruct c as [[] [] [] [] [] [] [] []]; by vm_compute. Qed.

Lemma ascii_lower_no_upper (s : string) (c : ascii) :
  c ∈ chars (ascii_lower s) → is_upper_AZ c = false.
Proof.
  unfold ascii_lower. rewrite chars_str. intros (c' & -> & _)%list_elem_of_fmap.
  apply ascii_lower_char_no_upper.
Qed.

(** X7. The upload path's default table name keeps the lower-cased stem
    except that each run of characters outside [[A-Za-z0-9_]] becomes one
    underscore: it has only characters of that class and is never longer
    than the lower-cased stem, but it is neither stripped nor cut.  When
    lower-casing leaves no capital [A-Z] (as [str.lower] does), the batch
    path's name for the same stem is the upload name with its underscore
    runs collapsed, its ends stripped of underscores, and cut at 63. *)
Theorem table_names_related (str_lower : string → string) (base : string) :
  (∀ c, c ∈ chars (str_lower base) → is_upper_AZ c = false) →
  forallb word_char (chars (default_table_name str_lower base)) = true ∧
  length (chars (default_table_name str_lower base)) ≤ length (chars (str_lower base)) ∧
  slugify str_lower base =
    str (take 63 (strip is_underscore
           (re_sub_runs is_underscore "_"
              (chars (default_table_name str_lower base))))).
Proof.
  intros Hlow. unfold default_table_name. rewrite chars_str. split; [|split].
  - apply sub_runs_class; [done|]. intros c Hc _. by apply negb_false_iff.
  - apply sub_runs_length.
  - unfold slugify, re_sub_runs. f_equal. f_equal. f_equal. f_equal.
    apply sub_runs_ext. intros c Hc. unfold word_char. by rewrite (Hlow c Hc).
Qed.

Lemma table_names_related_witness :
  default_table_name ascii_lower "PPRI_-Zones (2019)" = "ppri__zones_2019_" ∧
  slugify ascii_lower "PPRI_-Zones (2019)" = "ppri_zones_2019" ∧
  slugify ascii_lower "PPRI_-Zones (2019)" =
    str (take 63 (strip is_underscore
           (re_sub_runs is_underscore "_"
              (chars (default_table_name ascii_lower "PPRI_-Zones (2019)"))))).
Proof.
  split; [reflexivity|]. split; [reflexivity|].
  apply (table_names_related ascii_lower "PPRI_-Zones (2019)").
  apply ascii_lower_no_upper.
Defined.

(** ** Batch path: Z detection *)

(** X8. [has_z_any] is true exactly when some geometry of the layer reports
    a Z coordinate: missing geometries and geometries whose [has_z] raises
    are skipped without stopping the scan, and a layer without rows has no
    Z. *)
Theorem has_z_any_spec (geoms_has_z : GeoDataFrame → list (option (exn + bool)))
    (gdf : GeoDataFrame) :
  (has_z_any geoms_has_z gdf = true ↔ Some (inr true) ∈ geoms_has_z gdf) ∧
  (geoms_has_z gdf = [] → has_z_any geoms_has_z gdf = false) ∧
  (∀ pre post, geoms_has_z gdf = pre ++ post →
     has_z_loop (pre ++ None :: post) = has_z_any geoms_has_z gdf ∧
     ∀ e, has_z_loop (pre ++ Some (inl e) :: post) = has_z_any geoms_has_z gdf).
Proof.
  unfold has_z_any. split; [|split].
  - induction (geoms_has_z gdf) as [|g l IH]; simpl.
    { split; [done|by intros ?%not_elem_of_nil]. }
    destruct g as [[e|[]]|]; rewrite ?elem_of_cons, ?IH;
      split; try tauto; try (by left); try (by intros [[=]|?]); by intros _.
  - by intros ->.
  - intros pre post ->.
    assert (∀ g, (g = None ∨ ∃ e, g = Some (inl e)) →
              has_z_loop (pre ++ g :: post) = has_z_loop (pre ++ post)) as H.
    { intros g Hg. induction pre as [|g' pre IH]; simpl.
      - by destruct Hg as [->|[e ->]].
      - destruct g' as [[e|[]]|]; by rewrite ?IH. }
    split; [apply H; by left|]. intros e. apply H. right. by exists e.
Qed.

(** ** Statements sent, by construction of the computation *)

Section EmitsOnly.
Context {DB : Type}.
Variable execute : stmt → DB → DB * (exn + list string).
Variable P : stmt → Prop.

Lemma emits_ret {A} (a : A) : emits_only P (ret (DB:=DB) a).
Proof. intros w. exists []. by rewrite app_nil_r. Qed.

Lemma emits_raise {A} (e : exn) : emits_only P (raise (DB:=DB) (A:=A) e).
Proof. intros w. exists []. by rewrite app_nil_r. Qed.

Lemma emits_lift {A} (r : exn + A) : emits_only P (lift (DB:=DB) r).
Proof. intros w. exists []. by rewrite app_nil_r. Qed.

Lemma emits_logging (lv : level) (msg : string) : emits_only P (logging (DB:=DB) lv msg).
Proof. intros w. exists []. simpl. by rewrite app_nil_r. Qed.

Lemma emits_exec (s : stmt) : P s → emits_only P (exec execute s).
Proof.
  intros Hs w. exists [s]. unfold exec.
  destruct (execute s (w_db w)) as [db' r]. simpl. split; [done|]. by constructor.
Qed.

Lemma emits_bind {A B} (m : M (DB:=DB) A) (k : A → M (DB:=DB) B) :
  emits_only P m → (∀ a, emits_only P (k a)) → emits_only P (bind m k).
Proof.
  intros Hm Hk w. unfold bind. destruct (Hm w) as (n1 & H1 & HP1).
  destruct (m w) as [w' [e|a]]; simpl in *.
  - by exists n1.
  - destruct (Hk a w') as (n2 & H2 & HP2). exists (n1 ++ n2).
    rewrite H2, H1, app_assoc. split; [done|]. by apply Forall_app.
Qed.

Lemma emits_try_except {A} (m : M (DB:=DB) A) (h : exn → M (DB:=DB) A) :
  emits_only P m → (∀ e, emits_only P (h e)) → emits_only P (try_except m h).
Proof.
  intros Hm Hh w. unfold try_except. destruct (Hm w) as (n1 & H1 & HP1).
  destruct (m w) as [w' [e|a]]; simpl in *.
  - destruct (Hh e w') as (n2 & H2 & HP2). exists (n1 ++ n2).
    rewrite H2, H1, app_assoc. split; [done|]. by apply Forall_app.
  - by exists n1.
Qed.

Lemma emits_with_begin {A} (body : M (DB:=DB) A) :
  P Begin → P Commit → P Rollback →
  emits_only P body → emits_only P (with_begin execute body).
Proof.
  intros HB HC HR Hbody. unfold with_begin.
  apply emits_bind; [by apply emits_exec|]. intros _.
  apply emits_try_except.
  - apply emits_bind; [done|]. intros a.
    apply emits_bind; [by apply emits_exec|]. intros _. apply emits_ret.
  - intros e. apply emits_bind; [by apply emits_exec|]. intros _. apply emits_raise.
Qed.

Lemma emits_if {A} (b : bool) (m1 m2 : M (DB:=DB) A) :
  emits_only P m1 → emits_only P m2 → emits_only P (if b then m1 else m2).
Proof. by destruct b. Qed.

End EmitsOnly.

Lemma emits_weaken {DB A : Type} (P Q : stmt → Prop) (m : M (DB:=DB) A) :
  (∀ s, P s → Q s) → emits_only P m → emits_only Q m.
Proof.
  intros HPQ Hm w. destruct (Hm w) as (new & Hnew & HP). exists new.
  split; [done|]. eapply Forall_impl; [exact HP|done].
Qed.

(** From the empty trace, the trace is what was sent. *)
Lemma emits_from_init {DB A : Type} (P : stmt → Prop) (m : M (DB:=DB) A) (db : DB) :
  emits_only P m → ∀ s, s ∈ w_trace (m (init_world db)).1 → P s.
Proof.
  intros Hm s Hs. destruct (Hm (init_world db)) as (new & Hnew & HP).
  rewrite Hnew in Hs. simpl in Hs. by apply (proj1 (Forall_forall _ _) HP).
Qed.

(** Tactic: a computation built from the operations above sends only
    statements satisfying the predicate, given that for each [exec]. *)
Ltac emits_step :=
  first
    [ apply emits_ret | apply emits_raise | apply emits_lift | apply emits_logging
    | apply emits_with_begin
    | apply emits_bind; [|intros ?]
    | apply emits_try_except; [|intros ?]
    | apply emits_if
    | apply emits_exec ].

Section EmitsPipeline.
Context {DB : Type}.
Variable execute : stmt → DB → DB * (exn + list string).

Lemma to_postgis_post_load_on_table (schema table : string) :
  emits_only (on_table schema table) (to_postgis_post_load execute schema table).
Proof.
  unfold to_postgis_post_load. repeat emits_step; unfold on_table; simpl; tauto.
Qed.

Lemma to_postgis_on_table (str_upper : string → string) (gdf : GeoDataFrame)
    (table schema : string) (srid : option Z) (z : bool) :
  emits_only (λ s, on_table schema table s ∧ is_setup s = false ∧
                   (is_write s = true → write_srid s = srid))
    (to_postgis execute str_upper gdf table schema srid z).
Proof.
  unfold to_postgis, to_postgis_post_load.
  destruct (geom_type_for_column str_upper gdf z) as [gtype mixed].
  repeat emits_step; unfold on_table; simpl; (split; [tauto|]); split; done.
Qed.

Lemma create_views_on_table (schema table : string) :
  emits_only (λ s, on_table schema table s ∧ is_setup s = false ∧ is_write s = false)
    (create_views_and_policies execute schema table).
Proof.
  unfold create_views_and_policies. simpl.
  repeat emits_step; unfold on_table; simpl; (split; [tauto|]); split; done.
Qed.

End EmitsPipeline.

(** ** Batch path: the body run per file *)

Section IngestFileFacts.
Context {DB : Type}.
Variable execute : stmt → DB → DB * (exn + list string).
Variables str_lower str_upper str_strip : string → string.
Variable read_file : string → option string → exn + GeoDataFrame.
Variable read_cpg : string → option string.
Variable crs_epsg : GeoDataFrame → option (exn + option Z).
Variable geoms_has_z : GeoDataFrame → list (option (exn + bool)).
Variable set_geometry : GeoDataFrame → string → exn + GeoDataFrame.
Variable rel_stem : string → string → string.

(** The SRID detected is never zero: a zero code counts as no code. *)
Lemma detect_srid_nonzero (gdf : GeoDataFrame) : detect_srid crs_epsg gdf ≠ Some 0%Z.
Proof.
  unfold detect_srid. destruct (crs_epsg gdf) as [[e|[n|]]|]; simpl; try done.
  case_bool_decide; [congruence|done].
Qed.

Lemma ingest_file_emits (root shp : string) :
  emits_only (sent_for str_lower rel_stem root shp)
    (ingest_file execute str_lower str_upper str_strip read_file read_cpg
       crs_epsg geoms_has_z set_geometry rel_stem root shp).
Proof.
  unfold ingest_file.
  apply emits_bind; [apply emits_logging|]. intros _.
  apply emits_bind; [apply emits_lift|]. intros gdf.
  apply emits_if; [apply emits_logging|].
  apply emits_bind; [apply emits_if; [apply emits_logging|apply emits_ret]|]. intros _.
  apply emits_bind; [apply emits_if; [apply emits_lift|apply emits_ret]|]. intros gdf'.
  apply emits_bind.
  - eapply emits_weaken; [|apply to_postgis_on_table].
    intros s (Ht & Hn & Hw). split; [done|]. split; [done|]. intros Hs. rewrite (Hw Hs).
    apply detect_srid_nonzero.
  - intros _. eapply emits_weaken; [|apply create_views_on_table].
    intros s (Ht & Hn & Hw). split; [done|]. split; [done|]. intros Hs. congruence.
Qed.

End IngestFileFacts.

(** X9. The body run for one file sends nothing to the database unless
    the file was read and has rows: when the reader fails on every
    encoding the reader's error leaves the body, and when the layer is
    empty the body returns normally after logging that it skips it; in
    both cases no statement is sent and the database is as before. *)
Theorem ingest_file_skips {DB : Type}
    (execute : stmt → DB → DB * (exn + list string))
    (str_lower str_upper str_strip : string → string)
    (read_file : string → option string → exn + GeoDataFrame)
    (read_cpg : string → option string)
    (crs_epsg : GeoDataFrame → option (exn + option Z))
    (geoms_has_z : GeoDataFrame → list (option (exn + bool)))
    (set_geometry : GeoDataFrame → string → exn + GeoDataFrame)
    (rel_stem : string → string → string) (root shp : string) (db : DB) :
  let run :=
    ingest_file execute str_lower str_upper str_strip read_file read_cpg
      crs_epsg geoms_has_z set_geometry rel_stem root shp (init_world db) in
  let read := (read_shp_robust str_lower str_upper str_strip read_file read_cpg shp).2 in
  (∀ e, read = inl e →
     run.2 = inl e ∧ w_trace run.1 = [] ∧ w_db run.1 = db ∧
     w_log run.1 = [(INFO, "=== " +:+ shp)]) ∧
  (∀ gdf, read = inr gdf → gdf_empty gdf = true →
     run.2 = inr () ∧ w_trace run.1 = [] ∧ w_db run.1 = db ∧
     w_log run.1 = [(INFO, "=== " +:+ shp); (WARNING, "  -> vide, on saute.")]).
Proof.
  intros run read. subst run read. unfold ingest_file, bind, lift, logging, init_world.
  simpl. split.
  - intros e ->. done.
  - intros gdf -> ->. done.
Qed.

(** X10. Every statement the body sends for a file is about the table
    named after that file in schema [public] (or is a transaction or
    schema statement), and a write never declares SRID 0. *)
Theorem ingest_file_statements {DB : Type}
    (execute : stmt → DB → DB * (exn + list string))
    (str_lower str_upper str_strip : string → string)
    (read_file : string → option string → exn + GeoDataFrame)
    (read_cpg : string → option string)
    (crs_epsg : GeoDataFrame → option (exn + option Z))
    (geoms_has_z : GeoDataFrame → list (option (exn + bool)))
    (set_geometry : GeoDataFrame → string → exn + GeoDataFrame)
    (rel_stem : string → string → string) (root shp : string) (db : DB) :
  Forall
    (λ s, on_table "public" (slugify str_lower (rel_stem root shp)) s ∧
          (is_write s = true → write_srid s ≠ Some 0%Z))
    (w_trace
       (ingest_file execute str_lower str_upper str_strip read_file read_cpg
          crs_epsg geoms_has_z set_geometry rel_stem root shp (init_world db)).1).
Proof.
  apply Forall_forall. intros s Hs.
  destruct (emits_from_init _ _ db
              (ingest_file_emits execute str_lower str_upper str_strip read_file
                 read_cpg crs_epsg geoms_has_z set_geometry rel_stem root shp) s Hs)
    as (Hon & _ & Hw).
  by split.
Qed.

(** ** Batch path: the column names that reach the table *)

Lemma NoDup_fmap_inj_on {A B : Type} (f : A → B) (l : list A) (x y : A) :
  NoDup (f <$> l) → x ∈ l → y ∈ l → f x = f y → x = y.
Proof.
  induction l as [|a l IH]; simpl; [by intros _ ?%not_elem_of_nil|].
  intros [Hnot Hnd]%NoDup_cons [->|Hx]%elem_of_cons [->|Hy]%elem_of_cons Hf;
    [done| | |by apply IH].
  - destruct Hnot. rewrite Hf. by apply list_elem_of_fmap_2.
  - destruct Hnot. rewrite <-Hf. by apply list_elem_of_fmap_2.
Qed.

(** X11. After the sanitizer and the renaming of "geometry" to "geom", no
    column is named "geometry" and there are as many columns as before.
    For a layer with at most one column named "geometry", the names are
    pairwise distinct exactly when the layer does not have both a geometry
    column and an attribute whose sanitized name is "geom": the sanitizer
    keeps attribute names away from "geometry" but not from "geom". *)
Theorem prepare_columns_names (str_lower : string → string) (gdf : GeoDataFrame) :
  ∃ out,
    sanitize_names str_lower (columns gdf) = Some out ∧
    let final := columns (prepare_columns str_lower gdf) in
    final = (λ c, if decide (c = "geometry") then "geom" else c) <$> out ∧
    length final = length (columns gdf) ∧
    ("geometry" ∉ final) ∧
    ((∀ i j, columns gdf !! i = Some "geometry" → columns gdf !! j = Some "geometry" →
        i = j) →
     (NoDup final ↔ ¬ ("geometry" ∈ out ∧ "geom" ∈ out))).
Proof.
  destruct (sanitize_loop_distinct str_lower (columns gdf))
    as (out & seen & Hrun & _ & Hlen & Hgeo & Hdist).
  exists out. unfold sanitize_names. rewrite Hrun. split; [done|].
  set (f := λ c : string, if decide (c = "geometry") then "geom" else c).
  assert (columns (prepare_columns str_lower gdf) = f <$> out) as Hfinal.
  { unfold prepare_columns, sanitize_columns, sanitize_names. rewrite Hrun. simpl.
    case_bool_decide as Hin; [done|]. simpl.
    clear -Hin. induction out as [|x out IH]; [done|]. simpl.
    rewrite not_elem_of_cons in Hin. destruct Hin as [Hx Hin].
    unfold f at 1. rewrite decide_False by done. f_equal. by apply IH. }
  simpl. rewrite Hfinal. split; [done|].
  split; [by rewrite length_fmap|]. split.
  - intros (x & Hx & _)%list_elem_of_fmap. unfold f in Hx. by case_decide.
  - intros Honce.
    assert (NoDup out) as Hnd.
    { apply NoDup_alt. intros i j x Hi Hj.
      destruct (decide (i = j)) as [|Hne]; [done|].
      pose proof (Hdist i j x Hne Hi Hj) as ->.
      apply (Honce i j); by apply Hgeo. }
    split.
    + intros Hfnd [Hg Hm].
      assert ("geometry" = "geom") as Habs; [|done].
      by apply (NoDup_fmap_inj_on f out).
    + intros Hnot. apply NoDup_fmap_2_strong; [|done].
      intros x y Hx Hy. unfold f. repeat case_decide; subst; try done.
      * intros <-. destruct Hnot. done.
      * intros ->. destruct Hnot. done.
Qed.

(** ** Batch path: [to_postgis] as a whole *)

(** The declared type name ends in "Z" exactly when the Z flag is set. *)
Lemma geom_type_name_Z (str_upper : string → string) (gdf : GeoDataFrame) (z : bool) :
  endswith (geom_type_for_column str_upper gdf z).1 "Z" = z.
Proof.
  unfold geom_type_for_column.
  destruct (decide (size (base_types str_upper gdf) = 0)); [apply generic_type_Z|].
  destruct (decide (size (base_types str_upper gdf) = 1)) as [H1|];
    [|apply generic_type_Z].
  apply size_1_elem_of in H1 as [t Ht]. apply leibniz_equiv in Ht.
  rewrite Ht, elements_singleton. simpl.
  destruct z; [apply endswith_app|].
  assert (t ∈ base_types str_upper gdf) as (g & _ & ->)%elem_of_base_types
    by (rewrite Ht; by apply elem_of_singleton).
  apply norm_type_no_Z_suffix.
Qed.

(** X12. [to_postgis] writes the table at most once: the write statements
    of its trace are none, or the one write with the classified type, the
    given SRID and dimension 3 exactly when the type name ends in "Z".  The
    write comes right after the schema block has committed, so a failure
    there leaves the table unwritten, and nothing after it is a write.  When
    [to_postgis] returns normally the statements sent were exactly the
    schema block, the write, and the committed post-load block with or
    without the renaming of the geometry column; and it logs exactly one
    line. *)
Theorem to_postgis_sequence {DB : Type}
    (execute : stmt → DB → DB * (exn + list string)) (str_upper : string → string)
    (gdf : GeoDataFrame) (table schema : string) (srid : option Z) (z : bool) (db : DB) :
  let run := to_postgis execute str_upper gdf table schema srid z (init_world db) in
  let gtype := (geom_type_for_column str_upper gdf z).1 in
  let gcol := if bool_decide ("geom" ∈ columns gdf) then "geom" else "geometry" in
  let dimension := if z then 3 else 2 in
  let write := WriteTable schema table gcol gtype srid dimension in
  (filter (λ s, is_write s = true) (w_trace run.1) = [] ∨
   filter (λ s, is_write s = true) (w_trace run.1) = [write]) ∧
  (endswith gtype "Z" = true ↔ dimension = 3) ∧
  (write ∈ w_trace run.1 →
     ∃ post, w_trace run.1 = [Begin; CreateSchema schema; Commit; write] ++ post ∧
       Forall (λ s, is_write s = false) post) ∧
  (run.2 = inr () →
     ∃ mid, (mid = [] ∨ mid = [RenameGeometry schema table]) ∧
       w_trace run.1 =
         [Begin; CreateSchema schema; Commit; write; Begin; SelectColumns schema table]
         ++ mid ++
         [CreateGistIndex schema table; AddIdColumn schema table;
          AddPrimaryKey schema table; Analyze schema table; Commit]) ∧
  (∃ line, w_log run.1 = [(INFO, line)]).
Proof.
  intros run gtype gcol dimension write.
  pose proof (geom_type_name_Z str_upper gdf z) as HZ. fold gtype in HZ.
  subst run write. unfold to_postgis, to_postgis_post_load.
  destruct (geom_type_for_column str_upper gdf z) as [gt mixed] eqn:Hgt.
  simpl in gtype. subst gtype. fold gcol dimension.
  split; [|split; [|split; [|split]]].
  - run_block execute;
      repeat match goal with
      | |- context [if ?b then _ else _] => destruct b; simpl
      end; run_block execute;
      first [by left | by right].
  - rewrite HZ. subst dimension. destruct z; split; (done || lia).
  - run_block execute;
      repeat match goal with
      | |- context [if ?b then _ else _] => destruct b; simpl
      end; run_block execute;
      intros Hin; try (by not_in_list Hin); eexists; (split; [reflexivity|]);
      repeat (apply Forall_cons; split; [done|]); apply Forall_nil_2.
  - run_block execute;
      repeat match goal with
      | |- context [if ?b then _ else _] => destruct b; simpl
      end; run_block execute;
      intros Hok; try discriminate Hok;
      first [ by exists []; split; [left|]
            | by exists [RenameGeometry schema table]; split; [right|] ].
  - run_block execute;
      repeat match goal with
      | |- context [if ?b then _ else _] => destruct b; simpl
      end; run_block execute; by eexists.
Qed.

(** ** Access-policy publication: what is sent, what it leaves *)

(** X13. With the switches as shipped (no GeoJSON view, no reprojected
    view, row-level security on), the publication step never creates a
    view and never grants anything: besides the transaction statements it
    sends only the row-level-security switch, the query on [pg_policies]
    and the policy creation, for the table it was given; the switch is the
    first statement of the block, and a normal return means the block was
    committed. *)
Theorem create_views_statements {DB : Type}
    (execute : stmt → DB → DB * (exn + list string)) (schema table : string) (db : DB) :
  let run := create_views_and_policies execute schema table (init_world db) in
  let policy := policy_name table in
  Forall (λ s, s ∈ [Begin; Commit; Rollback; EnableRLS schema table;
                    SelectPolicy schema table policy;
                    CreatePolicy schema table policy]) (w_trace run.1) ∧
  (∀ s, s ∈ w_trace run.1 → s ≠ Begin →
     ∃ post, w_trace run.1 = [Begin; EnableRLS schema table] ++ post) ∧
  (run.2 = inr () → ∃ pre, w_trace run.1 = pre ++ [Commit]).
Proof.
  intros run policy. subst run policy. unfold create_views_and_policies.
  split; [|split].
  - run_block execute;
      repeat match goal with
      | |- context [bool_decide (head ?r = None)] => destruct r; simpl
      end; run_block execute;
      repeat (apply Forall_cons; split; [in_list|]); apply Forall_nil_2.
  - run_block execute;
      repeat match goal with
      | |- context [bool_decide (head ?r = None)] => destruct r; simpl
      end; run_block execute;
      intros st Hs Hne; try (by eexists);
      apply elem_of_cons in Hs as [->|Hs]; try done; by apply elem_of_nil in Hs.
  - run_block execute;
      repeat match goal with
      | |- context [bool_decide (head ?r = None)] => destruct r; simpl
      end; run_block execute;
      intros Hok; try discriminate Hok;
      first [ by exists [Begin; EnableRLS schema table;
                         SelectPolicy schema table (policy_name table);
                         CreatePolicy schema table (policy_name table)]
            | by exists [Begin; EnableRLS schema table;
                         SelectPolicy schema table (policy_name table)] ].
Qed.

Lemma pg_run_no_table_state (pg : PG) (schema table : string) :
  (schema, table) ∉ cat_tables (pg_cur pg) →
  let run := create_views_and_policies pg_execute schema table (init_world pg) in
  (∃ e, run.2 = inl e) ∧ w_db run.1 = mkPG (pg_cur pg) None.
Proof.
  intros Ht. destruct pg as [[tables rls policies] saved].
  unfold create_views_and_policies, with_begin, bind, try_except, exec, ret, raise,
    init_world.
  cbn [CREATE_GEOJSON_VIEW CREATE_REPROJECTED_VIEW_4326 APPLY_RLS_AND_GRANT
       pg_execute pg_cur pg_saved cat_tables cat_rls cat_policies
       w_db w_trace w_log w_written fst snd app] in *.
  rewrite (bool_decide_eq_false_2 _ Ht). simpl. split; [by eexists|done].
Qed.

(** X14. On the catalogue model the publication step succeeds exactly
    when the table exists.  On success the table has row-level security
    enabled and the policy [read_<table>_anon], and nothing else in the
    catalogue changed: the tables are the same and every other policy and
    row-level-security flag is as before.  On failure the catalogue is
    unchanged. *)
Theorem policy_step_effect (pg : PG) (schema table : string) :
  let run := create_views_and_policies pg_execute schema table (init_world pg) in
  let before := pg_cur pg in
  let after := pg_cur (w_db run.1) in
  (run.2 = inr () ↔ (schema, table) ∈ cat_tables before) ∧
  (run.2 = inr () →
     cat_tables after = cat_tables before ∧
     (∀ x, x ∈ cat_rls after ↔ x = (schema, table) ∨ x ∈ cat_rls before) ∧
     (∀ x, x ∈ cat_policies after ↔
           x = (schema, table, policy_name table) ∨ x ∈ cat_policies before)) ∧
  (run.2 ≠ inr () → after = before).
Proof.
  intros run before after. subst run before after.
  destruct (decide ((schema, table) ∈ cat_tables (pg_cur pg))) as [Ht|Ht].
  - rewrite (pg_run_table pg schema table Ht). simpl.
    split; [done|]. split; [|done]. intros _. split; [done|]. split.
    + intros x. by rewrite elem_of_union, elem_of_singleton.
    + intros x. case_bool_decide as Hp.
      * split; [by right|]. by intros [->|?].
      * by rewrite elem_of_union, elem_of_singleton.
  - destruct (pg_run_no_table_state pg schema table Ht) as [[e He] Hdb].
    rewrite He, Hdb. simpl. split; [split; [done|by intros ?]|].
    split; [done|done].
Qed.

(** ** Upload path: the archive, the file read, the statements, the result *)

Lemma max_by_spec (key : string → N) (x : string) (l : list string) :
  ∃ pre post, x :: l = pre ++ max_by key x l :: post ∧
    (∀ y, y ∈ pre → (key y < key (max_by key x l))%N) ∧
    (∀ y, y ∈ post → (key y ≤ key (max_by key x l))%N).
Proof.
  revert x. induction l as [|y l IH]; intros x; simpl.
  - exists [], []. split; [done|]. split; intros y Hy; by apply elem_of_nil in Hy.
  - destruct (N.ltb_spec (key x) (key y)) as [Hlt|Hge].
    + destruct (IH y) as (pre & post & Heq & Hpre & Hpost).
      exists (x :: pre), post. split; [by rewrite Heq|]. split; [|done].
      intros y' [->|Hy']%elem_of_cons; [|by apply Hpre].
      assert (Hy : y ∈ pre ++ max_by key y l :: post) by (rewrite <-Heq; left).
      apply elem_of_app in Hy as [Hy|Hy].
      * specialize (Hpre _ Hy). lia.
      * apply elem_of_cons in Hy as [Hy|Hy]; [by rewrite <-Hy|].
        specialize (Hpost _ Hy). lia.
    + destruct (IH x) as (pre & post & Heq & Hpre & Hpost).
      destruct pre as [|x' pre]; simpl in Heq.
      * injection Heq as Hx Hl. exists [], (y :: l).
        split; [by rewrite <-Hx|]. split.
        -- intros y' Hy'. by apply elem_of_nil in Hy'.
        -- intros y' [->|Hy']%elem_of_cons; [by rewrite <-Hx|].
           apply Hpost. by rewrite <-Hl.
      * injection Heq as <- Hl. exists (x :: y :: pre), post.
        split; [simpl; do 2 f_equal; exact Hl|]. split; [|done].
        intros y' [->|[->|Hy']%elem_of_cons]%elem_of_cons.
        -- apply Hpre. left.
        -- assert (key x < key (max_by key x l))%N by (apply Hpre; left). lia.
        -- apply Hpre. by right.
Qed.

(** X15. The file the upload reads is the largest shapefile found under
    the extracted archive, lower-case matches before upper-case ones: it is
    one of the files found, every file found before it is strictly smaller
    and none after it is larger; and no file is picked exactly when both
    searches find nothing. *)
Theorem pick_shp_largest (st_size : string → N) (z : Extracted) :
  (pick_shp st_size z = None ↔ rglob_shp z = [] ∧ rglob_SHP z = []) ∧
  (∀ shp, pick_shp st_size z = Some shp →
     ∃ pre post, rglob_shp z ++ rglob_SHP z = pre ++ shp :: post ∧
       (∀ y, y ∈ pre → (st_size y < st_size shp)%N) ∧
       (∀ y, y ∈ post → (st_size y ≤ st_size shp)%N)).
Proof.
  unfold pick_shp. split.
  - destruct (rglob_shp z ++ rglob_SHP z) as [|p ps] eqn:Hl.
    + split; [|done]. intros _. by apply app_eq_nil in Hl.
    + split; [done|]. intros [H1 H2]. by rewrite H1, H2 in Hl.
  - intros shp. destruct (rglob_shp z ++ rglob_SHP z) as [|p ps]; [done|].
    intros [= <-]. apply max_by_spec.
Qed.

Section UploadFacts.
Context {DB : Type}.
Variable execute : stmt → DB → DB * (exn + list string).
Variables str_lower str_upper str_strip : string → string.
Variable repr : string → string.
Variable read_file : string → option string → exn + GeoDataFrame.
Variable read_cpg : string → option string.
Variable crs_epsg : GeoDataFrame → option (exn + option Z).
Variable set_crs : GeoDataFrame → Z → exn + GeoDataFrame.
Variable geometry_name : GeoDataFrame → exn + string.
Variable set_geometry : GeoDataFrame → string → exn + GeoDataFrame.
Variable stem : string → string.
Variable default_dimension : nat.

Lemma log_names_run (names : list string) (w : world (DB:=DB)) :
  log_names names w =
    (mkWorld (w_db w) (w_trace w)
       (w_log w ++ ((λ name, (WARNING, " - " +:+ name)) <$> names)) (w_written w),
     inr ()).
Proof.
  revert w. induction names as [|name names IH]; intros w.
  - simpl. unfold ret. rewrite app_nil_r. by destruct w.
  - cbn [log_names]. unfold bind, logging. cbn [fst snd]. rewrite IH. simpl.
    by rewrite <-app_assoc.
Qed.

(** The family is one of four names. *)
Lemma geom_family_names (gdf : GeoDataFrame) :
  _geom_family str_upper gdf ∈ ["MULTIPOLYGON"; "MULTILINESTRING"; "MULTIPOINT"; "GEOMETRY"].
Proof.
  unfold _geom_family.
  repeat match goal with |- context [if ?b then _ else _] => destruct b end; in_list.
Qed.

(** The write and the finalizer, from an empty trace. *)
Lemma upload_tail (schema table : string) (srid : option Z) (fam : string)
    (info : upload_info) (w : world (DB:=DB)) :
  w_trace w = [] →
  let run :=
    bind (exec execute (WriteTable schema table "geom" (upload_declared_type srid fam) srid
                          default_dimension))
      (λ _, bind (upload_post_load execute schema table srid fam) (λ _, ret info)) w in
  let write :=
    WriteTable schema table "geom" (upload_declared_type srid fam) srid default_dimension in
  Forall (on_table schema table) (w_trace run.1) ∧
  (∃ rest, w_trace run.1 = write :: rest ∧ Forall (λ s, is_write s = false) rest) ∧
  (∀ i, run.2 = inr i →
     i = info ∧
     w_trace run.1 =
       [write; Begin; AddIdColumn schema table; AddPrimaryKey schema table] ++
       (if coerce_guard srid fam then [CoerceMulti2D schema table fam srid] else []) ++
       [CreateGistIndex schema table; Analyze schema table; Commit]).
Proof.
  intros Hw run write. subst run write. destruct w as [d t l wr]. simpl in Hw. subst t.
  unfold upload_post_load. destruct (coerce_guard srid fam).
  all: run_block execute.
  all: split; [repeat (apply Forall_cons; split; [unfold on_table; simpl; tauto|]);
               apply Forall_nil_2|].
  all: split; [eexists; split; [done|];
               repeat (apply Forall_cons; split; [done|]); apply Forall_nil_2|].
  all: intros i Hi; try discriminate Hi; by injection Hi as <-.
Qed.

Lemma bind_pure_inl {A B} (m : M (DB:=DB) A) (k : A → M (DB:=DB) B)
    (w : world (DB:=DB)) (e : exn) :
  m w = (w, inl e) → bind m k w = (w, inl e).
Proof. intros H. unfold bind. by rewrite H. Qed.

Lemma bind_pure_inr {A B} (m : M (DB:=DB) A) (k : A → M (DB:=DB) B)
    (w : world (DB:=DB)) (a : A) :
  m w = (w, inr a) → bind m k w = k a w.
Proof. intros H. unfold bind. by rewrite H. Qed.

(** The SRID step leaves the world alone and does not depend on it; it
    returns no SRID only when the caller gave no usable default. *)
Lemma upload_srid_run (gdf : GeoDataFrame) (default_epsg : option Z) :
  ∃ r, (∀ w : world (DB:=DB), upload_srid crs_epsg set_crs gdf default_epsg w = (w, r)) ∧
    (∀ gs, r = inr gs → gs.2 = None → default_epsg = None ∨ default_epsg = Some 0%Z).
Proof.
  unfold upload_srid, bind, lift, ret. cbn [fst snd].
  destruct (crs_epsg gdf) as [[e|[n|]]|]; simpl.
  - by eexists.
  - eexists. split; [done|]. by intros gs [= <-] [=].
  - destruct default_epsg as [m|]; simpl; [|eexists; split; [done|]; by left].
    case_bool_decide as Hm; simpl.
    + destruct (set_crs gdf m) as [e|gdf']; simpl; [by eexists|].
      eexists. split; [done|]. by intros gs [= <-] [=].
    + eexists. split; [done|]. intros gs _ _. right. f_equal.
      destruct (decide (m = 0%Z)); [done|]. by destruct Hm.
  - destruct default_epsg as [m|]; simpl; [|eexists; split; [done|]; by left].
    case_bool_decide as Hm; simpl.
    + destruct (set_crs gdf m) as [e|gdf']; simpl; [by eexists|].
      eexists. split; [done|]. by intros gs [= <-] [=].
    + eexists. split; [done|]. intros gs _ _. right. f_equal.
      destruct (decide (m = 0%Z)); [done|]. by destruct Hm.
Qed.

Lemma upload_geom_column_run (gdf : GeoDataFrame) :
  ∃ r, ∀ w : world (DB:=DB),
    upload_geom_column geometry_name set_geometry gdf w = (w, r).
Proof.
  unfold upload_geom_column, bind, lift, ret. cbn [fst snd].
  destruct (geometry_name gdf) as [e|gcol]; cbn [fst snd]; [by eexists|].
  case_bool_decide; by eexists.
Qed.

(** The preparation of the layer sends nothing, logs nothing and does not
    depend on the world. *)
Lemma upload_prepare_run (shp : string) (default_epsg : option Z) :
  ∃ r, (∀ w : world (DB:=DB),
          upload_prepare str_lower str_upper str_strip repr read_file read_cpg
            crs_epsg set_crs geometry_name set_geometry shp default_epsg w = (w, r)) ∧
    (∀ layer, r = inr layer → layer.2 = None →
       default_epsg = None ∨ default_epsg = Some 0%Z).
Proof.
  unfold upload_prepare.
  destruct (_read_gdf_try_encodings _ _ _ _).2 as [e|gdf].
  { exists (inl e). split; [|done]. intros w. by rewrite (bind_pure_inl _ _ w e eq_refl). }
  destruct (upload_srid_run gdf default_epsg) as (rs & Hs & Hnone).
  destruct rs as [e|gs].
  { exists (inl e). split; [|done]. intros w.
    rewrite (bind_pure_inr _ _ w gdf eq_refl). by rewrite (bind_pure_inl _ _ w e (Hs w)). }
  destruct (upload_geom_column_run gs.1) as (rg & Hg).
  destruct rg as [e|g].
  { exists (inl e). split; [|done]. intros w.
    rewrite (bind_pure_inr _ _ w gdf eq_refl), (bind_pure_inr _ _ w gs (Hs w)).
    by rewrite (bind_pure_inl _ _ w e (Hg w)). }
  exists (inr (g, gs.2)). split.
  - intros w.
    rewrite (bind_pure_inr _ _ w gdf eq_refl), (bind_pure_inr _ _ w gs (Hs w)).
    by rewrite (bind_pure_inr _ _ w g (Hg w)).
  - intros layer [= <-]. simpl. by apply Hnone.
Qed.

(** The rest of the function on the chosen file, from an empty trace:
    nothing is sent when the preparation fails; otherwise the write of the
    prepared layer comes first and is the only write. *)
Lemma upload_layer_run (shp schema : string) (table_name : option string)
    (default_epsg : option Z) (w : world (DB:=DB)) :
  w_trace w = [] →
  let run :=
    upload_layer execute str_lower str_upper str_strip repr read_file read_cpg
      crs_epsg set_crs geometry_name set_geometry stem default_dimension
      shp schema table_name default_epsg w in
  let table := upload_table_name str_lower table_name (stem shp) in
  match (upload_prepare str_lower str_upper str_strip repr read_file read_cpg
           crs_epsg set_crs geometry_name set_geometry shp default_epsg w).2 with
  | inl e => run = (w, inl e)
  | inr layer =>
      let fam := _geom_family str_upper layer.1 in
      let srid := layer.2 in
      let write :=
        WriteTable schema table "geom" (upload_declared_type srid fam) srid
          default_dimension in
      Forall (on_table schema table) (w_trace run.1) ∧
      (∃ rest, w_trace run.1 = write :: rest ∧ Forall (λ s, is_write s = false) rest) ∧
      (∀ i, run.2 = inr i →
         i = mkInfo schema table (length (geom_type layer.1)) fam srid ∧
         w_trace run.1 =
           [write; Begin; AddIdColumn schema table; AddPrimaryKey schema table] ++
           (if coerce_guard srid fam then [CoerceMulti2D schema table fam srid] else []) ++
           [CreateGistIndex schema table; Analyze schema table; Commit])
  end.
Proof.
  intros Hw run table. subst run. unfold upload_layer. fold table.
  destruct (upload_prepare_run shp default_epsg) as (r & Hr & _).
  rewrite (Hr w). cbn [snd]. destruct r as [e|layer].
  - by rewrite (bind_pure_inl _ _ w e (Hr w)).
  - rewrite (bind_pure_inr _ _ w layer (Hr w)).
    apply (upload_tail schema table layer.2 (_geom_family str_upper layer.1)
             (mkInfo schema table (length (geom_type layer.1))
                (_geom_family str_upper layer.1) layer.2) w Hw).
Qed.

Variable st_size : string → N.

(** The run on an extracted archive: the log of the member names, then
    the error or the rest of the function on the chosen file. *)
Lemma upload_zip_run (z : Extracted) (schema : string) (table_name : option string)
    (default_epsg : option Z) (db : DB) :
  upload_shapefile_zip execute str_lower str_upper str_strip repr read_file read_cpg
    crs_epsg set_crs geometry_name set_geometry st_size stem default_dimension
    (inr z) schema table_name default_epsg (init_world db) =
  match pick_shp st_size z with
  | None => raise (Exn "RuntimeError" "Shapefile (.shp) introuvable dans le .zip")
  | Some shp =>
      upload_layer execute str_lower str_upper str_strip repr read_file read_cpg
        crs_epsg set_crs geometry_name set_geometry stem default_dimension
        shp schema table_name default_epsg
  end (mkWorld db []
         ((WARNING, "📦 Contenu du zip:") ::
          ((λ name, (WARNING, " - " +:+ name)) <$> namelist z)) []).
Proof.
  unfold upload_shapefile_zip, init_world.
  rewrite (bind_pure_inr _ _ _ z eq_refl).
  unfold bind at 1. unfold logging at 1. cbn [fst snd].
  unfold bind at 1. rewrite log_names_run. by cbn [fst snd w_db w_trace w_log w_written app].
Qed.

End UploadFacts.

(** X16. Nothing reaches the database before a shapefile is found: when
    the archive cannot be opened or extracted its error leaves the function
    with nothing logged, and when the extracted archive holds no shapefile
    the function raises the "introuvable" error after logging the member
    names, one line each; no statement is sent in either case. *)
Theorem upload_without_shapefile {DB : Type}
    (execute : stmt → DB → DB * (exn + list string))
    (str_lower str_upper str_strip repr : string → string)
    (read_file : string → option string → exn + GeoDataFrame)
    (read_cpg : string → option string)
    (crs_epsg : GeoDataFrame → option (exn + option Z))
    (set_crs : GeoDataFrame → Z → exn + GeoDataFrame)
    (geometry_name : GeoDataFrame → exn + string)
    (set_geometry : GeoDataFrame → string → exn + GeoDataFrame)
    (st_size : string → N) (stem : string → string) (default_dimension : nat)
    (e0 : exn) (names : list string) (schema : string) (table_name : option string)
    (default_epsg : option Z) (db : DB) :
  let upload archive :=
    upload_shapefile_zip execute str_lower str_upper str_strip repr read_file read_cpg
      crs_epsg set_crs geometry_name set_geometry st_size stem default_dimension
      archive schema table_name default_epsg (init_world db) in
  let empty := upload (inr (mkExtracted names [] [])) in
  upload (inl e0) = (init_world db, inl e0) ∧
  empty.2 = inl (Exn "RuntimeError" "Shapefile (.shp) introuvable dans le .zip") ∧
  w_trace empty.1 = [] ∧ w_db empty.1 = db ∧
  w_log empty.1 =
    (WARNING, "📦 Contenu du zip:") :: ((λ name, (WARNING, " - " +:+ name)) <$> names).
Proof.
  intros upload empty. subst upload empty. cbv beta.
  split; [done|]. by rewrite upload_zip_run.
Qed.

(** X17. Once a shapefile is chosen, every statement of the upload is
    about one table: the name given by the caller when it is not empty,
    else the name derived from the stem of the chosen file.  When the layer
    cannot be prepared (read, SRID, geometry column) that error leaves the
    function and nothing is sent.  Otherwise the first statement is the
    write of the table, with geometry column "geom", the SRID of the
    prepared layer and, as declared type, the family of the prepared layer
    when that SRID is non-zero and GEOMETRY otherwise; no dimension is
    passed, so the column takes the default one; nothing after it is a
    write.  With a non-zero default EPSG code the prepared layer always has
    an SRID. *)
Theorem upload_statements {DB : Type}
    (execute : stmt → DB → DB * (exn + list string))
    (str_lower str_upper str_strip repr : string → string)
    (read_file : string → option string → exn + GeoDataFrame)
    (read_cpg : string → option string)
    (crs_epsg : GeoDataFrame → option (exn + option Z))
    (set_crs : GeoDataFrame → Z → exn + GeoDataFrame)
    (geometry_name : GeoDataFrame → exn + string)
    (set_geometry : GeoDataFrame → string → exn + GeoDataFrame)
    (st_size : string → N) (stem : string → string) (default_dimension : nat)
    (z : Extracted) (shp schema : string) (table_name : option string)
    (default_epsg : option Z) (db : DB) :
  pick_shp st_size z = Some shp →
  let run :=
    upload_shapefile_zip execute str_lower str_upper str_strip repr read_file read_cpg
      crs_epsg set_crs geometry_name set_geometry st_size stem default_dimension
      (inr z) schema table_name default_epsg (init_world db) in
  let prepared :=
    (upload_prepare str_lower str_upper str_strip repr read_file read_cpg
       crs_epsg set_crs geometry_name set_geometry shp default_epsg (init_world db)).2 in
  let table := upload_table_name str_lower table_name (stem shp) in
  Forall (on_table schema table) (w_trace run.1) ∧
  (∀ e, prepared = inl e → run.2 = inl e ∧ w_trace run.1 = []) ∧
  (∀ gdf srid, prepared = inr (gdf, srid) →
     ∃ rest,
       w_trace run.1 =
         WriteTable schema table "geom"
           (if truthy_int srid then _geom_family str_upper gdf else "GEOMETRY")
           srid default_dimension :: rest ∧
       Forall (λ s, is_write s = false) rest) ∧
  (∀ n gdf srid, default_epsg = Some n → n ≠ 0%Z → prepared = inr (gdf, srid) →
     is_Some srid).
Proof.
  intros Hpick run prepared table. subst run prepared table.
  rewrite upload_zip_run, Hpick.
  destruct (upload_prepare_run (DB:=DB) str_lower str_upper str_strip repr read_file
              read_cpg crs_epsg set_crs geometry_name set_geometry shp default_epsg)
    as (r & Hr & Hnone).
  match goal with
  | |- context [upload_layer _ _ _ _ _ _ _ _ _ _ _ _ _ _ _ _ _ ?w] =>
      pose proof (upload_layer_run execute str_lower str_upper str_strip repr read_file
                    read_cpg crs_epsg set_crs geometry_name set_geometry stem
                    default_dimension shp schema table_name default_epsg w eq_refl)
        as Hrun;
      cbv zeta in Hrun; rewrite (Hr w) in Hrun; cbn [snd] in Hrun
  end.
  rewrite (Hr (init_world db)). cbn [snd].
  destruct r as [e|[gdf srid]].
  - rewrite Hrun. cbn [fst snd w_trace].
    split; [apply Forall_nil_2|]. split; [by intros e' [= <-]|].
    split; [by intros ? ? [=]|by intros ? ? ? _ _ [=]].
  - cbn [fst snd] in Hrun. destruct Hrun as (Hall & Hwrite & _).
    split; [exact Hall|]. split; [by intros e [=]|]. split.
    + intros gdf' srid' [= <- <-]. exact Hwrite.
    + intros n gdf' srid' Hn Hn0 [= <- <-].
      destruct srid as [m|]; [by eexists|].
      destruct (Hnone (gdf, None) eq_refl eq_refl) as [Hd|Hd]; rewrite Hd in Hn; congruence.
Qed.

Lemma upload_statements_witness :
  pick_shp sample_size sample_archive = Some "zones.shp" ∧
  ∃ rest,
    w_trace (sample_upload None None).1 =
      WriteTable "public" "zones" "geom" "MULTIPOLYGON" (Some 2154%Z) 2 :: rest ∧
    Forall (λ s, is_write s = false) rest.
Proof.
  assert (pick_shp sample_size sample_archive = Some "zones.shp") as Hpick by reflexivity.
  split; [exact Hpick|].
  exact (proj1 (proj2 (proj2 (upload_statements accept_all ascii_lower ascii_upper id
    simple_repr (λ _ _, inr sample_layer) (λ _, None)
    (λ _, Some (inr (Some 2154%Z))) (λ gdf _, inr gdf)
    (λ _, inr "geometry") (λ gdf _, inr gdf)
    sample_size sample_stem 2 sample_archive "zones.shp" "public" None None () Hpick)))
    (rename_column "geometry" "geom" sample_layer) (Some 2154%Z) eq_refl).
Defined.

(** X18. When the upload returns, the dictionary names the schema and the
    table that were written, its [geom_type] is one of the four families,
    and the statements sent were exactly: the write (declared with the
    reported family and SRID, or as GEOMETRY when the reported SRID is
    missing or zero), then in one committed transaction the id column, the
    primary key, the rewrite to multi 2D when the guard on the reported
    SRID and family holds, the spatial index and ANALYZE. *)
Theorem upload_result {DB : Type}
    (execute : stmt → DB → DB * (exn + list string))
    (str_lower str_upper str_strip repr : string → string)
    (read_file : string → option string → exn + GeoDataFrame)
    (read_cpg : string → option string)
    (crs_epsg : GeoDataFrame → option (exn + option Z))
    (set_crs : GeoDataFrame → Z → exn + GeoDataFrame)
    (geometry_name : GeoDataFrame → exn + string)
    (set_geometry : GeoDataFrame → string → exn + GeoDataFrame)
    (st_size : string → N) (stem : string → string) (default_dimension : nat)
    (z : Extracted) (shp schema : string) (table_name : option string)
    (default_epsg : option Z) (db : DB) (info : upload_info) :
  pick_shp st_size z = Some shp →
  let run :=
    upload_shapefile_zip execute str_lower str_upper str_strip repr read_file read_cpg
      crs_epsg set_crs geometry_name set_geometry st_size stem default_dimension
      (inr z) schema table_name default_epsg (init_world db) in
  run.2 = inr info →
  let table := upload_table_name str_lower table_name (stem shp) in
  let fam := info_geom_type info in
  let srid := info_srid info in
  info_schema info = schema ∧ info_table info = table ∧
  fam ∈ ["MULTIPOLYGON"; "MULTILINESTRING"; "MULTIPOINT"; "GEOMETRY"] ∧
  w_trace run.1 =
    [WriteTable schema table "geom" (if truthy_int srid then fam else "GEOMETRY") srid
       default_dimension;
     Begin; AddIdColumn schema table; AddPrimaryKey schema table] ++
    (if coerce_guard srid fam then [CoerceMulti2D schema table fam srid] else []) ++
    [CreateGistIndex schema table; Analyze schema table; Commit].
Proof.
  intros Hpick run. subst run.
  rewrite upload_zip_run, Hpick. intros Hrun table fam srid. subst table fam srid.
  match type of Hrun with
  | context [upload_layer _ _ _ _ _ _ _ _ _ _ _ _ _ _ _ _ _ ?w] =>
      pose proof (upload_layer_run execute str_lower str_upper str_strip repr read_file
                    read_cpg crs_epsg set_crs geometry_name set_geometry stem
                    default_dimension shp schema table_name default_epsg w eq_refl)
        as Hlayer;
      cbv zeta in Hlayer
  end.
  destruct (upload_prepare _ _ _ _ _ _ _ _ _ _ _ _ _).2 as [e|layer].
  - rewrite Hlayer in Hrun. discriminate Hrun.
  - destruct Hlayer as (_ & _ & Hi). destruct (Hi info Hrun) as (-> & Htr).
    cbn [info_schema info_table info_geom_type info_srid].
    split; [done|]. split; [done|]. split; [apply geom_family_names|exact Htr].
Qed.

Lemma upload_result_witness :
  let info := mkInfo "public" "zones" 2 "MULTIPOLYGON" (Some 2154%Z) in
  pick_shp sample_size sample_archive = Some "zones.shp" ∧
  (sample_upload None None).2 = inr info ∧
  w_trace (sample_upload None None).1 =
    [WriteTable "public" "zones" "geom" "MULTIPOLYGON" (Some 2154%Z) 2;
     Begin; AddIdColumn "public" "zones"; AddPrimaryKey "public" "zones";
     CoerceMulti2D "public" "zones" "MULTIPOLYGON" (Some 2154%Z);
     CreateGistIndex "public" "zones"; Analyze "public" "zones"; Commit].
Proof.
  intros info.
  assert (pick_shp sample_size sample_archive = Some "zones.shp") as Hpick by reflexivity.
  assert ((sample_upload None None).2 = inr info) as Hrun by (vm_compute; reflexivity).
  split; [exact Hpick|]. split; [exact Hrun|].
  exact (proj2 (proj2 (proj2 (upload_result accept_all ascii_lower ascii_upper id simple_repr
    (λ _ _, inr sample_layer) (λ _, None)
    (λ _, Some (inr (Some 2154%Z))) (λ gdf _, inr gdf)
    (λ _, inr "geometry") (λ gdf _, inr gdf)
    sample_size sample_stem 2 sample_archive "zones.shp" "public" None None () info
    Hpick Hrun)))).
Defined.

Lemma bind_ext {DB A B : Type} (m m' : M (DB:=DB) A) (k k' : A → M (DB:=DB) B)
    (w : world (DB:=DB)) :
  m w = m' w → (∀ a w', k a w' = k' a w') → bind m k w = bind m' k' w.
Proof.
  intros Hm Hk. unfold bind. rewrite Hm. destruct (m' w) as [w' [e|a]]; [done|apply Hk].
Qed.

(** X19. The upload page passes no default EPSG code, so the CRS of a
    layer is never set by the upload it triggers: the run is the same
    whatever [set_crs] would do.  The statements it sends are in the schema
    typed in the page, or in [public] when the field is empty, and a table
    name typed in the page is used as typed. *)
Theorem app_upload_defaults {DB : Type}
    (execute : stmt → DB → DB * (exn + list string))
    (str_lower str_upper str_strip repr : string → string)
    (read_file : string → option string → exn + GeoDataFrame)
    (read_cpg : string → option string)
    (crs_epsg : GeoDataFrame → option (exn + option Z))
    (set_crs set_crs' : GeoDataFrame → Z → exn + GeoDataFrame)
    (geometry_name : GeoDataFrame → exn + string)
    (set_geometry : GeoDataFrame → string → exn + GeoDataFrame)
    (st_size : string → N) (stem : string → string) (default_dimension : nat)
    (archive : exn + Extracted) (default_schema default_name : string) (db : DB) :
  let app set_crs :=
    app_upload execute str_lower str_upper str_strip repr read_file read_cpg
      crs_epsg set_crs geometry_name set_geometry st_size stem default_dimension
      archive default_schema default_name (init_world db) in
  app set_crs = app set_crs' ∧
  Forall (λ s, ∀ schema table, stmt_target s = Some (schema, table) →
            schema = (if bool_decide (default_schema = "") then "public"
                      else default_schema) ∧
            (default_name ≠ "" → table = default_name))
    (w_trace (app set_crs).1).
Proof.
  intros app. subst app. cbv beta. split.
  - unfold app_upload, upload_shapefile_zip.
    apply bind_ext; [done|]. intros z w.
    apply bind_ext; [done|]. intros _ w'.
    apply bind_ext; [done|]. intros _ w''.
    destruct (pick_shp st_size z) as [shp|]; [|done].
    unfold upload_layer.
    apply bind_ext; [|done].
    unfold upload_prepare.
    apply bind_ext; [done|]. intros gdf w3.
    apply bind_ext; [|done].
    unfold upload_srid. apply bind_ext; [done|]. intros [n|] w4; done.
  - unfold app_upload. destruct archive as [e|z]; [apply Forall_nil_2|].
    rewrite upload_zip_run.
    destruct (pick_shp st_size z) as [shp|]; [|apply Forall_nil_2].
    match goal with
    | |- context [upload_layer _ _ _ _ _ _ _ _ _ _ _ _ _ _ _ _ _ ?w] =>
        pose proof (upload_layer_run execute str_lower str_upper str_strip repr read_file
                      read_cpg crs_epsg set_crs geometry_name set_geometry stem
                      default_dimension shp (str_or default_schema "public")
                      (if bool_decide (default_name ≠ "") then Some default_name else None)
                      None w eq_refl) as Hlayer;
        cbv zeta in Hlayer
    end.
    destruct (upload_prepare _ _ _ _ _ _ _ _ _ _ _ _ _).2 as [e|layer].
    + rewrite Hlayer. apply Forall_nil_2.
    + destruct Hlayer as (Hall & _).
      eapply Forall_impl; [exact Hall|]. intros s [Hs|Hs] schema table Ht.
      { rewrite Hs in Ht. discriminate Ht. }
      rewrite Hs in Ht. injection Ht as <- <-. split.
      * unfold str_or. repeat case_bool_decide; congruence.
      * intros Hn. unfold upload_table_name.
        rewrite (bool_decide_eq_true_2 _ Hn). by rewrite (bool_decide_eq_true_2 _ Hn).
Qed.

(** ** Connection settings: what is accepted *)

Lemma contains_scheme_colon (s : list ascii) :
  contains_chars s (chars "://") = true → contains_chars s (chars ":") = true.
Proof.
  induction s as [|c s IH]; [done|].
  cbn [contains_chars]. rewrite !orb_true_iff. intros [H|H]; [left|right; by apply IH].
  simpl in *. by apply andb_true_iff in H as [-> _].
Qed.

(** X20. [get_engine] returns a URL exactly when the port parses and the
    stripped host is not empty and holds no colon; the test for "://"
    only chooses the message, and the password is not looked at.  The URL
    then carries the stripped settings, [sslmode=require] and a connect
    timeout.  A port that does not parse raises before the host is
    checked. *)
Theorem get_engine_accepts (env : gmap string string) (parse_int : string → exn + Z)
    (str_strip : string → string) :
  let host := str_strip (getenv env "SUPABASE_HOST" "") in
  let port := parse_int (getenv env "SUPABASE_PORT" "5432") in
  (∀ url, get_engine env parse_int str_strip = inr url ↔
     port = inr (url_port url) ∧ host ≠ "" ∧ str_contains host ":" = false ∧
     url = mkUrl (str_strip (getenv env "SUPABASE_USER" ""))
                 (str_strip (getenv env "SUPABASE_PASSWORD" "")) host (url_port url)
                 (str_strip (getenv env "SUPABASE_DB" "postgres"))
                 [("sslmode", "require"); ("connect_timeout", "10")]) ∧
  (∀ e, port = inl e → get_engine env parse_int str_strip = inl e).
Proof.
  intros host port. subst host port. unfold get_engine. split.
  - intros url. destruct (parse_int _) as [e|port].
    { split; [done|]. by intros [[=] _]. }
    case_bool_decide as Hhost.
    { split; [done|]. by intros (_ & ? & _). }
    destruct (str_contains _ "://") eqn:Hscheme.
    { split; [done|]. intros (_ & _ & Hc & _).
      apply contains_scheme_colon in Hscheme. unfold str_contains in Hc. congruence. }
    destruct (str_contains _ ":") eqn:Hcolon.
    { split; [done|]. by intros (_ & _ & ? & _). }
    split.
    + intros [= <-]. done.
    + intros ([= ->] & _ & _ & ->). done.
  - intros e He. by rewrite He.
Qed.

(** X21. [mk_engine_from_env] returns a URL exactly when the port parses
    and both the host and the password are set and not empty; the URL
    carries them as given, with [sslmode=require], user and database
    defaulting to [postgres].  A port that does not parse raises before the
    two variables are checked. *)
Theorem mk_engine_from_env_accepts (env : gmap string string)
    (parse_int : string → exn + Z) :
  let port := parse_int (getenv env "SUPABASE_PORT" "6543") in
  (∀ url, mk_engine_from_env env parse_int = inr url ↔
     port = inr (url_port url) ∧
     env !! "SUPABASE_HOST" = Some (url_host url) ∧ url_host url ≠ "" ∧
     env !! "SUPABASE_PASSWORD" = Some (url_password url) ∧ url_password url ≠ "" ∧
     url_username url = getenv env "SUPABASE_USER" "postgres" ∧
     url_database url = getenv env "SUPABASE_DB" "postgres" ∧
     url_query url = [("sslmode", "require")]) ∧
  (∀ e, port = inl e → mk_engine_from_env env parse_int = inl e).
Proof.
  intros port. subst port. unfold mk_engine_from_env. split.
  - intros url. destruct (parse_int _) as [e|port].
    { split; [done|]. by intros [[=] _]. }
    destruct (env !! "SUPABASE_HOST") as [host|]; simpl.
    2: { split; [done|]. by intros (_ & [=] & _). }
    destruct (env !! "SUPABASE_PASSWORD") as [pwd|]; simpl.
    2: { rewrite andb_false_r. simpl. split; [done|]. by intros (_ & _ & _ & [=] & _). }
    case_bool_decide as Hh; simpl.
    2: { split; [done|]. intros (_ & [= ->] & Hne & _). by destruct Hh. }
    case_bool_decide as Hp; simpl.
    2: { split; [done|]. intros (_ & _ & _ & [= ->] & Hne & _). by destruct Hp. }
    split.
    + intros [= <-]. done.
    + intros ([= ->] & [= ->] & _ & [= ->] & _ & Hu & Hd & Hq).
      destruct url; simpl in *. by subst.
  - intros e He. by rewrite He.
Qed.

(** ** The batch as a whole *)

(** The set-up block sends its two statements in a transaction, in one of
    five ways according to what fails. *)
Lemma setup_traces {DB : Type} (execute : stmt → DB → DB * (exn + list string))
    (db : DB) (sent : list stmt) :
  let run := ensure_postgis_and_helpers execute (mkWorld db sent [] []) in
  ∃ new, w_trace run.1 = sent ++ new ∧ w_log run.1 = [] ∧
    new ∈ [[Begin];
           [Begin; CreateExtension; Rollback];
           [Begin; CreateExtension; CreateHelperFunction; Rollback];
           [Begin; CreateExtension; CreateHelperFunction; Commit; Rollback];
           [Begin; CreateExtension; CreateHelperFunction; Commit]] ∧
    (run.2 = inr () →
       new = [Begin; CreateExtension; CreateHelperFunction; Commit]).
Proof.
  unfold ensure_postgis_and_helpers. run_block execute.
  all: eexists; (split; [rewrite <-?app_assoc; reflexivity|]); (split; [done|]).
  all: split; [in_list|]; intros Hok; by try discriminate Hok.
Qed.

Section MainFacts.
Context {DB : Type}.
Variable execute : stmt → DB → DB * (exn + list string).
Variables str_lower str_upper str_strip : string → string.
Variable read_file : string → option string → exn + GeoDataFrame.
Variable read_cpg : string → option string.
Variable crs_epsg : GeoDataFrame → option (exn + option Z).
Variable geoms_has_z : GeoDataFrame → list (option (exn + bool)).
Variable set_geometry : GeoDataFrame → string → exn + GeoDataFrame.
Variable rel_stem : string → string → string.
Variable json_dumps : list error_record → string.
Variable write_file : string → string → (exn * option string) + unit.

Lemma db_after_trace (root : string) (files : list string) (d : DB * list stmt) :
  ∃ new, (db_after (ingest_body execute str_lower str_upper str_strip read_file read_cpg
      crs_epsg geoms_has_z set_geometry rel_stem root) files d).2 = d.2 ++ new ∧
    Forall (λ s, ∃ shp, shp ∈ files ∧ sent_for str_lower rel_stem root shp s) new.
Proof.
  revert d. induction files as [|shp files IH]; intros d.
  - exists []. simpl. by rewrite app_nil_r.
  - cbn [db_after].
    destruct (IH (ingest_body execute str_lower str_upper str_strip read_file read_cpg
      crs_epsg geoms_has_z set_geometry rel_stem root shp d).1.1) as (new2 & H2 & HP2).
    destruct (ingest_file_emits execute str_lower str_upper str_strip read_file read_cpg
                crs_epsg geoms_has_z set_geometry rel_stem root shp
                (mkWorld d.1 d.2 [] [])) as (new1 & H1 & HP1).
    exists (new1 ++ new2). split.
    + rewrite H2. unfold ingest_body. cbn [fst snd]. rewrite H1. simpl.
      by rewrite app_assoc.
    + apply Forall_app. split.
      * eapply Forall_impl; [exact HP1|]. intros s Hs. exists shp. split; [left|exact Hs].
      * eapply Forall_impl; [exact HP2|]. intros s (shp' & Hin & Hs).
        exists shp'. split; [by right|exact Hs].
Qed.

Lemma failures_files (root : string) (files : list string) (d : DB * list stmt) :
  Forall (λ r, file r ∈ files) (failures (outcomes (ingest_body execute str_lower str_upper str_strip read_file read_cpg
      crs_epsg geoms_has_z set_geometry rel_stem root) files d)).
Proof.
  revert d. induction files as [|shp files IH]; intros d; [apply Forall_nil_2|].
  cbn [outcomes]. destruct (ingest_body execute str_lower str_upper str_strip read_file read_cpg
      crs_epsg geoms_has_z set_geometry rel_stem root shp d) as [[d' logs] [e|[]]]; unfold failures; simpl.
  - apply Forall_cons. split; [left|].
    eapply Forall_impl; [apply IH|]. intros r Hr. by right.
  - eapply Forall_impl; [apply IH|]. intros r Hr. by right.
Qed.

(** The loop and the report, from any world: the database at the end, and
    the outcome, which is an error only when the write of the report
    raises. *)
Lemma ingest_all_run (root : string) (files : list string)
    (w : world (DB:=DB * list stmt)) :
  let body := ingest_body execute str_lower str_upper str_strip read_file read_cpg
                crs_epsg geoms_has_z set_geometry rel_stem root in
  let run := ingest_all body json_dumps write_file files w in
  let errors := failures (outcomes body files (w_db w)) in
  w_db run.1 = db_after body files (w_db w) ∧
  (errors = [] → run.2 = inr [] ∧ w_written run.1 = w_written w) ∧
  (errors ≠ [] →
     match write_file "ingest_shp_errors.json" (json_dumps errors) with
     | inr _ => run.2 = inr errors
     | inl (e, _) => run.2 = inl e
     end).
Proof.
  intros body run errors. subst run. unfold ingest_all, bind.
  destruct (ingest_loop_spec body files [] w) as (w' & -> & Hdb & Hwr & _).
  cbn [fst snd app]. fold errors. split; [|split].
  - case_bool_decide; simpl; [|done]. unfold write_text.
    by destruct (write_file _ _) as [[e l]|[]].
  - intros He. rewrite He. by rewrite bool_decide_eq_false_2 by (by intros ?).
  - intros Hne. rewrite (bool_decide_eq_true_2 _ Hne). unfold write_text.
    by destruct (write_file _ _) as [[e l]|[]].
Qed.

Variable path_name : string → string.
Variable parse_int : string → exn + Z.

(** [main] by cases: the engine, the set-up, then the loop and the
    report. *)
Lemma main_run (root : string) (env : gmap string string) (found : list string) (db : DB) :
  let setup := ensure_postgis_and_helpers execute (init_world db) in
  let after_setup :=
    mkWorld (w_db setup.1, w_trace setup.1) []
      ([(INFO, "Racine: " +:+ root)] ++ w_log setup.1) [] in
  main execute str_lower str_upper str_strip read_file read_cpg crs_epsg
    geoms_has_z set_geometry rel_stem json_dumps write_file path_name parse_int
    root env found (init_world (db, [])) =
  match mk_engine_from_env env parse_int with
  | inl e => (mkWorld (db, []) [] [(INFO, "Racine: " +:+ root)] [], inl e)
  | inr _ =>
      match setup.2 with
      | inl e => (after_setup, inl e)
      | inr _ =>
          ingest_all
            (ingest_body execute str_lower str_upper str_strip read_file read_cpg
               crs_epsg geoms_has_z set_geometry rel_stem root)
            json_dumps write_file (list_shp_files path_name found) after_setup
      end
  end.
Proof.
  unfold main, bind, logging, lift, setup_database, init_world.
  cbn [fst snd w_db w_trace w_log w_written app].
  destruct (mk_engine_from_env env parse_int) as [e|url]; [done|].
  by destruct (ensure_postgis_and_helpers execute _) as [ws [e|[]]].
Qed.

End MainFacts.

(** X22. [main] stops before any file when the engine cannot be made or
    the database set-up fails: the error leaves [main], nothing is sent for
    any shapefile and no report is written.  Once both have succeeded the
    only error that can leave [main] is one raised by the write of the
    report: with no failed file [main] returns and writes nothing; with
    failed files it returns their entries when the write returns, and ends
    with the error of the write when it raises.  Every entry is for a file
    that was found and whose name does not start with "._". *)
Theorem main_aborts_or_completes {DB : Type}
    (execute : stmt → DB → DB * (exn + list string))
    (str_lower str_upper str_strip : string → string)
    (read_file : string → option string → exn + GeoDataFrame)
    (read_cpg : string → option string)
    (crs_epsg : GeoDataFrame → option (exn + option Z))
    (geoms_has_z : GeoDataFrame → list (option (exn + bool)))
    (set_geometry : GeoDataFrame → string → exn + GeoDataFrame)
    (rel_stem : string → string → string)
    (json_dumps : list error_record → string)
    (write_file : string → string → (exn * option string) + unit)
    (path_name : string → string) (parse_int : string → exn + Z)
    (root : string) (env : gmap string string) (found : list string) (db : DB) :
  let engine := mk_engine_from_env env parse_int in
  let setup := ensure_postgis_and_helpers execute (init_world db) in
  let run :=
    main execute str_lower str_upper str_strip read_file read_cpg crs_epsg
      geoms_has_z set_geometry rel_stem json_dumps write_file path_name parse_int
      root env found (init_world (db, [])) in
  let errors :=
    failures (outcomes
      (ingest_body execute str_lower str_upper str_strip read_file read_cpg
         crs_epsg geoms_has_z set_geometry rel_stem root)
      (list_shp_files path_name found) (w_db setup.1, w_trace setup.1)) in
  (∀ e, engine = inl e →
     run.2 = inl e ∧ w_db run.1 = (db, []) ∧ w_written run.1 = []) ∧
  (∀ url e, engine = inr url → setup.2 = inl e →
     run.2 = inl e ∧ w_db run.1 = (w_db setup.1, w_trace setup.1) ∧
     w_written run.1 = []) ∧
  (∀ url, engine = inr url → setup.2 = inr () →
     Forall (λ r, file r ∈ found ∧
                  starts_with (chars "._") (chars (path_name (file r))) = false)
       errors ∧
     (errors = [] → run.2 = inr [] ∧ w_written run.1 = []) ∧
     (errors ≠ [] →
        match write_file "ingest_shp_errors.json" (json_dumps errors) with
        | inr _ => run.2 = inr errors
        | inl (e, _) => run.2 = inl e
        end)).
Proof.
  intros engine setup run errors. subst engine setup run errors.
  rewrite main_run. cbv zeta.
  split; [|split].
  - by intros e ->.
  - intros url e -> He. by rewrite He.
  - intros url -> Hs. rewrite Hs.
    match goal with
    | |- context [ingest_all ?b _ _ ?files ?w] =>
        destruct (ingest_all_run execute str_lower str_upper str_strip read_file read_cpg
                    crs_epsg geoms_has_z set_geometry rel_stem json_dumps write_file
                    root files w) as (_ & Hnil & Hsome);
        pose proof (failures_files execute str_lower str_upper str_strip read_file
                      read_cpg crs_epsg geoms_has_z set_geometry rel_stem
                      root files (w_db w)) as Hf
    end.
    cbn [w_db w_written] in Hnil, Hsome, Hf.
    split; [|split; [exact Hnil|exact Hsome]].
    eapply Forall_impl; [exact Hf|]. intros r Hin.
    by apply list_elem_of_filter in Hin as [? ?].
Qed.

(** X23. What [main] sends to the database, in order: first the set-up
    block (nothing when the engine cannot be made), which is the two set-up
    statements inside a transaction, cut short and rolled back at the first
    failure; then, only when the set-up has succeeded, the statements of
    the files.  Each of those is about the table named after one of the
    shapefiles found under the root whose file name does not start with
    "._", in schema [public] (or is a transaction or schema statement of
    that file's run), is not a set-up statement, and is not a write that
    declares SRID 0. *)
Theorem main_statements {DB : Type}
    (execute : stmt → DB → DB * (exn + list string))
    (str_lower str_upper str_strip : string → string)
    (read_file : string → option string → exn + GeoDataFrame)
    (read_cpg : string → option string)
    (crs_epsg : GeoDataFrame → option (exn + option Z))
    (geoms_has_z : GeoDataFrame → list (option (exn + bool)))
    (set_geometry : GeoDataFrame → string → exn + GeoDataFrame)
    (rel_stem : string → string → string)
    (json_dumps : list error_record → string)
    (write_file : string → string → (exn * option string) + unit)
    (path_name : string → string) (parse_int : string → exn + Z)
    (root : string) (env : gmap string string) (found : list string) (db : DB) :
  let setup := ensure_postgis_and_helpers execute (init_world db) in
  let run :=
    main execute str_lower str_upper str_strip read_file read_cpg crs_epsg
      geoms_has_z set_geometry rel_stem json_dumps write_file path_name parse_int
      root env found (init_world (db, [])) in
  let sent_setup :=
    match mk_engine_from_env env parse_int with
    | inl _ => []
    | inr _ => w_trace setup.1
    end in
  ∃ sent_files,
    (w_db run.1).2 = sent_setup ++ sent_files ∧
    sent_setup ∈ [[]; [Begin];
                  [Begin; CreateExtension; Rollback];
                  [Begin; CreateExtension; CreateHelperFunction; Rollback];
                  [Begin; CreateExtension; CreateHelperFunction; Commit; Rollback];
                  [Begin; CreateExtension; CreateHelperFunction; Commit]] ∧
    (sent_files ≠ [] →
       setup.2 = inr () ∧
       sent_setup = [Begin; CreateExtension; CreateHelperFunction; Commit]) ∧
    Forall
      (λ s, ∃ shp, shp ∈ found ∧
         starts_with (chars "._") (chars (path_name shp)) = false ∧
         on_table "public" (slugify str_lower (rel_stem root shp)) s ∧
         is_setup s = false ∧
         (is_write s = true → write_srid s ≠ Some 0%Z))
      sent_files.
Proof.
  intros setup run sent_setup. subst setup run sent_setup.
  rewrite main_run. cbv zeta.
  destruct (mk_engine_from_env env parse_int) as [e|url].
  { exists []. cbn [fst snd w_db]. split; [done|]. split; [by left|].
    split; [done|apply Forall_nil_2]. }
  destruct (setup_traces execute db []) as (new & Htr & _ & Hnew & Hok).
  cbv zeta in Htr, Hok. cbn [app] in Htr. fold (init_world db) in Htr, Hok.
  destruct (ensure_postgis_and_helpers execute (init_world db)) as [ws [e|[]]];
    cbn [fst snd] in *.
  { exists []. cbn [fst snd w_db]. rewrite app_nil_r. split; [done|].
    split; [rewrite Htr; by right|]. split; [done|apply Forall_nil_2]. }
  match goal with
  | |- context [ingest_all ?b _ _ ?files ?w] =>
      destruct (ingest_all_run execute str_lower str_upper str_strip read_file read_cpg
                  crs_epsg geoms_has_z set_geometry rel_stem json_dumps write_file
                  root files w) as (Hdb & _ & _);
      destruct (db_after_trace execute str_lower str_upper str_strip read_file
                  read_cpg crs_epsg geoms_has_z set_geometry rel_stem
                  root files (w_db w)) as (sent & Hsent & HP)
  end.
  cbn [w_db snd] in Hdb, Hsent. exists sent. rewrite Hdb, Hsent.
  split; [done|]. split; [rewrite Htr; by right|].
  split; [intros _; split; [done|]; rewrite Htr; by apply Hok|].
  eapply Forall_impl; [exact HP|]. intros s (shp & Hin & Hon & Hn & Hw).
  apply list_elem_of_filter in Hin as [Hname Hin]. by exists shp.
Qed.

(** ** The two encoding resolvers side by side *)

Lemma resolver_trials (enc_hint : option string) :
  omap id (filter (λ o, truthy o)
             [enc_hint; Some "utf-8"; Some "latin-1"; Some "cp1252"])
  = (if truthy enc_hint then option_list enc_hint else []) ++ fallback_encodings.
Proof.
  destruct enc_hint as [h|]; [|done].
  rewrite filter_cons. destruct (decide _) as [Ht|Ht].
  - apply Is_true_true in Ht. by rewrite Ht.
  - apply Is_true_false in Ht. by rewrite Ht.
Qed.

(** X24. On the same file the batch resolver and the upload resolver
    (given the hint of the same sidecar) make the same reader calls in the
    same order and return the same layer; they differ only when every
    attempt fails: the batch resolver lets the driver's last error out as
    it is, the upload resolver wraps that same error in a RuntimeError. *)
Theorem resolvers_agree (str_lower str_upper str_strip repr : string → string)
    (read_file : string → option string → exn + GeoDataFrame)
    (read_cpg : string → option string) (path : string) :
  let batch := read_shp_robust str_lower str_upper str_strip read_file read_cpg path in
  let upload :=
    _read_gdf_try_encodings repr read_file path
      (cpg_hint str_lower str_upper str_strip read_cpg path) in
  batch.1 = upload.1 ∧
  (∀ gdf, batch.2 = inr gdf ↔ upload.2 = inr gdf) ∧
  (∀ e, batch.2 = inl e ↔
        ∃ msg, upload.2 = inl (ExnFrom "RuntimeError" msg e)).
Proof.
  intros batch upload. subst batch upload.
  unfold read_shp_robust, _read_gdf_try_encodings. rewrite resolver_trials.
  destruct (try_encodings _ _ _ _) as [tried [last_err|gdf]]; simpl.
  - destruct (read_file path None) as [e2|gdf]; simpl.
    + split; [done|]. split; [done|]. intros e. split.
      * intros [= <-]. by eexists.
      * intros [msg [= _ <-]]. done.
    + split; [done|]. split; [done|]. intros e. split; [done|]. by intros [msg [=]].
  - split; [done|]. split; [done|]. intros e. split; [done|]. by intros [msg [=]].
Qed.

(** ** The two geometry classifiers side by side *)

Lemma base_types_single (str_upper : string → string) (gdf : GeoDataFrame) (z : bool)
    (t : string) :
  geom_type_for_column str_upper gdf z = (t, false) →
  ∃ t0, t = (if z then t0 +:+ "Z" else t0) ∧
    ∀ g, Some g ∈ geom_type gdf → norm_type (str_upper g) = t0.
Proof.
  unfold geom_type_for_column.
  destruct (decide (size (base_types str_upper gdf) = 0)) as [|_]; [by intros [=]|].
  destruct (decide (size (base_types str_upper gdf) = 1)) as [Hsz|_]; [|by intros [=]].
  apply size_1_elem_of in Hsz as [t0 Ht0]. apply leibniz_equiv in Ht0.
  rewrite Ht0, elements_singleton. simpl. intros [= <-]. exists t0. split; [done|].
  intros g Hg.
  assert (norm_type (str_upper g) ∈ base_types str_upper gdf) as Hin
    by (apply elem_of_base_types; by exists g).
  rewrite Ht0 in Hin. by apply elem_of_singleton in Hin.
Qed.

(** X25. The batch classifier and the upload classifier agree on a layer
    of one kind: when the batch type is not mixed and the upload family is
    a specific one, the batch type is the single or the multi variant of
    that family (with the Z suffix when the Z flag is set). *)
Theorem classifiers_agree (str_upper : string → string) (gdf : GeoDataFrame)
    (z : bool) (t : string) :
  geom_type_for_column str_upper gdf z = (t, false) →
  let fam := _geom_family str_upper gdf in
  let is_variant b := t = (if z then b +:+ "Z" else b) in
  (fam = "MULTIPOLYGON" → is_variant "POLYGON" ∨ is_variant "MULTIPOLYGON") ∧
  (fam = "MULTILINESTRING" → is_variant "LINESTRING" ∨ is_variant "MULTILINESTRING") ∧
  (fam = "MULTIPOINT" → is_variant "POINT" ∨ is_variant "MULTIPOINT").
Proof.
  intros (t0 & -> & Hall)%base_types_single fam is_variant. subst fam is_variant.
  assert (Hin : ∀ b, norm_type b = b →
            b ∈ (list_to_set (str_upper <$> dropna (geom_type gdf)) : gset string) →
            t0 = b).
  { intros b Hb (g & Hg & Hup)%elem_of_fams. by rewrite <-(Hall g Hg), Hup. }
  unfold _geom_family.
  destruct (meets _ "POLYGON" _) eqn:H1.
  { split; [|by split]. intros _. apply meets_spec in H1 as [H|H].
    - left. by rewrite (Hin "POLYGON" eq_refl H).
    - right. by rewrite (Hin "MULTIPOLYGON" eq_refl H). }
  destruct (meets _ "LINESTRING" _) eqn:H2.
  { split; [done|]. split; [|done]. intros _. apply meets_spec in H2 as [H|H].
    - left. by rewrite (Hin "LINESTRING" eq_refl H).
    - right. by rewrite (Hin "MULTILINESTRING" eq_refl H). }
  destruct (meets _ "POINT" _) eqn:H3.
  { split; [done|]. split; [done|]. intros _. apply meets_spec in H3 as [H|H].
    - left. by rewrite (Hin "POINT" eq_refl H).
    - right. by rewrite (Hin "MULTIPOINT" eq_refl H). }
  by repeat split.
Qed.

Lemma classifiers_agree_witness :
  geom_type_for_column ascii_upper polygon_layer true = ("POLYGONZ", false) ∧
  _geom_family ascii_upper polygon_layer = "MULTIPOLYGON" ∧
  ("POLYGONZ" = "POLYGON" +:+ "Z" ∨ "POLYGONZ" = "MULTIPOLYGON" +:+ "Z").
Proof.
  assert (geom_type_for_column ascii_upper polygon_layer true = ("POLYGONZ", false))
    as Hb by (vm_compute; reflexivity).
  assert (_geom_family ascii_upper polygon_layer = "MULTIPOLYGON")
    as Hf by (vm_compute; reflexivity).
  split; [exact Hb|]. split; [exact Hf|].
  exact (proj1 (classifiers_agree ascii_upper polygon_layer true "POLYGONZ" Hb) Hf).
Defined.
